(** * keep2notion: the sync orchestration workflow, embedded in Rocq

    A shallow embedding of the parts of the repository that start, drive
    and report one synchronisation run:

    - [shared/db_models.py]       the four tables ([SyncJob], [SyncState],
                                  [Credential], [SyncLog]);
    - [shared/db_operations.py]   [DatabaseOperations], the durable store;
    - [shared/encryption.py]      [EncryptionService] (the cipher is opaque);
    - [services/sync_service/notifications.py]  [NotificationService];
    - [services/sync_service/orchestrator.py]   [SyncOrchestrator];
    - [services/sync_service/main.py]           [abort_sync],
                                                [get_sync_status];
    - [services/api_gateway/main.py]            [get_api_keys],
                                  [verify_api_key], [start_sync],
                                  [get_sync_history].

    Conventions.  A Python [str] is a [string], each character standing
    for the code point of its number (so the strings are those over the
    code points below 256); a [datetime] is a [Z]
    (microseconds on the time line, compared as Python compares naive
    datetimes); a [uuid.UUID] is its canonical string.  The tables with a
    declared primary key the code looks rows up by ([sync_jobs.job_id],
    [credentials.user_id]) are finite maps keyed by it; [sync_state] and
    [sync_logs], whose primary key is a serial number, are lists of rows in
    insertion order, so that the unique index on [(user_id, keep_note_id)] is
    a property to be proved and not one of the representation.  Exceptions
    are values of [exn]; a call that can raise returns a [result].  Calls to
    [logger] write to the process log only and are left out.  The store is
    assumed reachable: connection failures are not modelled.  The store
    methods do not check what a column can hold (255 characters for
    [user_id], [keep_note_id] and [notion_page_id], no NUL in a text); the
    properties of the note loop assume it of the values the run writes
    ([fits_column], [storable]). *)

From stdpp Require Import base option list gmap strings pretty sorting.
From Stdlib Require Import ZArith Lia Ascii.

Local Open Scope Z_scope.
Local Open Scope string_scope.
Local Open Scope list_scope.

(** ** Python values *)

Definition UUID := string.
Definition datetime := Z.

(** The exceptions the modelled code raises or lets through.  [str] is
    Python's [str(e)]. *)
Inductive exn :=
| Exception (msg : string)
| KeyError (key : string)
| ValueError (msg : string)
| IntegrityError (msg : string)
| MultipleResultsFound
| JSONDecodeError (msg : string)
| RequestError (msg : string)
| InvalidToken
| HTTPException (status_code : Z) (detail : string).

Definition str (e : exn) : string :=
  match e with
  | Exception msg => msg
  | KeyError key => "'" +:+ key +:+ "'"
  | ValueError msg => msg
  | IntegrityError msg => msg
  | MultipleResultsFound =>
      "Multiple rows were found when one or none was required"
  | JSONDecodeError msg => msg
  | RequestError msg => msg
  | InvalidToken => ""
  | HTTPException _ detail => detail
  end.

Inductive result (A : Type) :=
| Ok (a : A)
| Raise (e : exn).
Arguments Ok {A} a.
Arguments Raise {A} e.

(** Python's [x or d] / default keyword argument: the value when given. *)
Definition given {A} (d : A) (x : option A) : A := default d x.

(** Python truthiness of an optional string: [None] and [""] are false. *)
Definition truthy (x : option string) : option string :=
  match x with
  | Some s => if decide (s = "") then None else Some s
  | None => None
  end.

(** ** shared/db_models.py *)

Module SyncJob.
Record t := mk {
    job_id : UUID;
    user_id : string;
    status : string;
    full_sync : bool;
    total_notes : Z;
    processed_notes : Z;
    failed_notes : Z;
    error_message : option string;
    created_at : datetime;
    completed_at : option datetime
}.
End SyncJob.

Module SyncState.
Record t := mk {
    id : Z;
    user_id : string;
    keep_note_id : string;
    notion_page_id : string;
    last_synced_at : datetime;
    keep_modified_at : datetime
}.
End SyncState.

Module Credential.
Record t := mk {
    user_id : string;
    google_oauth_token : string;
    notion_api_token : string;
    notion_database_id : string;
    updated_at : datetime
}.
End Credential.

Module SyncLog.
Record t := mk {
    id : Z;
    job_id : UUID;
    keep_note_id : option string;
    level : string;
    message : string;
    created_at : datetime
}.
End SyncLog.

(** The database: one field per table, and the two serial sequences. *)
Record Store := mkStore {
  sync_jobs : gmap UUID SyncJob.t;
  sync_state : list SyncState.t;
  credentials : gmap string Credential.t;
  sync_logs : list SyncLog.t;
  sync_state_id_seq : Z;
  sync_logs_id_seq : Z
}.

Definition empty_store : Store :=
  {| sync_jobs := ∅; sync_state := []; credentials := ∅; sync_logs := [];
     sync_state_id_seq := 1; sync_logs_id_seq := 1 |}.

Definition with_sync_jobs (db : Store) (jobs : gmap UUID SyncJob.t) : Store :=
  {| sync_jobs := jobs; sync_state := sync_state db;
     credentials := credentials db; sync_logs := sync_logs db;
     sync_state_id_seq := sync_state_id_seq db;
     sync_logs_id_seq := sync_logs_id_seq db |}.

Definition with_sync_state (db : Store) (rows : list SyncState.t) (seq : Z)
  : Store :=
  {| sync_jobs := sync_jobs db; sync_state := rows;
     credentials := credentials db; sync_logs := sync_logs db;
     sync_state_id_seq := seq;
     sync_logs_id_seq := sync_logs_id_seq db |}.

Definition with_credentials (db : Store) (creds : gmap string Credential.t)
  : Store :=
  {| sync_jobs := sync_jobs db; sync_state := sync_state db;
     credentials := creds; sync_logs := sync_logs db;
     sync_state_id_seq := sync_state_id_seq db;
     sync_logs_id_seq := sync_logs_id_seq db |}.

Definition with_sync_logs (db : Store) (rows : list SyncLog.t) (seq : Z)
  : Store :=
  {| sync_jobs := sync_jobs db; sync_state := sync_state db;
     credentials := credentials db; sync_logs := rows;
     sync_state_id_seq := sync_state_id_seq db;
     sync_logs_id_seq := seq |}.

(** ** shared/encryption.py

    Fernet is opaque: [cipher_encrypt] and [cipher_decrypt] stand for
    [b64encode(cipher.encrypt(..))] and [cipher.decrypt(b64decode(..))];
    the latter raises on a token it does not accept.  The empty string is
    passed through by both methods, as in the source. *)
Record EncryptionService := {
  cipher_encrypt : string → string;
  cipher_decrypt : string → result string
}.

Definition encrypt (svc : EncryptionService) (plaintext : string) : string :=
  if decide (plaintext = "") then "" else cipher_encrypt svc plaintext.

Definition decrypt (svc : EncryptionService) (ciphertext : string)
  : result string :=
  if decide (ciphertext = "") then Ok "" else cipher_decrypt svc ciphertext.

(** The dictionary [get_credentials] returns. *)
Module CredentialsDict.
Record t := mk {
    user_id : string;
    google_oauth_token : string;
    notion_api_token : string;
    notion_database_id : string;
    updated_at : datetime
}.
End CredentialsDict.

(** The keyword arguments of [update_sync_job]: [None] is an argument left
    at its default [None], which the method skips. *)
Module JobUpdate.
Record t := mk {
    status : option string;
    total_notes : option Z;
    processed_notes : option Z;
    failed_notes : option Z;
    error_message : option string;
    completed_at : option datetime
}.
Definition nothing : t := mk None None None None None None.
End JobUpdate.

(** ** shared/db_operations.py

    Every method opens its own session and commits before it returns, so a
    method is one transition of the store.  A method that reads the clock
    ([datetime.utcnow()], or a [server_default=func.now()] column it fills)
    takes the reading as an argument. *)
Module DatabaseOperations.

Definition get_sync_state_by_user (user_id : string) (db : Store)
  : list SyncState.t :=
  filter (λ r, SyncState.user_id r = user_id) (sync_state db).

(** The WHERE clause of [get_sync_record], also the conflict target of the
    upsert. *)
Definition same_note (user_id keep_note_id : string) (r : SyncState.t) : Prop :=
  SyncState.user_id r = user_id ∧ SyncState.keep_note_id r = keep_note_id.

#[global] Instance same_note_dec user_id keep_note_id r :
  Decision (same_note user_id keep_note_id r).
Proof. unfold same_note. apply _. Defined.

(** [scalar_one_or_none()] raises when the query yields several rows. *)
Definition get_sync_record (user_id keep_note_id : string) (db : Store)
  : result (option SyncState.t) :=
  match filter (same_note user_id keep_note_id) (sync_state db) with
  | [] => Ok None
  | [r] => Ok (Some r)
  | _ => Raise MultipleResultsFound
  end.

(** The SET clause of the upsert, applied to a conflicting row. *)
Definition on_conflict_do_update (notion_page_id : string)
    (keep_modified_at now : datetime) (r : SyncState.t) : SyncState.t :=
  SyncState.mk (SyncState.id r) (SyncState.user_id r) (SyncState.keep_note_id r)
    notion_page_id now keep_modified_at.

(** [INSERT ... ON CONFLICT (user_id, keep_note_id) DO UPDATE].  The two
    clock readings are the one in [values(...)] and the one in [set_]; the
    serial sequence advances on every attempt, as PostgreSQL does. *)
Definition upsert_sync_state (now_values now_set : datetime)
    (user_id keep_note_id notion_page_id : string)
    (keep_modified_at : datetime) (db : Store)
  : Store * result (option SyncState.t) :=
  let rows := sync_state db in
  let rows' :=
    if decide (Exists (same_note user_id keep_note_id) rows)
    then (λ r, if decide (same_note user_id keep_note_id r)
               then on_conflict_do_update notion_page_id keep_modified_at
                      now_set r
               else r) <$> rows
    else rows ++ [SyncState.mk (sync_state_id_seq db) user_id keep_note_id
                    notion_page_id now_values keep_modified_at] in
  let db' := with_sync_state db rows' (sync_state_id_seq db + 1) in
  (db', get_sync_record user_id keep_note_id db').

(** [if keep_note_id:] is false for [None] and for the empty string: both
    delete every row of the user.  Returns the number of rows deleted. *)
Definition delete_sync_state (user_id : string) (keep_note_id : option string)
    (db : Store) : Store * Z :=
  let kept :=
    match truthy keep_note_id with
    | Some n => filter (λ r, ¬ same_note user_id n r) (sync_state db)
    | None => filter (λ r, SyncState.user_id r ≠ user_id) (sync_state db)
    end in
  (with_sync_state db kept (sync_state_id_seq db),
   Z.of_nat (length (sync_state db)) - Z.of_nat (length kept)).

(** [store_credentials]: update the user's row when there is one, insert
    otherwise; [now] fills [updated_at] in both branches. *)
Definition store_credentials (now : datetime)
    (user_id google_oauth_token notion_api_token notion_database_id : string)
    (encryption_service : EncryptionService) (db : Store)
  : Store * Credential.t :=
  let encrypted_google_token := encrypt encryption_service google_oauth_token in
  let encrypted_notion_token := encrypt encryption_service notion_api_token in
  let credential :=
    Credential.mk user_id encrypted_google_token encrypted_notion_token
      notion_database_id now in
  (with_credentials db (<[user_id := credential]> (credentials db)), credential).

Definition get_credentials (user_id : string)
    (encryption_service : EncryptionService) (db : Store)
  : result (option CredentialsDict.t) :=
  match credentials db !! user_id with
  | None => Ok None
  | Some credential =>
      match decrypt encryption_service (Credential.google_oauth_token credential) with
      | Raise e => Raise e
      | Ok google =>
          match decrypt encryption_service (Credential.notion_api_token credential) with
          | Raise e => Raise e
          | Ok notion =>
              Ok (Some (CredentialsDict.mk (Credential.user_id credential)
                          google notion
                          (Credential.notion_database_id credential)
                          (Credential.updated_at credential)))
          end
      end
  end.

Definition delete_credentials (user_id : string) (db : Store) : Store * bool :=
  match credentials db !! user_id with
  | Some _ => (with_credentials db (delete user_id (credentials db)), true)
  | None => (db, false)
  end.

(** [create_sync_job] builds the row and INSERTs it: [session.add] followed
    by [commit].  The columns not given take their defaults.  [job_id] is the
    primary key of [sync_jobs], so the INSERT of a [job_id] already present is
    rejected by the database and the commit raises; nothing is written. *)
Definition create_sync_job (now : datetime) (job_id : UUID) (user_id : string)
    (full_sync : bool) (db : Store) : Store * result SyncJob.t :=
  let sync_job :=
    SyncJob.mk job_id user_id "queued" full_sync 0 0 0 None now None in
  match sync_jobs db !! job_id with
  | Some _ =>
      (db, Raise (IntegrityError
                    "duplicate key value violates unique constraint sync_jobs_pkey"))
  | None =>
      (with_sync_jobs db (<[job_id := sync_job]> (sync_jobs db)), Ok sync_job)
  end.

(** The assignments of [update_sync_job], one [if ... is not None] each. *)
Definition apply_job_update (u : JobUpdate.t) (j : SyncJob.t) : SyncJob.t :=
  SyncJob.mk (SyncJob.job_id j) (SyncJob.user_id j)
    (given (SyncJob.status j) (JobUpdate.status u))
    (SyncJob.full_sync j)
    (given (SyncJob.total_notes j) (JobUpdate.total_notes u))
    (given (SyncJob.processed_notes j) (JobUpdate.processed_notes u))
    (given (SyncJob.failed_notes j) (JobUpdate.failed_notes u))
    (match JobUpdate.error_message u with
     | Some m => Some m
     | None => SyncJob.error_message j
     end)
    (SyncJob.created_at j)
    (match JobUpdate.completed_at u with
     | Some t => Some t
     | None => SyncJob.completed_at j
     end).

Definition update_sync_job (job_id : UUID) (u : JobUpdate.t) (db : Store)
  : Store * option SyncJob.t :=
  match sync_jobs db !! job_id with
  | None => (db, None)
  | Some sync_job =>
      let sync_job' := apply_job_update u sync_job in
      (with_sync_jobs db (<[job_id := sync_job']> (sync_jobs db)),
       Some sync_job')
  end.

Definition get_sync_job (job_id : UUID) (db : Store) : option SyncJob.t :=
  sync_jobs db !! job_id.

(** The defaults of [increment_sync_job_progress(job_id, processed=1,
    failed=0)]: an argument the caller leaves out is [None] here. *)
Definition processed_default : Z := 1.
Definition failed_default : Z := 0.

Definition add_progress (processed failed : Z) (j : SyncJob.t) : SyncJob.t :=
  SyncJob.mk (SyncJob.job_id j) (SyncJob.user_id j) (SyncJob.status j)
    (SyncJob.full_sync j) (SyncJob.total_notes j)
    (SyncJob.processed_notes j + processed)
    (SyncJob.failed_notes j + failed)
    (SyncJob.error_message j) (SyncJob.created_at j) (SyncJob.completed_at j).

Definition increment_sync_job_progress (job_id : UUID)
    (processed failed : option Z) (db : Store) : Store * option SyncJob.t :=
  match sync_jobs db !! job_id with
  | None => (db, None)
  | Some sync_job =>
      let sync_job' :=
        add_progress (given processed_default processed)
          (given failed_default failed) sync_job in
      (with_sync_jobs db (<[job_id := sync_job']> (sync_jobs db)),
       Some sync_job')
  end.

(** [add_sync_log] INSERTs a row; [sync_logs.job_id] references
    [sync_jobs.job_id], so a log for a job that does not exist is rejected. *)
Definition add_sync_log (now : datetime) (job_id : UUID) (level message : string)
    (keep_note_id : option string) (db : Store) : Store * result SyncLog.t :=
  let sync_log :=
    SyncLog.mk (sync_logs_id_seq db) job_id keep_note_id level message now in
  match sync_jobs db !! job_id with
  | None =>
      (with_sync_logs db (sync_logs db) (sync_logs_id_seq db + 1),
       Raise (IntegrityError
                "insert on table sync_logs violates foreign key constraint"))
  | Some _ =>
      (with_sync_logs db (sync_logs db ++ [sync_log]) (sync_logs_id_seq db + 1),
       Ok sync_log)
  end.

End DatabaseOperations.

(** ** The two HTTP collaborators

    The orchestrator talks to the Keep extractor and to the Notion writer
    through [httpx] clients.  A call either raises (a transport error) or
    returns a response; [json] is the decoded body, [None] when the body is
    not JSON (then [response.json()] raises).  Only the keys the
    orchestrator reads are kept, each optional, as in a Python [dict]. *)

(** A note as the Keep extractor returns it: a dictionary that may lack any
    of its keys. *)
Module Note.
Record t := mk {
    id : option string;
    title : option string;
    content : option string;
    created_at : option string;
    modified_at : option string;
    labels : option (list string);
    images : option (list (list (string * string)))
}.
End Note.

(** The ["note"] object sent to the Notion writer. *)
Module NotePayload.
Record t := mk {
    title : string;
    content : string;
    created_at : string;
    labels : list string;
    images : list (list (string * string))
}.
End NotePayload.

Record KeepAuthRequest := {
  auth_username : string;
  auth_master_token : string
}.

Record KeepNotesParams := {
  params_username : string;
  params_upload_images : bool;
  params_modified_since : option string;
  params_limit : option Z
}.

Record NotionCreateRequest := {
  create_api_token : string;
  create_database_id : string;
  create_note : NotePayload.t
}.

Record NotionUpdateRequest := {
  update_api_token : string;
  update_note : NotePayload.t
}.

Record Response (B : Type) := {
  status_code : Z;
  text : string;
  json : option B
}.
Arguments status_code {B} r.
Arguments text {B} r.
Arguments json {B} r.

Record AuthData := {
  auth_status : option string;
  auth_error : option string
}.

Record NotesData := {
  notes : option (list Note.t)
}.

Record PageData := {
  page_id : option string
}.

(** ** What a run does to the outside: the call log *)

Inductive ContextValue :=
| CtxStr (s : string)
| CtxBool (b : bool).

Inductive DbCall :=
| CreateSyncJob (job_id : UUID) (user_id : string) (full_sync : bool)
| UpdateSyncJob (job_id : UUID) (u : JobUpdate.t)
| GetSyncJob (job_id : UUID)
| IncrementSyncJobProgress (job_id : UUID) (processed failed : option Z)
| AddSyncLog (job_id : UUID) (level message : string)
    (keep_note_id : option string)
| GetCredentials (user_id : string)
| GetSyncStateByUser (user_id : string)
| GetSyncRecord (user_id keep_note_id : string)
| UpsertSyncState (user_id keep_note_id notion_page_id : string)
    (keep_modified_at : datetime).

Inductive Event :=
| KeepPost (req : KeepAuthRequest)
| KeepGet (params : KeepNotesParams)
| NotionPost (req : NotionCreateRequest)
| NotionPatch (page : string) (req : NotionUpdateRequest)
| SendCriticalErrorNotification (job_id user_id error_message : string)
    (context : list (string * ContextValue))
| WebhookPost (url notification_message job_id user_id error : string)
| Db (call : DbCall).

(** ** The environment of a run

    Everything the code obtains from outside itself: the clock, the process
    environment, the cipher, the behaviour of the two services (each may
    depend on all that happened before, the call log) and the library
    functions that are not re-implemented here ([datetime.isoformat],
    [datetime.fromisoformat], [int], [uuid.UUID]).  [isoformat] never
    returns the empty string: the date is always printed. *)
Record Env := {
  utcnow : nat → datetime;
  getenv : string → option string;
  encryption_service : EncryptionService;
  keep_client_post : list Event → KeepAuthRequest → result (Response AuthData);
  keep_client_get : list Event → KeepNotesParams → result (Response NotesData);
  notion_client_post :
    list Event → NotionCreateRequest → result (Response PageData);
  notion_client_patch :
    list Event → string → NotionUpdateRequest → result (Response PageData);
  webhook_post : list Event → string → result unit;
  isoformat : datetime → string;
  isoformat_nonempty : ∀ d, isoformat d ≠ "";
  fromisoformat : string → option datetime;
  int_of_str : string → option Z;
  uuid_of_str : string → option UUID
}.

(** The state a run threads: the database, the number of clock readings so
    far, and the call log in chronological order. *)
Record World := {
  store : Store;
  clock : nat;
  trace : list Event
}.

(** ** A state-and-exception monad for the Python control flow.  State
    changes made before an exception is raised persist: every store method
    has committed. *)
Definition M (A : Type) : Type := World → World * result A.

Definition ret {A} (a : A) : M A := λ w, (w, Ok a).

Definition raise {A} (e : exn) : M A := λ w, (w, Raise e).

Definition bind {A B} (m : M A) (k : A → M B) : M B :=
  λ w, match m w with
       | (w', Ok a) => k a w'
       | (w', Raise e) => (w', Raise e)
       end.

(** [try: m except Exception as e: h e] *)
Definition try_except {A} (m : M A) (h : exn → M A) : M A :=
  λ w, match m w with
       | (w', Ok a) => (w', Ok a)
       | (w', Raise e) => h e w'
       end.

Notation "'do' x <- m ; k" := (bind m (λ x, k))
  (at level 10, x name, m at level 100, k at level 200).
Notation "'do' ' pat <- m ; k" := (bind m (λ x, match x with pat => k end))
  (at level 10, pat pattern, m at level 100, k at level 200).
Notation "'run' m ; k" := (bind m (λ _, k))
  (at level 10, m at level 100, k at level 200).

Definition of_result {A} (r : result A) : M A := λ w, (w, r).

Definition emit (ev : Event) : M unit :=
  λ w, ({| store := store w; clock := clock w; trace := trace w ++ [ev] |},
        Ok tt).

(** A store method called through [self.db_ops]: the call is logged, then
    the store makes its transition. *)
Definition db_call {A} (call : DbCall) (f : Store → Store * A) : M A :=
  λ w, let '(db', a) := f (store w) in
       ({| store := db'; clock := clock w; trace := trace w ++ [Db call] |},
        Ok a).

Definition db_call_raising {A} (call : DbCall) (f : Store → Store * result A)
  : M A :=
  λ w, let '(db', r) := f (store w) in
       ({| store := db'; clock := clock w; trace := trace w ++ [Db call] |}, r).

(** ** Python string helpers *)

Definition newline : string := String (Ascii.ascii_of_nat 10) "".

(** [str.lower()] on ASCII letters. *)
Definition lower_ascii (c : ascii) : ascii :=
  let n := Ascii.nat_of_ascii c in
  if decide (65 ≤ n ∧ n ≤ 90)%nat then Ascii.ascii_of_nat (n + 32) else c.

Fixpoint lower (s : string) : string :=
  match s with
  | "" => ""
  | String c s' => String (lower_ascii c) (lower s')
  end.

(** The characters [str.strip()] removes, those for which [str.isspace()]
    holds: of the code points below 256 these are U+0009 to U+000D, U+001C
    to U+0020, U+0085 (next line) and U+00A0 (no-break space). *)
Definition is_space (c : ascii) : bool :=
  let n := Ascii.nat_of_ascii c in
  bool_decide ((9 ≤ n ∧ n ≤ 13) ∨ (28 ≤ n ∧ n ≤ 32) ∨ n = 133 ∨ n = 160)%nat.

(** Truth value of [s.strip()]: some character is left. *)
Fixpoint strip_truthy (s : string) : bool :=
  match s with
  | "" => false
  | String c s' => if is_space c then strip_truthy s' else true
  end.

(** [s.replace('Z', '+00:00')] *)
Fixpoint replace_Z (s : string) : string :=
  match s with
  | "" => ""
  | String c s' =>
      if decide (c = "Z"%char) then "+00:00" +:+ replace_Z s'
      else String c (replace_Z s')
  end.

(** [repr] of the context dictionaries the orchestrator builds. *)
Definition repr_value (v : ContextValue) : string :=
  match v with
  | CtxStr s => "'" +:+ s +:+ "'"
  | CtxBool true => "True"
  | CtxBool false => "False"
  end.

Fixpoint repr_items (items : list (string * ContextValue)) : string :=
  match items with
  | [] => ""
  | [(k, v)] => "'" +:+ k +:+ "': " +:+ repr_value v
  | (k, v) :: rest =>
      "'" +:+ k +:+ "': " +:+ repr_value v +:+ ", " +:+ repr_items rest
  end.

Definition repr_context (context : list (string * ContextValue)) : string :=
  "{" +:+ repr_items context +:+ "}".

(** [f"{x}"] for an optional string: [None] prints as [None]. *)
Definition format_optional (x : option string) : string :=
  match x with
  | Some s => s
  | None => "None"
  end.

(** Reading the clock: [datetime.utcnow()], or [NOW()] in the database. *)
Definition now (env : Env) : M datetime :=
  λ w, ({| store := store w; clock := S (clock w); trace := trace w |},
        Ok (utcnow env (clock w))).

(** ** The store as the services call it ([self.db_ops.method(...)]) *)
Module db_ops.

Definition create_sync_job (env : Env) (job_id : UUID) (user_id : string)
    (full_sync : bool) : M SyncJob.t :=
  do t <- now env;
  db_call_raising (CreateSyncJob job_id user_id full_sync)
    (DatabaseOperations.create_sync_job t job_id user_id full_sync).

Definition update_sync_job (job_id : UUID) (u : JobUpdate.t)
  : M (option SyncJob.t) :=
  db_call (UpdateSyncJob job_id u) (DatabaseOperations.update_sync_job job_id u).

Definition get_sync_job (job_id : UUID) : M (option SyncJob.t) :=
  db_call (GetSyncJob job_id)
    (λ db, (db, DatabaseOperations.get_sync_job job_id db)).

Definition increment_sync_job_progress (job_id : UUID)
    (processed failed : option Z) : M (option SyncJob.t) :=
  db_call (IncrementSyncJobProgress job_id processed failed)
    (DatabaseOperations.increment_sync_job_progress job_id processed failed).

Definition add_sync_log (env : Env) (job_id : UUID) (level message : string)
    (keep_note_id : option string) : M SyncLog.t :=
  do t <- now env;
  db_call_raising (AddSyncLog job_id level message keep_note_id)
    (DatabaseOperations.add_sync_log t job_id level message keep_note_id).

Definition get_credentials (env : Env) (user_id : string)
  : M (option CredentialsDict.t) :=
  db_call_raising (GetCredentials user_id)
    (λ db, (db, DatabaseOperations.get_credentials user_id
                  (encryption_service env) db)).

Definition get_sync_state_by_user (user_id : string) : M (list SyncState.t) :=
  db_call (GetSyncStateByUser user_id)
    (λ db, (db, DatabaseOperations.get_sync_state_by_user user_id db)).

Definition get_sync_record (user_id keep_note_id : string)
  : M (option SyncState.t) :=
  db_call_raising (GetSyncRecord user_id keep_note_id)
    (λ db, (db, DatabaseOperations.get_sync_record user_id keep_note_id db)).

Definition upsert_sync_state (env : Env)
    (user_id keep_note_id notion_page_id : string) (keep_modified_at : datetime)
  : M (option SyncState.t) :=
  do t_values <- now env;
  do t_set <- now env;
  db_call_raising
    (UpsertSyncState user_id keep_note_id notion_page_id keep_modified_at)
    (DatabaseOperations.upsert_sync_state t_values t_set user_id keep_note_id
       notion_page_id keep_modified_at).

End db_ops.

(** ** services/sync_service/notifications.py *)
Module NotificationService.

Record t := {
  notification_enabled : bool;
  notification_webhook : option string
}.

(** [__init__]: both settings come from the process environment. *)
Definition init (env : Env) : t :=
  {| notification_enabled :=
       bool_decide
         (lower (given "false" (getenv env "ENABLE_NOTIFICATIONS")) = "true");
     notification_webhook := getenv env "NOTIFICATION_WEBHOOK_URL" |}.

Definition notification_text (job_id user_id error_message : string)
    (context : list (string * ContextValue)) : string :=
  let notification_message :=
    "Critical Error in Sync Job" +:+ newline +:+
    "Job ID: " +:+ job_id +:+ newline +:+
    "User ID: " +:+ user_id +:+ newline +:+
    "Error: " +:+ error_message +:+ newline in
  match context with
  | [] => notification_message
  | _ => notification_message +:+ "Context: " +:+ repr_context context
           +:+ newline
  end.

(** The call is logged on entry.  With notifications disabled the method
    returns at once; a failure of the webhook is swallowed. *)
Definition send_critical_error_notification (env : Env) (self : t)
    (job_id user_id error_message : string)
    (context : list (string * ContextValue)) : M unit :=
  run emit (SendCriticalErrorNotification job_id user_id error_message context);
  if negb (notification_enabled self) then ret tt
  else
    let notification_message :=
      notification_text job_id user_id error_message context in
    match truthy (notification_webhook self) with
    | None => ret tt
    | Some url =>
        try_except
          (run emit (WebhookPost url notification_message job_id user_id
                       error_message);
           λ w, (w, webhook_post env (trace w) url))
          (λ _, ret tt)
    end.

End NotificationService.

(** ** services/sync_service/orchestrator.py *)
Module SyncOrchestrator.

(** The per-note result dictionary. *)
Record NoteResult := {
  result_note_id : string;
  result_status : string;
  result_notion_page_id : option string;
  result_error : option string
}.

Record Summary := {
  summary_total_notes : Z;
  summary_processed_notes : Z;
  summary_failed_notes : Z
}.

(** The dictionary [execute_sync] returns. *)
Record SyncResult := {
  sync_job_id : string;
  sync_status : string;
  sync_summary : option Summary;
  sync_error : option string
}.

(** The locals of the note loop. *)
Record LoopState := {
  processed_count : Z;
  failed_count : Z;
  results : list NoteResult
}.

(** [max(xs)] for a non-empty list [x :: xs] of datetimes. *)
Definition py_max (x : datetime) (xs : list datetime) : datetime :=
  foldl Z.max x xs.

(** [d[key]] on a dictionary read as an optional field. *)
Definition getitem {A} (key : string) (field : option A) : M A :=
  match field with
  | Some v => ret v
  | None => raise (KeyError key)
  end.

Definition response_json {B} (r : Response B) : M B :=
  match json r with
  | Some body => ret body
  | None => raise (JSONDecodeError "Expecting value")
  end.

Section Orchestrator.
Context (env : Env).

Definition keep_post (req : KeepAuthRequest) : M (Response AuthData) :=
  λ w, ({| store := store w; clock := clock w;
           trace := trace w ++ [KeepPost req] |},
        keep_client_post env (trace w) req).

Definition keep_get (params : KeepNotesParams) : M (Response NotesData) :=
  λ w, ({| store := store w; clock := clock w;
           trace := trace w ++ [KeepGet params] |},
        keep_client_get env (trace w) params).

Definition notion_post (req : NotionCreateRequest) : M (Response PageData) :=
  λ w, ({| store := store w; clock := clock w;
           trace := trace w ++ [NotionPost req] |},
        notion_client_post env (trace w) req).

Definition notion_patch (page : string) (req : NotionUpdateRequest)
  : M (Response PageData) :=
  λ w, ({| store := store w; clock := clock w;
           trace := trace w ++ [NotionPatch page req] |},
        notion_client_patch env (trace w) page req).

(** [SYNC_NOTE_LIMIT]: used when set, not blank and an integer. *)
Definition note_limit : option Z :=
  match truthy (getenv env "SYNC_NOTE_LIMIT") with
  | Some s => if strip_truthy s then int_of_str env s else None
  | None => None
  end.

Definition _fetch_notes_from_keep (username google_token : string)
    (modified_since : option string) : M (list Note.t) :=
  do auth_response <-
    keep_post {| auth_username := username; auth_master_token := google_token |};
  if decide (status_code auth_response ≠ 200)
  then raise (Exception ("Keep authentication failed: "
                         +:+ text auth_response))
  else
    do auth_data <- response_json auth_response;
    if decide (auth_status auth_data ≠ Some "authenticated")
    then raise (Exception ("Keep authentication failed: "
                           +:+ given "Unknown error" (auth_error auth_data)))
    else
      let params :=
        {| params_username := username;
           params_upload_images := true;
           params_modified_since := truthy modified_since;
           params_limit := note_limit |} in
      do notes_response <- keep_get params;
      if decide (status_code notes_response ≠ 200)
      then raise (Exception ("Failed to fetch notes from Keep: "
                             +:+ text notes_response))
      else
        do notes_data <- response_json notes_response;
        ret (given [] (notes notes_data)).

(** The ["note"] object of both Notion requests; the keys are read in this
    order, the first one missing raises. *)
Definition note_payload (note : Note.t) : M NotePayload.t :=
  do title <- getitem "title" (Note.title note);
  do content <- getitem "content" (Note.content note);
  do created_at <- getitem "created_at" (Note.created_at note);
  do labels <- getitem "labels" (Note.labels note);
  do images <- getitem "images" (Note.images note);
  ret (NotePayload.mk title content created_at labels images).

(** [datetime.fromisoformat(s)] raises [ValueError] on a string it cannot
    read. *)
Definition parse_modified_at (s : string) : M datetime :=
  match fromisoformat env (replace_Z s) with
  | Some d => ret d
  | None => raise (ValueError ("Invalid isoformat string: '"
                               +:+ replace_Z s +:+ "'"))
  end.

(** The branch [if existing:] of [_process_note]: update the page. *)
Definition update_existing_page (note : Note.t) (existing : SyncState.t)
    (notion_token : string) : M string :=
  do payload <- note_payload note;
  do response <-
    notion_patch (SyncState.notion_page_id existing)
      {| update_api_token := notion_token; update_note := payload |};
  if decide (status_code response ≠ 200)
  then raise (Exception ("Failed to update Notion page: " +:+ text response))
  else
    do result <- response_json response;
    getitem "page_id" (page_id result).

(** The branch [else:] of [_process_note]: create a page. *)
Definition create_new_page (note : Note.t)
    (notion_token notion_database_id : string) : M string :=
  do payload <- note_payload note;
  do response <-
    notion_post
      {| create_api_token := notion_token;
         create_database_id := notion_database_id;
         create_note := payload |};
  if decide (status_code response ≠ 201)
  then raise (Exception ("Failed to create Notion page: " +:+ text response))
  else
    do result <- response_json response;
    getitem "page_id" (page_id result).

Definition _process_note (job_id : UUID) (user_id : string) (note : Note.t)
    (notion_token notion_database_id : string) : M NoteResult :=
  do note_id <- getitem "id" (Note.id note);
  try_except
    (do existing <- db_ops.get_sync_record user_id note_id;
     do notion_page_id <-
       match existing with
       | Some existing => update_existing_page note existing notion_token
       | None => create_new_page note notion_token notion_database_id
       end;
     do modified_at_str <- getitem "modified_at" (Note.modified_at note);
     do modified_at <- parse_modified_at modified_at_str;
     run db_ops.upsert_sync_state env user_id note_id notion_page_id modified_at;
     run db_ops.add_sync_log env job_id "INFO"
           ("Successfully synced note " +:+ note_id +:+ " to Notion page "
            +:+ notion_page_id) (Some note_id);
     ret {| result_note_id := note_id; result_status := "success";
            result_notion_page_id := Some notion_page_id;
            result_error := None |})
    (λ e,
     run db_ops.add_sync_log env job_id "ERROR"
           ("Failed to process note " +:+ note_id +:+ ": " +:+ str e)
           (Some note_id);
     ret {| result_note_id := note_id; result_status := "failed";
            result_notion_page_id := None; result_error := Some (str e) |}).

(** One iteration of [for note in notes].  Nothing after the local
    counters are updated can raise, so the handler sees the counters as
    they were when the iteration began.  The handler's call
    [increment_sync_job_progress(job_id, failed=1)] leaves [processed] out. *)
Definition process_one (job_id : UUID) (user_id : string)
    (notion_token notion_database_id : string) (acc : LoopState)
    (note : Note.t) : M LoopState :=
  try_except
    (do result <-
       _process_note job_id user_id note notion_token notion_database_id;
     let success := bool_decide (result_status result = "success") in
     let acc' :=
       {| processed_count :=
            if success then processed_count acc + 1 else processed_count acc;
          failed_count :=
            if success then failed_count acc else failed_count acc + 1;
          results := results acc ++ [result] |} in
     run db_ops.increment_sync_job_progress job_id
           (Some (if success then 1 else 0))
           (Some (if bool_decide (result_status result = "failed")
                  then 1 else 0));
     ret acc')
    (λ e,
     let note_id := given "unknown" (Note.id note) in
     let acc' :=
       {| processed_count := processed_count acc;
          failed_count := failed_count acc + 1;
          results := results acc ++
                     [{| result_note_id := note_id; result_status := "failed";
                         result_notion_page_id := None;
                         result_error := Some (str e) |}] |} in
     run db_ops.add_sync_log env job_id "ERROR"
           ("Failed to process note " +:+ note_id +:+ ": " +:+ str e)
           (Note.id note);
     run db_ops.increment_sync_job_progress job_id None (Some 1);
     ret acc').

Fixpoint process_notes (job_id : UUID) (user_id : string)
    (notion_token notion_database_id : string) (notes : list Note.t)
    (acc : LoopState) : M LoopState :=
  match notes with
  | [] => ret acc
  | note :: rest =>
      do acc' <- process_one job_id user_id notion_token notion_database_id
                   acc note;
      process_notes job_id user_id notion_token notion_database_id rest acc'
  end.

(** Step 2 of [execute_sync]: the lower bound of the fetch. *)
Definition determine_modified_since (user_id : string) (full_sync : bool)
  : M (option string) :=
  if negb full_sync then
    do sync_state <- db_ops.get_sync_state_by_user user_id;
    match SyncState.last_synced_at <$> sync_state with
    | [] => ret None
    | t :: ts => ret (Some (isoformat env (py_max t ts)))
    end
  else ret None.

(** The statements of [execute_sync] before its [try]. *)
Definition execute_sync_start (job_id : UUID) (user_id : string)
    (full_sync : bool) : M unit :=
  run db_ops.create_sync_job env job_id user_id full_sync;
  run db_ops.update_sync_job job_id
        (JobUpdate.mk (Some "running") None None None None None);
  run db_ops.add_sync_log env job_id "INFO"
        ("Starting sync for user " +:+ user_id) None;
  ret tt.

(** Step 1, the branch [if not credentials]. *)
Definition fail_missing_credentials (job_id : UUID) (user_id : string)
  : M SyncResult :=
  let error_msg := "No credentials found for user " +:+ user_id in
  do t <- now env;
  run db_ops.update_sync_job job_id
        (JobUpdate.mk (Some "failed") None None None (Some error_msg)
           (Some t));
  run db_ops.add_sync_log env job_id "ERROR" error_msg None;
  run NotificationService.send_critical_error_notification env
        (NotificationService.init env) job_id user_id error_msg
        [("stage", CtxStr "credential_loading")];
  ret {| sync_job_id := job_id; sync_status := "failed";
         sync_summary := None; sync_error := Some error_msg |}.

(** Step 7: complete the job. *)
Definition complete_job (job_id : UUID) (total_notes : Z) (acc : LoopState)
  : M SyncResult :=
  do t <- now env;
  run db_ops.update_sync_job job_id
        (JobUpdate.mk (Some "completed") None None None None (Some t));
  run db_ops.add_sync_log env job_id "INFO"
        ("Sync completed: " +:+ pretty (processed_count acc)
         +:+ " processed, " +:+ pretty (failed_count acc) +:+ " failed")
        None;
  ret {| sync_job_id := job_id; sync_status := "completed";
         sync_summary :=
           Some {| summary_total_notes := total_notes;
                   summary_processed_notes := processed_count acc;
                   summary_failed_notes := failed_count acc |};
         sync_error := None |}.

(** From [total_notes = len(notes)] on: record the total, steps 4 to 6 (the
    note loop), step 7. *)
Definition sync_notes (job_id : UUID) (user_id : string)
    (credentials : CredentialsDict.t) (notes : list Note.t) : M SyncResult :=
  let total_notes := Z.of_nat (length notes) in
  run db_ops.update_sync_job job_id
        (JobUpdate.mk None (Some total_notes) None None None None);
  run db_ops.add_sync_log env job_id "INFO"
        ("Fetched " +:+ pretty total_notes +:+ " notes from Keep") None;
  do acc <-
    process_notes job_id user_id
      (CredentialsDict.notion_api_token credentials)
      (CredentialsDict.notion_database_id credentials) notes
      {| processed_count := 0; failed_count := 0; results := [] |};
  complete_job job_id total_notes acc.

(** Steps 2 and 3, then the rest. *)
Definition fetch_and_sync (job_id : UUID) (user_id : string)
    (full_sync : bool) (credentials : CredentialsDict.t) : M SyncResult :=
  do modified_since <- determine_modified_since user_id full_sync;
  run db_ops.add_sync_log env job_id "INFO"
        ("Fetching notes from Keep (modified_since="
         +:+ format_optional modified_since +:+ ")") None;
  do notes <-
    _fetch_notes_from_keep user_id
      (CredentialsDict.google_oauth_token credentials) modified_since;
  sync_notes job_id user_id credentials notes.

(** The body of the [try]: step 1, then one of the two branches. *)
Definition execute_sync_try (job_id : UUID) (user_id : string)
    (full_sync : bool) : M SyncResult :=
  do credentials <- db_ops.get_credentials env user_id;
  match credentials with
  | None => fail_missing_credentials job_id user_id
  | Some credentials => fetch_and_sync job_id user_id full_sync credentials
  end.

(** The top-level [except Exception as e]. *)
Definition execute_sync_except (job_id : UUID) (user_id : string)
    (full_sync : bool) (e : exn) : M SyncResult :=
  let error_msg := str e in
  do t <- now env;
  run db_ops.update_sync_job job_id
        (JobUpdate.mk (Some "failed") None None None (Some error_msg) (Some t));
  run db_ops.add_sync_log env job_id "ERROR" ("Sync failed: " +:+ error_msg)
        None;
  run NotificationService.send_critical_error_notification env
        (NotificationService.init env) job_id user_id error_msg
        [("stage", CtxStr "sync_execution"); ("full_sync", CtxBool full_sync)];
  ret {| sync_job_id := job_id; sync_status := "failed";
         sync_summary := None; sync_error := Some error_msg |}.

Definition execute_sync_body (job_id : UUID) (user_id : string)
    (full_sync : bool) : M SyncResult :=
  try_except (execute_sync_try job_id user_id full_sync)
    (execute_sync_except job_id user_id full_sync).

Definition execute_sync (job_id : UUID) (user_id : string) (full_sync : bool)
  : M SyncResult :=
  run execute_sync_start job_id user_id full_sync;
  execute_sync_body job_id user_id full_sync.

End Orchestrator.
End SyncOrchestrator.

(** ** services/sync_service/main.py: the abort endpoint *)
Module SyncService.

Record AbortSyncResponse := {
  abort_job_id : string;
  abort_status : string;
  abort_message : string
}.

(** The statuses [abort_sync] refuses. *)
Definition terminal_statuses : list string :=
  ["completed"; "failed"; "cancelled"].

Definition abort_sync (env : Env) (job_id : string) : M AbortSyncResponse :=
  match uuid_of_str env job_id with
  | None => raise (HTTPException 400 "Invalid job_id format")
  | Some job_uuid =>
      do sync_job <- db_ops.get_sync_job job_uuid;
      match sync_job with
      | None =>
          raise (HTTPException 404 ("Sync job " +:+ job_id +:+ " not found"))
      | Some sync_job =>
          if decide (SyncJob.status sync_job ∈ terminal_statuses)
          then raise (HTTPException 400
                        ("Cannot abort job with status '"
                         +:+ SyncJob.status sync_job +:+ "'"))
          else
            do t <- now env;
            run db_ops.update_sync_job job_uuid
                  (JobUpdate.mk (Some "cancelled") None None None
                     (Some "Job cancelled by user") (Some t));
            run db_ops.add_sync_log env job_uuid "WARNING"
                  "Sync job cancelled by user" None;
            ret {| abort_job_id := job_id; abort_status := "cancelled";
                   abort_message := "Sync job has been cancelled" |}
      end
  end.

End SyncService.

(** ** A concrete environment

    Used to run the embedding on explicit inputs.  The clock ticks once per
    reading; the cipher is the identity; the Keep extractor authenticates
    everybody and returns the body [keep_body]; the Notion writer fails with
    a 500 for the payloads [sink_fails] selects and otherwise answers as the
    real one does, with the page id (derived from the title on creation). *)
Definition sample_cipher : EncryptionService :=
  {| cipher_encrypt := λ s, s; cipher_decrypt := λ s, Ok s |}.

Definition sample_isoformat (d : datetime) : string := "T" +:+ pretty d.

Definition sample_fromisoformat (s : string) : option datetime :=
  if decide (s = "2024-01-01T10:00:00+00:00") then Some 1704103200
  else if decide (s = "2024-01-02T10:00:00+00:00") then Some 1704189600
  else None.

Definition sample_env (keep_body : option NotesData)
    (sink_fails : NotePayload.t → bool) : Env :=
  {| utcnow := λ k, 1000 + Z.of_nat k;
     getenv := λ _, None;
     encryption_service := sample_cipher;
     keep_client_post := λ _ _,
       Ok {| status_code := 200; text := "";
             json := Some {| auth_status := Some "authenticated";
                             auth_error := None |} |};
     keep_client_get := λ _ _,
       Ok {| status_code := 200; text := ""; json := keep_body |};
     notion_client_post := λ _ req,
       if sink_fails (create_note req)
       then Ok {| status_code := 500; text := "writer error"; json := None |}
       else Ok {| status_code := 201; text := "";
                  json := Some {| page_id :=
                    Some ("page-" +:+ NotePayload.title (create_note req)) |} |};
     notion_client_patch := λ _ page req,
       if sink_fails (update_note req)
       then Ok {| status_code := 500; text := "writer error"; json := None |}
       else Ok {| status_code := 200; text := "";
                  json := Some {| page_id := Some page |} |};
     webhook_post := λ _ _, Ok tt;
     isoformat := sample_isoformat;
     isoformat_nonempty := λ d, ltac:(unfold sample_isoformat; simpl; discriminate);
     fromisoformat := sample_fromisoformat;
     int_of_str := λ _, None;
     uuid_of_str := λ s, Some s |}.

Definition sample_note (id title : string) (modified_at : option string)
  : Note.t :=
  Note.mk (Some id) (Some title) (Some "body") (Some "2024-01-01T10:00:00Z")
    modified_at (Some ["work"]) (Some []).

(** A store holding credentials for [alice] and nothing else. *)
Definition alice_store : Store :=
  fst (DatabaseOperations.store_credentials 500 "alice" "google-token"
         "notion-token" "database-1" sample_cipher empty_store).

Definition world_of (db : Store) : World :=
  {| store := db; clock := 0; trace := [] |}.

(** A job of [alice] in each lifecycle state. *)
Definition queued_job : SyncJob.t :=
  SyncJob.mk "job-1" "alice" "queued" true 0 0 0 None 600 None.

Definition running_job : SyncJob.t :=
  SyncJob.mk "job-1" "alice" "running" true 0 0 0 None 600 None.

Definition completed_job : SyncJob.t :=
  SyncJob.mk "job-1" "alice" "completed" true 0 0 0 None 600 (Some 700).

Definition store_with_job (j : SyncJob.t) : Store :=
  with_sync_jobs alice_store (<[SyncJob.job_id j := j]> (sync_jobs alice_store)).

(** An environment whose Keep extractor returns no notes. *)
Definition quiet_env : Env := sample_env (Some {| notes := Some [] |}) (λ _, false).

(** ** Vocabulary of the properties *)

(** [needle in haystack] *)
Definition contains (needle haystack : string) : Prop :=
  ∃ pre post, haystack = pre +:+ needle +:+ post.

(** The columns of the unique index [idx_sync_state_user_note]. *)
Definition note_key (r : SyncState.t) : string * string :=
  (SyncState.user_id r, SyncState.keep_note_id r).

Definition unique_sync_state (db : Store) : Prop :=
  NoDup (note_key <$> sync_state db).

(** The rows of [sync_state] for one (user, note) pair. *)
Definition rows_of (user_id keep_note_id : string) (db : Store)
  : list SyncState.t :=
  filter (DatabaseOperations.same_note user_id keep_note_id) (sync_state db).



(** Every method of [DatabaseOperations] that writes, with its arguments. *)
Inductive StoreOp :=
| OpUpsertSyncState (now_values now_set : datetime)
    (user_id keep_note_id notion_page_id : string) (keep_modified_at : datetime)
| OpDeleteSyncState (user_id : string) (keep_note_id : option string)
| OpStoreCredentials (now : datetime)
    (user_id google_oauth_token notion_api_token notion_database_id : string)
    (encryption_service : EncryptionService)
| OpDeleteCredentials (user_id : string)
| OpCreateSyncJob (now : datetime) (job_id : UUID) (user_id : string)
    (full_sync : bool)
| OpUpdateSyncJob (job_id : UUID) (u : JobUpdate.t)
| OpIncrementSyncJobProgress (job_id : UUID) (processed failed : option Z)
| OpAddSyncLog (now : datetime) (job_id : UUID) (level message : string)
    (keep_note_id : option string).

Definition apply_op (op : StoreOp) (db : Store) : Store :=
  match op with
  | OpUpsertSyncState t1 t2 u n p m =>
      fst (DatabaseOperations.upsert_sync_state t1 t2 u n p m db)
  | OpDeleteSyncState u n => fst (DatabaseOperations.delete_sync_state u n db)
  | OpStoreCredentials t u g n d svc =>
      fst (DatabaseOperations.store_credentials t u g n d svc db)
  | OpDeleteCredentials u => fst (DatabaseOperations.delete_credentials u db)
  | OpCreateSyncJob t j u f =>
      fst (DatabaseOperations.create_sync_job t j u f db)
  | OpUpdateSyncJob j u => fst (DatabaseOperations.update_sync_job j u db)
  | OpIncrementSyncJobProgress j p f =>
      fst (DatabaseOperations.increment_sync_job_progress j p f db)
  | OpAddSyncLog t j l m n =>
      fst (DatabaseOperations.add_sync_log t j l m n db)
  end.


Definition is_sink_call (ev : Event) : bool :=
  match ev with
  | NotionPost _ | NotionPatch _ _ => true
  | _ => false
  end.


(** The status a store call asks to write on the job, if any: the INSERT of
    [create_sync_job] writes [queued], [update_sync_job] writes its [status]
    argument when given. *)
Definition status_write (job_id : UUID) (ev : Event) : option string :=
  match ev with
  | Db (CreateSyncJob j _ _) =>
      if decide (j = job_id) then Some "queued" else None
  | Db (UpdateSyncJob j u) =>
      if decide (j = job_id) then JobUpdate.status u else None
  | _ => None
  end.


(** The (user, note) pair of an [upsert_sync_state] call. *)
Definition upserted_note (ev : Event) : option (string * string) :=
  match ev with
  | Db (UpsertSyncState u n _ _) => Some (u, n)
  | _ => None
  end.

(** The [modified_since] parameter of a notes request. *)
Definition fetch_lower_bound (ev : Event) : option (option string) :=
  match ev with
  | KeepGet params => Some (params_modified_since params)
  | _ => None
  end.

(** Relations between the world before and after a computation.
    [extends ok]: the call log grew by events satisfying [ok].
    [job_kept job_id]: the job row, if there, is still there.
    [jobs_same]: the tables [sync_jobs] and [credentials] are as before. *)
Definition extends (ok : Event → Prop) (w w' : World) : Prop :=
  ∃ evs, trace w' = trace w ++ evs ∧ Forall ok evs.

Definition job_kept (job_id : UUID) (w w' : World) : Prop :=
  is_Some (sync_jobs (store w) !! job_id) →
  is_Some (sync_jobs (store w') !! job_id).

Definition jobs_same (w w' : World) : Prop :=
  sync_jobs (store w') = sync_jobs (store w)
  ∧ credentials (store w') = credentials (store w).

(** [stable R m]: from any world, [m] ends in a world related by [R],
    whether it returns or raises. *)
Definition stable (R : World → World → Prop) {A} (m : M A) : Prop :=
  ∀ w, R w (m w).1.

Definition benign (job_id : UUID) (ev : Event) : Prop :=
  status_write job_id ev = None.



Definition completed_update (t : datetime) : JobUpdate.t :=
  JobUpdate.mk (Some "completed") None None None None (Some t).

(** The job row once [execute_sync] has started: created at [t], running. *)
Definition started_job (t : datetime) (job_id : UUID) (user_id : string)
    (full_sync : bool) : SyncJob.t :=
  SyncJob.mk job_id user_id "running" full_sync 0 0 0 None t None.

Definition running_update : JobUpdate.t :=
  JobUpdate.mk (Some "running") None None None None None.

(** A note dictionary that lacks the ['id'] key, and a Keep extractor that
    returns just that note. *)
Definition note_without_id : Note.t :=
  Note.mk None (Some "untitled") (Some "body") (Some "2024-01-01T10:00:00Z")
    (Some "2024-01-01T10:00:00Z") (Some []) (Some []).

Definition env_note_without_id : Env :=
  sample_env (Some {| notes := Some [note_without_id] |}) (λ _, false).


(** Assumptions on the Keep extractor used by the properties of a run in
    which the fetch goes through: it authenticates every request, and it
    answers every notes request with status 200 and the JSON body [body]. *)
Definition keep_authenticates (env : Env) : Prop :=
  ∀ h req, ∃ resp data,
    keep_client_post env h req = Ok resp
    ∧ status_code resp = 200
    ∧ json resp = Some data
    ∧ auth_status data = Some "authenticated".

Definition keep_returns (env : Env) (body : NotesData) : Prop :=
  ∀ h params, ∃ resp,
    keep_client_get env h params = Ok resp
    ∧ status_code resp = 200
    ∧ json resp = Some body.

(** The value [execute_sync] computes for [modified_since] (step 2). *)
Definition modified_since_of (env : Env) (user_id : string) (full_sync : bool)
    (db : Store) : option string :=
  if full_sync then None
  else match SyncState.last_synced_at
             <$> DatabaseOperations.get_sync_state_by_user user_id db with
       | [] => None
       | t :: ts => Some (isoformat env (SyncOrchestrator.py_max t ts))
       end.

(** The store calls of step 2. *)
Definition window_events (user_id : string) (full_sync : bool) : list Event :=
  if full_sync then [] else [Db (GetSyncStateByUser user_id)].

(** The two requests of [_fetch_notes_from_keep]. *)
Definition fetch_events (env : Env) (username google_token : string)
    (modified_since : option string) : list Event :=
  [KeepPost {| auth_username := username; auth_master_token := google_token |};
   KeepGet {| params_username := username;
              params_upload_images := true;
              params_modified_since := truthy modified_since;
              params_limit := SyncOrchestrator.note_limit env |}].

(** The calls of a run up to and including the fetch, when credentials are
    found and the fetch goes through. *)
Definition prefix_events (env : Env) (db : Store) (job_id : UUID)
    (user_id : string) (full_sync : bool) (creds : CredentialsDict.t)
  : list Event :=
  let modified_since := modified_since_of env user_id full_sync db in
  [Db (CreateSyncJob job_id user_id full_sync);
   Db (UpdateSyncJob job_id running_update);
   Db (AddSyncLog job_id "INFO" ("Starting sync for user " +:+ user_id) None);
   Db (GetCredentials user_id)]
  ++ window_events user_id full_sync
  ++ [Db (AddSyncLog job_id "INFO"
            ("Fetching notes from Keep (modified_since="
             +:+ format_optional modified_since +:+ ")") None)]
  ++ fetch_events env user_id (CredentialsDict.google_oauth_token creds)
       modified_since.

(** The credentials [get_credentials] returns for [alice]. *)
Definition alice_credentials : CredentialsDict.t :=
  CredentialsDict.mk "alice" "google-token" "notion-token" "database-1" 500.

(** A Keep extractor whose notes response lacks the ['notes'] key. *)
Definition env_no_notes_key : Env :=
  sample_env (Some {| notes := None |}) (λ _, false).

(** The calls the note loop can make. *)
Definition is_loop_event (ev : Event) : Prop :=
  match ev with
  | NotionPost _ | NotionPatch _ _ => True
  | Db (GetSyncRecord _ _) | Db (UpsertSyncState _ _ _ _)
  | Db (AddSyncLog _ _ _ _) | Db (IncrementSyncJobProgress _ _ _) => True
  | _ => False
  end.

(** Not a notes request. *)
Definition no_fetch (ev : Event) : Prop := fetch_lower_bound ev = None.

(** [T] is the latest of [times]. *)
Definition is_latest (T : datetime) (times : list datetime) : Prop :=
  T ∈ times ∧ ∀ t, t ∈ times → (t ≤ T)%Z.

(** [alice_store] after two notes of [alice] have been synced. *)
Definition alice_synced_store : Store :=
  (DatabaseOperations.upsert_sync_state 300 301 "alice" "n2" "page-2" 60
     (DatabaseOperations.upsert_sync_state 200 201 "alice" "n1" "page-1" 50
        alice_store).1).1.


(** ** The Notion writer as the note loop sees it *)

(** The page id [_process_note] takes from a response: the response has the
    expected status (200 for an update, 201 for a creation) and a JSON body
    with the key ['page_id'].  [None] is a failed sink call: a transport
    error, another status, a body that is not JSON or lacks the key. *)
Definition accepted_page (expected : Z) (r : result (Response PageData))
  : option string :=
  match r with
  | Ok resp =>
      if decide (status_code resp = expected)
      then match json resp with
           | Some body => page_id body
           | None => None
           end
      else None
  | Raise _ => None
  end.

(** The ["note"] object of the sink request for a note, when the note has
    the five keys it is built from. *)
Definition payload_of (note : Note.t) : option NotePayload.t :=
  match Note.title note, Note.content note, Note.created_at note,
        Note.labels note, Note.images note with
  | Some title, Some content, Some created_at, Some labels, Some images =>
      Some (NotePayload.mk title content created_at labels images)
  | _, _, _, _, _ => None
  end.

(** Its [modified_at] is there and [fromisoformat] reads it. *)
Definition modified_at_parses (env : Env) (note : Note.t) : Prop :=
  ∃ s, Note.modified_at note = Some s
       ∧ is_Some (fromisoformat env (replace_Z s)).

(** The key of the [SyncState] row of a note of [user_id]. *)
Definition state_key (user_id : string) (note : Note.t) : string * string :=
  (user_id, default "" (Note.id note)).

(** [db'] has the [sync_state] table of [db] after one upsert for the pair. *)
Definition upserted_from (user_id keep_note_id : string) (db db' : Store)
  : Prop :=
  ∃ t1 t2 page modified,
    sync_state db'
    = sync_state (DatabaseOperations.upsert_sync_state t1 t2 user_id
                    keep_note_id page modified db).1.

(** ** What the columns of the store can hold

    [String(255)] columns ([user_id], [keep_note_id], [notion_page_id])
    reject longer values, and no PostgreSQL text holds the character NUL.
    The store methods above do not check this; the properties of the note
    loop assume it of the values the run writes. *)
Fixpoint no_nul (s : string) : bool :=
  match s with
  | "" => true
  | String c s' => negb (bool_decide (c = "000"%char)) && no_nul s'
  end.

Definition storable (s : string) : Prop := no_nul s = true.

Definition fits_column (limit : nat) (s : string) : Prop :=
  (String.length s ≤ limit)%nat ∧ storable s.

(** Every page id in [sync_state] fits its column. *)
Definition pages_fit (db : Store) : Prop :=
  Forall (λ r, fits_column 255 (SyncState.notion_page_id r)) (sync_state db).

(** The rows of [sync_state] whose two key columns hold the pair. *)
Definition stored_rows (user_id keep_note_id : string) (db : Store)
  : list SyncState.t :=
  filter (λ r, SyncState.user_id r = user_id
               ∧ SyncState.keep_note_id r = keep_note_id) (sync_state db).

(** ** Vocabulary of partial failure *)

(** What an answer of the writer puts into the store: the page id when the
    page is accepted, the failure text (which goes into the log message)
    otherwise. *)
Definition answer_storable (expected : Z) (r : result (Response PageData))
  : Prop :=
  match accepted_page expected r with
  | Some page => fits_column 255 page
  | None =>
      match r with
      | Ok resp => storable (text resp)
      | Raise e => storable (str e)
      end
  end.

(** Every answer of the writer can be stored, whenever it is asked and
    whatever for; an update is asked for a page id taken from the store. *)
Definition writer_answers_fit (env : Env) : Prop :=
  (∀ h req, answer_storable 201 (notion_client_post env h req))
  ∧ (∀ h page req,
       fits_column 255 page →
       answer_storable 200 (notion_client_patch env h page req)).

(** The ["note"] object a request to the writer carries. *)
Definition request_note (ev : Event) : option NotePayload.t :=
  match ev with
  | NotionPost req => Some (create_note req)
  | NotionPatch _ req => Some (update_note req)
  | _ => None
  end.

(** Whether the request [ev], made after the calls [h], failed: the writer
    did not answer with an accepted page.  [None] for a call that is not a
    request to the writer. *)
Definition sink_failed (env : Env) (h : list Event) (ev : Event)
  : option bool :=
  match ev with
  | NotionPost req =>
      Some (bool_decide
              (accepted_page 201 (notion_client_post env h req) = None))
  | NotionPatch page req =>
      Some (bool_decide
              (accepted_page 200 (notion_client_patch env h page req) = None))
  | _ => None
  end.

(** The outcomes of the requests to the writer among the calls [evs] made
    after [h], in order: [true] is a failed request. *)
Fixpoint sink_outcomes (env : Env) (h evs : list Event) : list bool :=
  match evs with
  | [] => []
  | ev :: rest =>
      option_list (sink_failed env h ev) ++ sink_outcomes env (h ++ [ev]) rest
  end.

(** The notes of a batch whose request had the outcome [failed], in order;
    [outcomes] lists the outcomes note by note. *)
Fixpoint notes_with (failed : bool) (outcomes : list bool)
    (notes : list Note.t) : list Note.t :=
  match outcomes, notes with
  | outcome :: outcomes', note :: notes' =>
      if bool_decide (outcome = failed)
      then note :: notes_with failed outcomes' notes'
      else notes_with failed outcomes' notes'
  | _, _ => []
  end.

(** The subset F of the batch, and the rest. *)
Definition failed_notes_of (outcomes : list bool) (notes : list Note.t)
  : list Note.t :=
  notes_with true outcomes notes.

Definition succeeded_notes_of (outcomes : list bool) (notes : list Note.t)
  : list Note.t :=
  notes_with false outcomes notes.

(** A note record as the note source returns it: the seven keys are there,
    the id fits its column, and [modified_at] is an ISO string that
    [fromisoformat] reads. *)
Definition note_record (env : Env) (note : Note.t) : Prop :=
  (∃ id, Note.id note = Some id ∧ fits_column 255 id)
  ∧ is_Some (payload_of note)
  ∧ modified_at_parses env note.

(** Two notes, and a Notion writer whose [post] fails the first time it is
    called and accepts the page every time after. *)
Definition two_notes : list Note.t :=
  [sample_note "n1" "groceries" (Some "2024-01-01T10:00:00Z");
   sample_note "n2" "drafts" (Some "2024-01-02T10:00:00Z")].

Definition is_post (ev : Event) : bool :=
  match ev with
  | NotionPost _ => true
  | _ => false
  end.

Definition env_first_post_fails : Env :=
  {| utcnow := utcnow quiet_env;
     getenv := getenv quiet_env;
     encryption_service := encryption_service quiet_env;
     keep_client_post := keep_client_post quiet_env;
     keep_client_get := λ _ _,
       Ok {| status_code := 200; text := "";
             json := Some {| notes := Some two_notes |} |};
     notion_client_post := λ h req,
       if decide (filter is_post h = [])
       then Ok {| status_code := 500; text := "writer error"; json := None |}
       else Ok {| status_code := 201; text := "";
                  json := Some {| page_id := Some "page-2" |} |};
     notion_client_patch := λ _ page _,
       Ok {| status_code := 200; text := "";
             json := Some {| page_id := Some page |} |};
     webhook_post := webhook_post quiet_env;
     isoformat := isoformat quiet_env;
     isoformat_nonempty := isoformat_nonempty quiet_env;
     fromisoformat := fromisoformat quiet_env;
     int_of_str := int_of_str quiet_env;
     uuid_of_str := uuid_of_str quiet_env |}.

(** ** Vocabulary of the store properties *)


(** The columns of a job no method writes after the INSERT. *)
Definition same_identity (j j' : SyncJob.t) : Prop :=
  SyncJob.job_id j' = SyncJob.job_id j
  ∧ SyncJob.user_id j' = SyncJob.user_id j
  ∧ SyncJob.full_sync j' = SyncJob.full_sync j
  ∧ SyncJob.created_at j' = SyncJob.created_at j.

(** A sequence of calls of the writing methods, in order. *)
Definition run_ops (ops : list StoreOp) (db : Store) : Store :=
  foldl (λ db op, apply_op op db) db ops.

(** The foreign key of [sync_logs]: every log row names a job that exists. *)
Definition logs_reference_jobs (db : Store) : Prop :=
  ∀ log, log ∈ sync_logs db → is_Some (sync_jobs db !! SyncLog.job_id log).

(** Some calls on a store that holds [job-1]. *)
Definition sample_ops : list StoreOp :=
  [OpUpdateSyncJob "job-1"
     (JobUpdate.mk (Some "running") (Some 3) None None None None);
   OpIncrementSyncJobProgress "job-1" None (Some 1);
   OpCreateSyncJob 700 "job-1" "mallory" false;
   OpAddSyncLog 701 "job-1" "INFO" "one note done" (Some "n1");
   OpAddSyncLog 702 "job-9" "INFO" "no such job" None;
   OpDeleteCredentials "alice";
   OpDeleteSyncState "alice" None].

(** ** Vocabulary of the failure paths of a run *)










(** [returns P m]: whenever [m] returns, what it returns satisfies [P]. *)
Definition returns {A} (P : A → Prop) (m : M A) : Prop :=
  ∀ w, match (m w).2 with
       | Ok a => P a
       | Raise _ => True
       end.

(** What the run writes of a note can be stored: its id, when it has one,
    fits the [keep_note_id] column, and its [modified_at], which an error
    message may quote, holds no NUL. *)
Definition note_storable (note : Note.t) : Prop :=
  (∀ id, Note.id note = Some id → fits_column 255 id)
  ∧ (∀ s, Note.modified_at note = Some s → storable s).

(** A Notion writer that cannot be reached, and a batch in which one note
    has no id and one has no title. *)
Definition odd_notes : list Note.t :=
  [sample_note "n1" "groceries" (Some "2024-01-01T10:00:00Z");
   note_without_id;
   Note.mk (Some "n3") None (Some "body") (Some "2024-01-01T10:00:00Z")
     (Some "2024-01-01T10:00:00Z") (Some []) (Some [])].

Definition env_notion_down : Env :=
  {| utcnow := utcnow quiet_env;
     getenv := getenv quiet_env;
     encryption_service := encryption_service quiet_env;
     keep_client_post := keep_client_post quiet_env;
     keep_client_get := λ _ _,
       Ok {| status_code := 200; text := "";
             json := Some {| notes := Some odd_notes |} |};
     notion_client_post := λ _ _, Raise (RequestError "Connection refused");
     notion_client_patch := λ _ _ _, Raise (RequestError "Connection refused");
     webhook_post := webhook_post quiet_env;
     isoformat := isoformat quiet_env;
     isoformat_nonempty := isoformat_nonempty quiet_env;
     fromisoformat := fromisoformat quiet_env;
     int_of_str := int_of_str quiet_env;
     uuid_of_str := uuid_of_str quiet_env |}.

(** ** services/sync_service/main.py: the status endpoint *)
Module SyncStatus.

(** [SyncStatusResponse], the [progress] dictionary flattened. *)
Record SyncStatusResponse := {
  job_id : string;
  status : string;
  progress_total_notes : Z;
  progress_processed_notes : Z;
  progress_failed_notes : Z;
  created_at : string;
  completed_at : option string;
  error_message : option string
}.

Definition get_sync_status (env : Env) (job_id : string)
  : M SyncStatusResponse :=
  match uuid_of_str env job_id with
  | None => raise (HTTPException 400 "Invalid job_id format")
  | Some job_uuid =>
      do sync_job <- db_ops.get_sync_job job_uuid;
      match sync_job with
      | None =>
          raise (HTTPException 404 ("Sync job " +:+ job_id +:+ " not found"))
      | Some sync_job =>
          ret {| job_id := SyncJob.job_id sync_job;
                 status := SyncJob.status sync_job;
                 progress_total_notes := SyncJob.total_notes sync_job;
                 progress_processed_notes := SyncJob.processed_notes sync_job;
                 progress_failed_notes := SyncJob.failed_notes sync_job;
                 created_at := isoformat env (SyncJob.created_at sync_job);
                 completed_at :=
                   isoformat env <$> SyncJob.completed_at sync_job;
                 error_message := SyncJob.error_message sync_job |}
      end
  end.

End SyncStatus.

(** The webhook posts in a call log. *)
Definition is_webhook_post (ev : Event) : bool :=
  match ev with
  | WebhookPost _ _ _ _ _ => true
  | _ => false
  end.

(** An environment with notifications enabled whose webhook is down. *)
Definition env_webhook_down : Env :=
  {| utcnow := utcnow quiet_env;
     getenv := λ key,
       if decide (key = "ENABLE_NOTIFICATIONS") then Some "True"
       else if decide (key = "NOTIFICATION_WEBHOOK_URL")
            then Some "https://hooks.example/alerts"
            else None;
     encryption_service := encryption_service quiet_env;
     keep_client_post := keep_client_post quiet_env;
     keep_client_get := keep_client_get quiet_env;
     notion_client_post := notion_client_post quiet_env;
     notion_client_patch := notion_client_patch quiet_env;
     webhook_post := λ _ _, Raise (RequestError "Connection refused");
     isoformat := isoformat quiet_env;
     isoformat_nonempty := isoformat_nonempty quiet_env;
     fromisoformat := fromisoformat quiet_env;
     int_of_str := int_of_str quiet_env;
     uuid_of_str := uuid_of_str quiet_env |}.

(** ** shared/db_operations.py: the listing queries

    The three [SELECT ... ORDER BY created_at ... LIMIT ...] methods.  SQL
    leaves the order of rows with equal [created_at] to the database, so
    the ordering is an argument: [newest_first] (resp. [oldest_first])
    stands for what the database does with [ORDER BY created_at DESC]
    (resp. [ASC]); the properties assume of it only that it permutes the
    rows and sorts them.  A negative LIMIT or OFFSET is rejected by
    PostgreSQL and surfaces as an exception. *)
Module DatabaseReads.

(** [.limit(limit).offset(offset)] on the ordered rows. *)
Definition paginate {A} (limit offset : Z) (rows : list A) : result (list A) :=
  if decide (limit < 0) then Raise (Exception "LIMIT must not be negative")
  else if decide (offset < 0)
       then Raise (Exception "OFFSET must not be negative")
       else Ok (take (Z.to_nat limit) (drop (Z.to_nat offset) rows)).

(** The rows of the table [sync_jobs]. *)
Definition all_sync_jobs (db : Store) : list SyncJob.t :=
  snd <$> map_to_list (sync_jobs db).

Definition get_sync_jobs_by_user
    (newest_first : list SyncJob.t → list SyncJob.t)
    (user_id : string) (limit offset : option Z) (db : Store)
  : result (list SyncJob.t) :=
  paginate (given 50 limit) (given 0 offset)
    (newest_first
       (filter (λ j, SyncJob.user_id j = user_id) (all_sync_jobs db))).

(** The rows [get_sync_jobs] selects: [if user_id:] skips the filter for
    [None] and for the empty string. *)
Definition jobs_matching (user_id : option string) (db : Store)
  : list SyncJob.t :=
  match truthy user_id with
  | Some u => filter (λ j, SyncJob.user_id j = u) (all_sync_jobs db)
  | None => all_sync_jobs db
  end.

(** Returns the page and the total count; the count is taken first. *)
Definition get_sync_jobs (newest_first : list SyncJob.t → list SyncJob.t)
    (user_id : option string) (limit offset : option Z) (db : Store)
  : result (list SyncJob.t * Z) :=
  let total_count := Z.of_nat (length (jobs_matching user_id db)) in
  match paginate (given 50 limit) (given 0 offset)
          (newest_first (jobs_matching user_id db)) with
  | Ok jobs => Ok (jobs, total_count)
  | Raise e => Raise e
  end.


End DatabaseReads.

(** ** More Python string methods *)

(** [s.split(sep)] for a one-character separator: never empty, the empty
    string gives one empty part. *)
Fixpoint split_on (sep : ascii) (s : string) : list string :=
  match s with
  | "" => [""]
  | String c s' =>
      if decide (c = sep) then "" :: split_on sep s'
      else match split_on sep s' with
           | part :: parts => String c part :: parts
           | [] => [String c ""]
           end
  end.

Fixpoint lstrip (s : string) : string :=
  match s with
  | "" => ""
  | String c s' => if is_space c then lstrip s' else s
  end.

Fixpoint rstrip (s : string) : string :=
  match s with
  | "" => ""
  | String c s' =>
      if is_space c && bool_decide (rstrip s' = "") then ""
      else String c (rstrip s')
  end.

(** [s.strip()] *)
Definition strip (s : string) : string := rstrip (lstrip s).

(** The characters of a string. *)
Fixpoint chars (s : string) : list ascii :=
  match s with
  | "" => []
  | String c s' => c :: chars s'
  end.

(** ** services/api_gateway/main.py: API keys, history and start *)
Module ApiGateway.

Record SyncJobSummary := {
  job_id : string;
  user_id : string;
  status : string;
  full_sync : bool;
  total_notes : Z;
  processed_notes : Z;
  failed_notes : Z;
  created_at : string;
  completed_at : option string;
  error_message : option string
}.

Record SyncHistoryResponse := {
  jobs : list SyncJobSummary;
  total : Z;
  limit : Z;
  offset : Z
}.

Definition summary_of (env : Env) (job : SyncJob.t) : SyncJobSummary :=
  {| job_id := SyncJob.job_id job;
     user_id := SyncJob.user_id job;
     status := SyncJob.status job;
     full_sync := SyncJob.full_sync job;
     total_notes := SyncJob.total_notes job;
     processed_notes := SyncJob.processed_notes job;
     failed_notes := SyncJob.failed_notes job;
     created_at := isoformat env (SyncJob.created_at job);
     completed_at := isoformat env <$> SyncJob.completed_at job;
     error_message := SyncJob.error_message job |}.

(** [get_sync_history(user_id=None, limit=50, offset=0)], after the API key
    has been verified.  The pagination parameters are checked before the
    store is queried; any exception of the query becomes a 500. *)
Definition get_sync_history (env : Env)
    (newest_first : list SyncJob.t → list SyncJob.t)
    (user_id : option string) (limit offset : option Z) (db : Store)
  : result SyncHistoryResponse :=
  let limit := given 50 limit in
  let offset := given 0 offset in
  if decide (limit < 1 ∨ limit > 100)
  then Raise (HTTPException 400
                ("Invalid limit: " +:+ pretty limit
                 +:+ ". Must be between 1 and 100."))
  else if decide (offset < 0)
  then Raise (HTTPException 400
                ("Invalid offset: " +:+ pretty offset
                 +:+ ". Must be non-negative (>= 0)."))
  else
    match DatabaseReads.get_sync_jobs newest_first user_id (Some limit)
            (Some offset) db with
    | Ok (jobs, total_count) =>
        Ok {| jobs := summary_of env <$> jobs; total := total_count;
              limit := limit; offset := offset |}
    | Raise _ =>
        Raise (HTTPException 500
                 "Failed to retrieve sync history from database. Please try again later.")
    end.

(** *** The start endpoint *)

(** What [sync_client.post] can do, as [start_sync] tells it apart: a
    response, [httpx.TimeoutException], or another [httpx.RequestError]. *)
Inductive ForwardOutcome :=
| Responded (status_code : Z) (text : string)
| TimedOut
| Unreachable (e : exn).

Record SyncStartResponse := {
  start_job_id : string;
  start_status : string;
  start_created_at : string
}.

(** The update both failure branches make. *)
Definition mark_failed (new_id : UUID) (message : string)
  : M (option SyncJob.t) :=
  db_ops.update_sync_job new_id
    (JobUpdate.mk (Some "failed") None None None (Some message) None).

(** [start_sync], after the API key has been verified.  [uuid4] is the
    identifier [uuid4()] draws and [forward] what the request to the sync
    service does.  The 502 raised inside the [try] is an [HTTPException],
    which neither [except] clause catches. *)
Definition start_sync (env : Env) (uuid4 : UUID) (forward : ForwardOutcome)
    (request_user_id : string) (request_full_sync : bool)
  : M SyncStartResponse :=
  if bool_decide (request_user_id = "") || negb (strip_truthy request_user_id)
  then raise (HTTPException 400 "user_id is required and cannot be empty")
  else
    do created <- now env;
    do sync_job <-
      try_except
        (db_ops.create_sync_job env uuid4 request_user_id request_full_sync)
        (λ e, raise (HTTPException 500
                       ("Failed to create sync job in database: " +:+ str e)));
    run match forward with
        | Responded code body =>
            if decide (code ≠ 200)
            then
              run mark_failed uuid4 ("Sync Service error: " +:+ body);
              raise (HTTPException 502
                       ("Sync Service returned error (status " +:+ pretty code
                        +:+ "). Please try again later."))
            else ret tt
        | TimedOut => ret tt
        | Unreachable e =>
            run mark_failed uuid4
                  ("Failed to connect to Sync Service: " +:+ str e);
            raise (HTTPException 503
                     "Sync Service is currently unavailable. Please try again later.")
        end;
    ret {| start_job_id := uuid4;
           start_status := SyncJob.status sync_job;
           start_created_at := isoformat env created |}.

(** *** API keys *)

(** [get_api_keys]: the comma-separated entries of [API_KEYS], stripped,
    the blank ones dropped; the development key when the variable is not
    set. *)
Definition get_api_keys (env : Env) : gset string :=
  list_to_set
    (filter (λ key, key ≠ "")
       (strip <$> split_on ","
                    (given "dev-api-key-12345" (getenv env "API_KEYS")))).

(** [verify_api_key] against [VALID_API_KEYS = get_api_keys()].  The
    [WWW-Authenticate] header of the 401 is left out. *)
Definition verify_api_key (env : Env) (x_api_key : option string)
  : result string :=
  match truthy x_api_key with
  | None =>
      Raise (HTTPException 401
               "Missing API key. Please provide X-API-Key header.")
  | Some key =>
      if decide (key ∈ get_api_keys env) then Ok key
      else Raise (HTTPException 401 "Invalid API key")
  end.

End ApiGateway.

(** ** Vocabulary of the listing queries *)

(** [created_at] does not increase along the list. *)
Definition newer_or_same (a b : SyncJob.t) : Prop :=
  (SyncJob.created_at b ≤ SyncJob.created_at a)%Z.

#[global] Instance newer_or_same_dec a b : Decision (newer_or_same a b).
Proof. unfold newer_or_same. apply _. Defined.

Definition older_or_same (a b : SyncLog.t) : Prop :=
  (SyncLog.created_at a ≤ SyncLog.created_at b)%Z.

#[global] Instance older_or_same_dec a b : Decision (older_or_same a b).
Proof. unfold older_or_same. apply _. Defined.

(** What is assumed of the database's ORDER BY. *)
Definition orders_by {A} (R : A → A → Prop) (order : list A → list A) : Prop :=
  ∀ rows, order rows ≡ₚ rows ∧ StronglySorted R (order rows).

(** The filter of the job listing, on a row: with no user id, or the empty
    one, every job is listed; with a user id, the jobs of that user. *)
Definition listed_for (user_id : option string) (j : SyncJob.t) : Prop :=
  match user_id with
  | None => True
  | Some u => u = "" ∨ SyncJob.user_id j = u
  end.

#[global] Instance listed_for_dec user_id j : Decision (listed_for user_id j).
Proof. unfold listed_for. destruct user_id; apply _. Defined.

(** The rows of the table [sync_jobs] that the listing is about. *)
Definition jobs_listed_for (user_id : option string) (db : Store)
  : list SyncJob.t :=
  snd <$> filter (λ kj, listed_for user_id kj.2) (map_to_list (sync_jobs db)).

(** [page] is the part of [rows] that follows the first [offset] rows, up
    to [limit] rows of it. *)
Definition is_page {A} (limit offset : Z) (rows page : list A) : Prop :=
  ∃ before after,
    rows = before ++ page ++ after
    ∧ Z.of_nat (length before) = Z.min offset (Z.of_nat (length rows))
    ∧ Z.of_nat (length page)
      = Z.min limit (Z.max 0 (Z.of_nat (length rows) - offset)).

(** A store with three jobs of two users. *)
Definition three_jobs_store : Store :=
  with_sync_jobs alice_store
    (<["job-1" := SyncJob.mk "job-1" "alice" "completed" true 2 2 0 None 600
                    (Some 650)]>
       (<["job-2" := SyncJob.mk "job-2" "bob" "failed" false 0 0 0
                       (Some "No credentials found for user bob") 700
                       (Some 701)]>
          (<["job-3" := SyncJob.mk "job-3" "alice" "running" false 5 1 0 None
                          800 None]> ∅))).

(** A string that does not begin with whitespace. *)
Definition clean_start (s : string) : Prop :=
  match s with
  | "" => True
  | String c _ => is_space c = false
  end.

(** * Properties *)

(** ** The store *)

Section StoreFacts.
Import DatabaseOperations.

Lemma filter_none {A} (P : A → Prop) `{!∀ x, Decision (P x)} (l : list A) :
  (∀ x, x ∈ l → ¬ P x) → filter P l = [].
Proof.
  induction l as [|x l IH]; intros Hl; [done|].
  rewrite filter_cons_False; [|apply Hl; left].
  apply IH. intros y Hy. apply Hl. by right.
Qed.

Lemma filter_same_note_unique user note rows :
  NoDup (note_key <$> rows) →
  (length (filter (same_note user note) rows) ≤ 1)%nat.
Proof.
  induction rows as [|r rows IH]; intros Hnd; [simpl; lia|].
  rewrite fmap_cons in Hnd. apply NoDup_cons in Hnd as [Hr Hnd].
  rewrite filter_cons. destruct (decide (same_note user note r)) as [Hs|Hs].
  - rewrite filter_none; [simpl; lia|].
    intros r' Hin Hs'. apply Hr.
    apply list_elem_of_fmap. exists r'. split; [|done].
    unfold note_key. destruct Hs as [-> ->], Hs' as [-> ->]. done.
  - by apply IH.
Qed.

Lemma filter_fmap_commute {A} (P : A → Prop) `{!∀ x, Decision (P x)}
    (f : A → A) (l : list A) :
  (∀ x, P (f x) ↔ P x) → filter P (f <$> l) = f <$> filter P l.
Proof.
  intros Hf. induction l as [|x l IH]; [done|].
  rewrite fmap_cons, !filter_cons.
  destruct (decide (P x)) as [Hx|Hx].
  - rewrite decide_True by by apply Hf. by rewrite fmap_cons, IH.
  - rewrite decide_False by by rewrite Hf. done.
Qed.


(** The SET clause leaves the key columns alone. *)
Lemma conflict_update_key user note page modified t (rows : list SyncState.t) :
  note_key <$>
    ((λ r, if decide (same_note user note r)
           then on_conflict_do_update page modified t r else r) <$> rows)
  = note_key <$> rows.
Proof.
  rewrite <- list_fmap_compose. apply list_fmap_ext.
  intros i r _. simpl. by destruct (decide (same_note user note r)).
Qed.

Lemma upsert_sync_state_unique t1 t2 user note page modified db :
  unique_sync_state db →
  unique_sync_state (upsert_sync_state t1 t2 user note page modified db).1.
Proof.
  unfold unique_sync_state, upsert_sync_state. simpl. intros Hnd.
  destruct (decide (Exists (same_note user note) (sync_state db))) as [He|He].
  - by rewrite conflict_update_key.
  - rewrite fmap_app. apply NoDup_app. split; [done|]. split.
    + intros k (r & -> & Hin)%list_elem_of_fmap Hk. apply He.
      apply Exists_exists. exists r. split; [done|].
      apply list_elem_of_singleton in Hk. unfold note_key in Hk. simpl in Hk.
      by inversion Hk.
    + apply NoDup_singleton.
Qed.

Lemma upsert_sync_state_rows t1 t2 user note page modified db :
  unique_sync_state db →
  ∃ r, rows_of user note (upsert_sync_state t1 t2 user note page modified db).1
       = [r]
       ∧ SyncState.notion_page_id r = page
       ∧ SyncState.keep_modified_at r = modified.
Proof.
  unfold unique_sync_state, rows_of, upsert_sync_state. simpl. intros Hnd.
  destruct (decide (Exists (same_note user note) (sync_state db))) as [He|He].
  - rewrite filter_fmap_commute.
    2:{ intros r. destruct (decide (same_note user note r)); [|done].
        unfold same_note. simpl. tauto. }
    pose proof (filter_same_note_unique user note _ Hnd) as Hlen.
    apply Exists_exists in He as (r0 & Hin & Hr0).
    assert (r0 ∈ filter (same_note user note) (sync_state db)) as Hin'
      by by apply list_elem_of_filter.
    destruct (filter (same_note user note) (sync_state db)) as [|r [|r' l]];
      [by apply elem_of_nil in Hin'| |simpl in Hlen; lia].
    apply list_elem_of_singleton in Hin' as <-.
    rewrite list_fmap_singleton, decide_True by done.
    eexists. split; [done|]. done.
  - rewrite filter_app, filter_none.
    2:{ intros r Hin Hr. apply He, Exists_exists. by exists r. }
    rewrite filter_cons_True by done.
    eexists. split; [done|]. done.
Qed.

(** An upsert for one pair leaves the rows of every other pair as they are. *)
Lemma upsert_sync_state_other t1 t2 user note page modified db user' note' :
  (user', note') ≠ (user, note) →
  rows_of user' note' (upsert_sync_state t1 t2 user note page modified db).1
  = rows_of user' note' db.
Proof.
  unfold rows_of, upsert_sync_state. simpl. intros Hne.
  assert (∀ r, same_note user note r → ¬ same_note user' note' r) as Hdis.
  { intros r [Hu Hn] [Hu' Hn']. apply Hne. congruence. }
  destruct (decide (Exists (same_note user note) (sync_state db))) as [He|He].
  - clear He. induction (sync_state db) as [|r rows IH]; [done|].
    rewrite fmap_cons, !filter_cons, IH.
    destruct (decide (same_note user note r)) as [Hs|Hs]; [|done].
    rewrite !decide_False; [done|by apply Hdis|].
    intros [Hu Hn]. simpl in *. destruct Hs as [Hu0 Hn0]. apply Hne. congruence.
  - rewrite filter_app, filter_cons_False, filter_nil, app_nil_r; [done|].
    intros [Hu Hn]. simpl in *. apply Hne. congruence.
Qed.




End StoreFacts.



(** C8.  [create_sync_job] is not idempotent on [job_id]: whatever the store
    and the arguments, a second call for a [job_id] raises the integrity
    error of the primary key and writes nothing. *)
Theorem create_sync_job_again_raises db t1 t2 job_id user_id full_sync
    user_id' full_sync' :
  DatabaseOperations.create_sync_job t2 job_id user_id' full_sync'
    (DatabaseOperations.create_sync_job t1 job_id user_id full_sync db).1
  = ((DatabaseOperations.create_sync_job t1 job_id user_id full_sync db).1,
     Raise (IntegrityError
              "duplicate key value violates unique constraint sync_jobs_pkey")).
Proof.
  unfold DatabaseOperations.create_sync_job.
  destruct (sync_jobs db !! job_id) as [j|] eqn:Hj; simpl.
  - by rewrite Hj.
  - by rewrite lookup_insert_eq.
Qed.

(** C9.  A write addressed to a job that does not exist is a silent no-op:
    [update_sync_job] and [increment_sync_job_progress] return [None] and
    leave the store as it was. *)
Theorem missing_job_write_is_noop db job_id u processed failed :
  DatabaseOperations.get_sync_job job_id db = None →
  DatabaseOperations.update_sync_job job_id u db = (db, None) ∧
  DatabaseOperations.increment_sync_job_progress job_id processed failed db
  = (db, None).
Proof.
  unfold DatabaseOperations.get_sync_job, DatabaseOperations.update_sync_job,
    DatabaseOperations.increment_sync_job_progress.
  intros ->. done.
Qed.

Lemma missing_job_write_is_noop_witness :
  DatabaseOperations.get_sync_job "job-0" alice_store = None ∧
  (DatabaseOperations.update_sync_job "job-0"
     (JobUpdate.mk (Some "running") None None None None None) alice_store
   = (alice_store, None) ∧
   DatabaseOperations.increment_sync_job_progress "job-0" (Some 1) (Some 0)
     alice_store
   = (alice_store, None)).
Proof.
  split.
  - reflexivity.
  - apply (missing_job_write_is_noop alice_store "job-0"). reflexivity.
Defined.

(** ** Running the services: one equation per step *)

Section RunFacts.
Context (env : Env).

Lemma bind_ok {A B} (m : M A) (k : A → M B) w w1 a :
  m w = (w1, Ok a) → bind m k w = k a w1.
Proof. unfold bind. by intros ->. Qed.

Lemma bind_raise {A B} (m : M A) (k : A → M B) w w1 e :
  m w = (w1, Raise e) → bind m k w = (w1, Raise e).
Proof. unfold bind. by intros ->. Qed.

Lemma try_except_ok {A} (m : M A) (h : exn → M A) w w1 a :
  m w = (w1, Ok a) → try_except m h w = (w1, Ok a).
Proof. unfold try_except. by intros ->. Qed.

Lemma try_except_raise {A} (m : M A) (h : exn → M A) w w1 e :
  m w = (w1, Raise e) → try_except m h w = h e w1.
Proof. unfold try_except. by intros ->. Qed.

Lemma create_sync_job_run job_id user_id full_sync w :
  sync_jobs (store w) !! job_id = None →
  db_ops.create_sync_job env job_id user_id full_sync w
  = ({| store :=
          with_sync_jobs (store w)
            (<[job_id := SyncJob.mk job_id user_id "queued" full_sync 0 0 0
                           None (utcnow env (clock w)) None]>
               (sync_jobs (store w)));
        clock := S (clock w);
        trace := trace w ++ [Db (CreateSyncJob job_id user_id full_sync)] |},
     Ok (SyncJob.mk job_id user_id "queued" full_sync 0 0 0 None
           (utcnow env (clock w)) None)).
Proof.
  intros Hj. unfold db_ops.create_sync_job, bind, now, db_call_raising,
    DatabaseOperations.create_sync_job.
  cbn [store clock trace]. by rewrite Hj.
Qed.

Lemma create_sync_job_run_existing job_id user_id full_sync w j :
  sync_jobs (store w) !! job_id = Some j →
  db_ops.create_sync_job env job_id user_id full_sync w
  = ({| store := store w; clock := S (clock w);
        trace := trace w ++ [Db (CreateSyncJob job_id user_id full_sync)] |},
     Raise (IntegrityError
              "duplicate key value violates unique constraint sync_jobs_pkey")).
Proof.
  intros Hj. unfold db_ops.create_sync_job, bind, now, db_call_raising,
    DatabaseOperations.create_sync_job.
  cbn [store clock trace]. by rewrite Hj.
Qed.

Lemma update_sync_job_run job_id u w j :
  sync_jobs (store w) !! job_id = Some j →
  db_ops.update_sync_job job_id u w
  = ({| store :=
          with_sync_jobs (store w)
            (<[job_id := DatabaseOperations.apply_job_update u j]>
               (sync_jobs (store w)));
        clock := clock w;
        trace := trace w ++ [Db (UpdateSyncJob job_id u)] |},
     Ok (Some (DatabaseOperations.apply_job_update u j))).
Proof.
  intros Hj. unfold db_ops.update_sync_job, db_call,
    DatabaseOperations.update_sync_job. by rewrite Hj.
Qed.

Lemma increment_sync_job_progress_run job_id processed failed w j :
  sync_jobs (store w) !! job_id = Some j →
  db_ops.increment_sync_job_progress job_id processed failed w
  = ({| store :=
          with_sync_jobs (store w)
            (<[job_id :=
                 DatabaseOperations.add_progress
                   (given DatabaseOperations.processed_default processed)
                   (given DatabaseOperations.failed_default failed) j]>
               (sync_jobs (store w)));
        clock := clock w;
        trace := trace w
                 ++ [Db (IncrementSyncJobProgress job_id processed failed)] |},
     Ok (Some (DatabaseOperations.add_progress
                 (given DatabaseOperations.processed_default processed)
                 (given DatabaseOperations.failed_default failed) j))).
Proof.
  intros Hj. unfold db_ops.increment_sync_job_progress, db_call,
    DatabaseOperations.increment_sync_job_progress. by rewrite Hj.
Qed.

Lemma add_sync_log_run job_id level message keep_note_id w j :
  sync_jobs (store w) !! job_id = Some j →
  db_ops.add_sync_log env job_id level message keep_note_id w
  = ({| store :=
          with_sync_logs (store w)
            (sync_logs (store w)
             ++ [SyncLog.mk (sync_logs_id_seq (store w)) job_id keep_note_id
                   level message (utcnow env (clock w))])
            (sync_logs_id_seq (store w) + 1);
        clock := S (clock w);
        trace := trace w
                 ++ [Db (AddSyncLog job_id level message keep_note_id)] |},
     Ok (SyncLog.mk (sync_logs_id_seq (store w)) job_id keep_note_id level
           message (utcnow env (clock w)))).
Proof.
  intros Hj. unfold db_ops.add_sync_log, bind, now, db_call_raising,
    DatabaseOperations.add_sync_log.
  cbn [store clock trace]. by rewrite Hj.
Qed.

Lemma get_sync_job_run job_id w :
  db_ops.get_sync_job job_id w
  = ({| store := store w; clock := clock w;
        trace := trace w ++ [Db (GetSyncJob job_id)] |},
     Ok (sync_jobs (store w) !! job_id)).
Proof. done. Qed.


End RunFacts.

(** ** The abort endpoint *)

Lemma contains_middle pre needle post :
  contains needle (pre +:+ needle +:+ post).
Proof. by exists pre, post. Qed.

(** C4.  [abort_sync] on a job whose status is [completed], [failed] or
    [cancelled] raises the 400 error naming that status and leaves the store
    as it was; on a job that is [queued] or [running] it sets the status to
    [cancelled], [completed_at] to the clock reading and [error_message] to
    ["Job cancelled by user"], leaves the other columns alone, and appends
    one WARNING row to [sync_logs]. *)
Theorem abort_sync_guard env w job_id job_uuid job :
  uuid_of_str env job_id = Some job_uuid →
  sync_jobs (store w) !! job_uuid = Some job →
  (SyncJob.status job ∈ ["completed"; "failed"; "cancelled"] →
   ∃ w' detail,
     SyncService.abort_sync env job_id w = (w', Raise (HTTPException 400 detail))
     ∧ detail = "Cannot abort job with status '" +:+ SyncJob.status job +:+ "'"
     ∧ contains (SyncJob.status job) detail
     ∧ store w' = store w) ∧
  (SyncJob.status job ∈ ["queued"; "running"] →
   ∃ w' job' log,
     SyncService.abort_sync env job_id w
     = (w', Ok {| SyncService.abort_job_id := job_id;
                  SyncService.abort_status := "cancelled";
                  SyncService.abort_message := "Sync job has been cancelled" |})
     ∧ sync_jobs (store w') = <[job_uuid := job']> (sync_jobs (store w))
     ∧ job' = SyncJob.mk (SyncJob.job_id job) (SyncJob.user_id job) "cancelled"
                (SyncJob.full_sync job) (SyncJob.total_notes job)
                (SyncJob.processed_notes job) (SyncJob.failed_notes job)
                (Some "Job cancelled by user") (SyncJob.created_at job)
                (Some (utcnow env (clock w)))
     ∧ sync_logs (store w') = sync_logs (store w) ++ [log]
     ∧ SyncLog.job_id log = job_uuid
     ∧ SyncLog.level log = "WARNING"
     ∧ SyncLog.message log = "Sync job cancelled by user"
     ∧ sync_state (store w') = sync_state (store w)
     ∧ credentials (store w') = credentials (store w)).
Proof.
  intros Huuid Hjob. unfold SyncService.abort_sync. rewrite Huuid.
  rewrite (bind_ok _ _ _ _ _ (get_sync_job_run job_uuid w)). rewrite Hjob.
  split; intros Hst.
  - rewrite decide_True by done. eexists _, _. split; [done|].
    split; [done|]. split; [apply contains_middle|done].
  - rewrite decide_False.
    2:{ unfold SyncService.terminal_statuses.
        apply elem_of_cons in Hst as [->|Hst];
          [|apply elem_of_cons in Hst as [->|Hst];
            [|by apply elem_of_nil in Hst]];
          by apply (bool_decide_eq_false_1 _). }
    unfold bind at 1, now. cbn [store clock trace].
    erewrite bind_ok by (apply update_sync_job_run; exact Hjob).
    erewrite bind_ok.
    2:{ eapply add_sync_log_run. cbn [store sync_jobs with_sync_jobs].
        apply lookup_insert_eq. }
    unfold ret. eexists _, _, _. split; [done|].
    cbn [store sync_jobs sync_logs sync_state credentials with_sync_logs
         with_sync_jobs clock trace].
    repeat split; try done.
Qed.

Lemma abort_sync_guard_witness :
  (∃ w' detail,
     SyncService.abort_sync quiet_env "job-1"
       (world_of (store_with_job completed_job))
     = (w', Raise (HTTPException 400 detail))
     ∧ detail = "Cannot abort job with status 'completed'"
     ∧ contains "completed" detail
     ∧ store w' = store_with_job completed_job) ∧
  (∃ w' job' log,
     SyncService.abort_sync quiet_env "job-1"
       (world_of (store_with_job running_job))
     = (w', Ok {| SyncService.abort_job_id := "job-1";
                  SyncService.abort_status := "cancelled";
                  SyncService.abort_message := "Sync job has been cancelled" |})
     ∧ sync_jobs (store w')
       = <["job-1" := job']> (sync_jobs (store_with_job running_job))
     ∧ job' = SyncJob.mk "job-1" "alice" "cancelled" true 0 0 0
                (Some "Job cancelled by user") 600 (Some 1000)
     ∧ sync_logs (store w') = sync_logs (store_with_job running_job) ++ [log]
     ∧ SyncLog.job_id log = "job-1"
     ∧ SyncLog.level log = "WARNING"
     ∧ SyncLog.message log = "Sync job cancelled by user"
     ∧ sync_state (store w') = sync_state (store_with_job running_job)
     ∧ credentials (store w') = credentials (store_with_job running_job)).
Proof.
  split.
  - apply (abort_sync_guard quiet_env
             (world_of (store_with_job completed_job)) "job-1" "job-1"
             completed_job); [reflexivity|reflexivity|].
    by apply (bool_decide_eq_true_1 _).
  - apply (abort_sync_guard quiet_env
             (world_of (store_with_job running_job)) "job-1" "job-1"
             running_job); [reflexivity|reflexivity|].
    by apply (bool_decide_eq_true_1 _).
Defined.

(** ** Relations every step of a computation maintains *)

Section Stable.
Context (R : World → World → Prop) `{!PreOrder R}.

Lemma stable_ret {A} (a : A) : stable R (ret a).
Proof. intros w. simpl. reflexivity. Qed.

Lemma stable_raise {A} (e : exn) : stable R (raise (A:=A) e).
Proof. intros w. simpl. reflexivity. Qed.

Lemma stable_of_result {A} (r : result A) : stable R (of_result r).
Proof. intros w. simpl. reflexivity. Qed.

Lemma stable_bind {A B} (m : M A) (k : A → M B) :
  stable R m → (∀ a, stable R (k a)) → stable R (bind m k).
Proof.
  intros Hm Hk w. specialize (Hm w). unfold bind.
  destruct (m w) as [w1 [a|e]]; simpl in *; [|done].
  etransitivity; [exact Hm|apply Hk].
Qed.

Lemma stable_try_except {A} (m : M A) (h : exn → M A) :
  stable R m → (∀ e, stable R (h e)) → stable R (try_except m h).
Proof.
  intros Hm Hh w. specialize (Hm w). unfold try_except.
  destruct (m w) as [w1 [a|e]]; simpl in *; [done|].
  etransitivity; [exact Hm|apply Hh].
Qed.

Lemma stable_getitem {A} key (field : option A) :
  stable R (SyncOrchestrator.getitem key field).
Proof. destruct field; [apply stable_ret|apply stable_raise]. Qed.

Lemma stable_response_json {B} (r : Response B) :
  stable R (SyncOrchestrator.response_json r).
Proof.
  unfold SyncOrchestrator.response_json.
  destruct (json r); [apply stable_ret|apply stable_raise].
Qed.

End Stable.

#[global] Instance extends_preorder ok : PreOrder (extends ok).
Proof.
  split.
  - intros w. exists []. by rewrite app_nil_r.
  - intros w1 w2 w3 (evs1 & H1 & Hok1) (evs2 & H2 & Hok2).
    exists (evs1 ++ evs2). rewrite H2, H1, app_assoc. split; [done|].
    by apply Forall_app.
Qed.

#[global] Instance job_kept_preorder job_id : PreOrder (job_kept job_id).
Proof.
  split.
  - intros w Hj. exact Hj.
  - intros w1 w2 w3 H1 H2 Hj. by apply H2, H1.
Qed.

#[global] Instance jobs_same_preorder : PreOrder jobs_same.
Proof.
  split.
  - intros w. by split.
  - intros w1 w2 w3 [H1 H1'] [H2 H2']. split; congruence.
Qed.

Lemma extends_one ok ev w w' :
  ok ev → trace w' = trace w ++ [ev] → extends ok w w'.
Proof. intros Hev Ht. exists [ev]. split; [done|]. by apply Forall_singleton. Qed.

Lemma extends_none ok w w' : trace w' = trace w → extends ok w w'.
Proof. intros Ht. exists []. by rewrite app_nil_r. Qed.

Lemma extends_weaken (ok ok' : Event → Prop) w w' :
  (∀ ev, ok ev → ok' ev) → extends ok w w' → extends ok' w w'.
Proof.
  intros Himp (evs & Ht & Hok). exists evs. split; [done|].
  by eapply Forall_impl.
Qed.

(** Leaves: the primitives of the monad, for each relation. *)

Lemma extends_now ok env : stable (extends ok) (now env).
Proof. intros w. by apply extends_none. Qed.

Lemma extends_emit ok ev : ok ev → stable (extends ok) (emit ev).
Proof. intros Hev w. by eapply extends_one. Qed.

Lemma extends_db_call {A} ok call (f : Store → Store * A) :
  ok (Db call) → stable (extends ok) (db_call call f).
Proof.
  intros Hev w. unfold db_call. destruct (f (store w)).
  by eapply extends_one.
Qed.

Lemma extends_db_call_raising {A} ok call (f : Store → Store * result A) :
  ok (Db call) → stable (extends ok) (db_call_raising call f).
Proof.
  intros Hev w. unfold db_call_raising. destruct (f (store w)).
  by eapply extends_one.
Qed.

Lemma extends_keep_post ok env req :
  ok (KeepPost req) → stable (extends ok) (SyncOrchestrator.keep_post env req).
Proof. intros Hev w. by eapply extends_one. Qed.

Lemma extends_keep_get ok env params :
  ok (KeepGet params) →
  stable (extends ok) (SyncOrchestrator.keep_get env params).
Proof. intros Hev w. by eapply extends_one. Qed.

Lemma extends_notion_post ok env req :
  ok (NotionPost req) →
  stable (extends ok) (SyncOrchestrator.notion_post env req).
Proof. intros Hev w. by eapply extends_one. Qed.

Lemma extends_notion_patch ok env page req :
  ok (NotionPatch page req) →
  stable (extends ok) (SyncOrchestrator.notion_patch env page req).
Proof. intros Hev w. by eapply extends_one. Qed.


Lemma jobs_same_store {A} (m : M A) :
  (∀ w, store (m w).1 = store w) → stable jobs_same m.
Proof. intros H w. unfold jobs_same. by rewrite H. Qed.



Lemma jobs_same_db_call {A} call (f : Store → Store * A) :
  (∀ db, sync_jobs (f db).1 = sync_jobs db
         ∧ credentials (f db).1 = credentials db) →
  stable jobs_same (db_call call f).
Proof.
  intros Hf w. unfold db_call, jobs_same. specialize (Hf (store w)).
  by destruct (f (store w)).
Qed.

Lemma jobs_same_db_call_raising {A} call (f : Store → Store * result A) :
  (∀ db, sync_jobs (f db).1 = sync_jobs db
         ∧ credentials (f db).1 = credentials db) →
  stable jobs_same (db_call_raising call f).
Proof.
  intros Hf w. unfold db_call_raising, jobs_same. specialize (Hf (store w)).
  by destruct (f (store w)).
Qed.

(** Decomposing a computation down to the primitives. *)
Ltac stable_step :=
  lazymatch goal with
  | |- PreOrder _ => apply _
  | |- Reflexive _ => apply _
  | |- stable _ (ret _) => apply stable_ret
  | |- stable _ (raise _) => apply stable_raise
  | |- stable _ (of_result _) => apply stable_of_result
  | |- stable _ (bind _ _) => apply stable_bind
  | |- stable _ (try_except _ _) => apply stable_try_except
  | |- stable _ (SyncOrchestrator.getitem _ _) => apply stable_getitem
  | |- stable _ (SyncOrchestrator.response_json _) =>
      apply stable_response_json
  | |- stable _ (if ?c then _ else _) => destruct c
  | |- stable _ (match ?x with _ => _ end) => destruct x
  | |- ∀ _, stable _ _ => intros ?
  end.

Ltac extends_leaf :=
  first [ apply extends_now | apply extends_emit | apply extends_db_call
        | apply extends_db_call_raising | apply extends_keep_post
        | apply extends_keep_get | apply extends_notion_post
        | apply extends_notion_patch ].

Ltac unfold_services :=
  unfold SyncOrchestrator.execute_sync_except, SyncOrchestrator.sync_notes,
    SyncOrchestrator.complete_job, SyncOrchestrator.fetch_and_sync,
    SyncOrchestrator.fail_missing_credentials,
    SyncOrchestrator.process_one, SyncOrchestrator._process_note,
    SyncOrchestrator.update_existing_page, SyncOrchestrator.create_new_page,
    SyncOrchestrator._fetch_notes_from_keep,
    SyncOrchestrator.determine_modified_since,
    SyncOrchestrator.note_payload, SyncOrchestrator.parse_modified_at,
    NotificationService.send_critical_error_notification,
    db_ops.create_sync_job, db_ops.update_sync_job, db_ops.get_sync_job,
    db_ops.increment_sync_job_progress, db_ops.add_sync_log,
    db_ops.get_credentials, db_ops.get_sync_state_by_user,
    db_ops.get_sync_record, db_ops.upsert_sync_state.

(** The webhook call of the notification service: reads the log only. *)
Lemma stable_read R `{!Reflexive R} {A} (f : World → result A) :
  stable R (λ w, (w, f w)).
Proof. intros w. simpl. reflexivity. Qed.

Ltac extends_auto :=
  unfold_services;
  repeat first [ stable_step | extends_leaf | apply stable_read ].

Section Benign.
Context (env : Env) (job_id : UUID).

Lemma benign_process_one user_id token database acc note :
  stable (extends (benign job_id))
    (SyncOrchestrator.process_one env job_id user_id token database acc note).
Proof. extends_auto; done. Qed.

End Benign.

Section Phases.
Context (env : Env).
Import SyncOrchestrator.



End Phases.

Section Phases2.
Context (env : Env).
Import SyncOrchestrator.

Lemma execute_sync_start_run job_id user_id full_sync w :
  sync_jobs (store w) !! job_id = None →
  ∃ w',
    execute_sync_start env job_id user_id full_sync w = (w', Ok tt)
    ∧ sync_jobs (store w')
      = <[job_id := started_job (utcnow env (clock w)) job_id user_id
                      full_sync]> (sync_jobs (store w))
    ∧ sync_state (store w') = sync_state (store w)
    ∧ credentials (store w') = credentials (store w)
    ∧ trace w'
      = trace w
        ++ [Db (CreateSyncJob job_id user_id full_sync);
            Db (UpdateSyncJob job_id running_update);
            Db (AddSyncLog job_id "INFO"
                  ("Starting sync for user " +:+ user_id) None)].
Proof.
  intros Hj. unfold execute_sync_start.
  erewrite bind_ok by (apply create_sync_job_run; exact Hj).
  erewrite bind_ok.
  2:{ apply update_sync_job_run. cbn [store sync_jobs with_sync_jobs].
      apply lookup_insert_eq. }
  erewrite bind_ok.
  2:{ eapply add_sync_log_run. cbn [store sync_jobs with_sync_jobs].
      apply lookup_insert_eq. }
  unfold ret. eexists. split; [done|].
  cbn [store sync_jobs sync_state credentials with_sync_logs with_sync_jobs
       clock trace].
  repeat split; try done.
  - by rewrite insert_insert_eq.
  - by rewrite <- !app_assoc.
Qed.

Lemma execute_sync_start_existing job_id user_id full_sync w j :
  sync_jobs (store w) !! job_id = Some j →
  ∃ w' msg,
    execute_sync env job_id user_id full_sync w
    = (w', Raise (IntegrityError msg))
    ∧ store w' = store w.
Proof.
  intros Hj. eexists _, _. split.
  - unfold execute_sync, execute_sync_start. apply bind_raise, bind_raise.
    by eapply create_sync_job_run_existing.
  - done.
Qed.

Lemma complete_job_run job_id total acc w j :
  sync_jobs (store w) !! job_id = Some j →
  ∃ w',
    complete_job env job_id total acc w
    = (w', Ok {| sync_job_id := job_id; sync_status := "completed";
                 sync_summary :=
                   Some {| summary_total_notes := total;
                           summary_processed_notes := processed_count acc;
                           summary_failed_notes := failed_count acc |};
                 sync_error := None |})
    ∧ sync_jobs (store w')
      = <[job_id := DatabaseOperations.apply_job_update
                      (completed_update (utcnow env (clock w))) j]>
          (sync_jobs (store w))
    ∧ sync_state (store w') = sync_state (store w)
    ∧ credentials (store w') = credentials (store w)
    ∧ trace w'
      = trace w
        ++ [Db (UpdateSyncJob job_id
                  (completed_update (utcnow env (clock w))));
            Db (AddSyncLog job_id "INFO"
                  ("Sync completed: " +:+ pretty (processed_count acc)
                   +:+ " processed, " +:+ pretty (failed_count acc)
                   +:+ " failed") None)].
Proof.
  intros Hj. unfold complete_job.
  unfold bind at 1, now. cbn [store clock trace].
  erewrite bind_ok by (apply update_sync_job_run; exact Hj).
  erewrite bind_ok.
  2:{ eapply add_sync_log_run. cbn [store sync_jobs with_sync_jobs].
      apply lookup_insert_eq. }
  unfold ret. eexists. split; [done|].
  cbn [store sync_jobs sync_state credentials with_sync_logs with_sync_jobs
       clock trace].
  repeat split; try done.
  by rewrite <- !app_assoc.
Qed.



End Phases2.


(** ** Two runs on explicit inputs *)

(** C6.  The invariant fails on the code.  The Keep extractor returns one
    note, a dictionary without ['id']: [_process_note] raises before its
    [try], the handler of the loop calls
    [increment_sync_job_progress(job_id, failed=1)], and the default
    [processed=1] is added as well.  The job ends with [total_notes = 1],
    [processed_notes = 1] and [failed_notes = 1], while the summary returned
    to the caller says 0 processed, 1 failed. *)
Theorem note_without_id_counted_twice :
  let outcome :=
    SyncOrchestrator.execute_sync env_note_without_id "job-1" "alice" true
      (world_of alice_store) in
  ∃ j,
    sync_jobs (store outcome.1) !! "job-1" = Some j
    ∧ SyncJob.status j = "completed"
    ∧ SyncJob.total_notes j = 1
    ∧ SyncJob.processed_notes j = 1
    ∧ SyncJob.failed_notes j = 1
    ∧ ¬ (SyncJob.processed_notes j + SyncJob.failed_notes j
         ≤ SyncJob.total_notes j)%Z
    ∧ outcome.2
      = Ok {| SyncOrchestrator.sync_job_id := "job-1";
              SyncOrchestrator.sync_status := "completed";
              SyncOrchestrator.sync_summary :=
                Some {| SyncOrchestrator.summary_total_notes := 1;
                        SyncOrchestrator.summary_processed_notes := 0;
                        SyncOrchestrator.summary_failed_notes := 1 |};
              SyncOrchestrator.sync_error := None |}.
Proof.
  eexists. split; [vm_compute; reflexivity|]. simpl.
  repeat split; try reflexivity. lia.
Qed.


Section Fetch.
Context (env : Env).
Import SyncOrchestrator.

Lemma get_credentials_run user_id w r :
  DatabaseOperations.get_credentials user_id (encryption_service env) (store w)
  = r →
  db_ops.get_credentials env user_id w
  = ({| store := store w; clock := clock w;
        trace := trace w ++ [Db (GetCredentials user_id)] |}, r).
Proof. intros <-. done. Qed.

Lemma get_credentials_frame user_id db db' :
  credentials db' = credentials db →
  DatabaseOperations.get_credentials user_id (encryption_service env) db'
  = DatabaseOperations.get_credentials user_id (encryption_service env) db.
Proof. unfold DatabaseOperations.get_credentials. by intros ->. Qed.

Lemma determine_modified_since_run user_id full_sync w :
  ∃ w',
    determine_modified_since env user_id full_sync w
    = (w', Ok (modified_since_of env user_id full_sync (store w)))
    ∧ store w' = store w
    ∧ clock w' = clock w
    ∧ trace w' = trace w ++ window_events user_id full_sync.
Proof.
  unfold determine_modified_since, modified_since_of, window_events.
  destruct full_sync; simpl.
  - eexists. split; [done|]. by rewrite app_nil_r.
  - unfold bind, db_ops.get_sync_state_by_user, db_call.
    destruct (SyncState.last_synced_at <$> _); by eexists.
Qed.

Lemma _fetch_notes_from_keep_run body username google_token modified_since w :
  keep_authenticates env →
  keep_returns env body →
  _fetch_notes_from_keep env username google_token modified_since w
  = ({| store := store w; clock := clock w;
        trace := trace w
                 ++ fetch_events env username google_token modified_since |},
     Ok (given [] (notes body))).
Proof.
  intros Hauth Hget. unfold _fetch_notes_from_keep, fetch_events.
  destruct (Hauth (trace w) {| auth_username := username;
                               auth_master_token := google_token |})
    as (resp & data & Hpost & Hcode & Hjson & Hstatus).
  unfold bind at 1, keep_post. rewrite Hpost.
  rewrite decide_False by (intros Hne; by apply Hne).
  unfold bind at 1, response_json. rewrite Hjson. unfold ret at 1.
  rewrite decide_False by (intros Hne; by apply Hne).
  unfold bind at 1, keep_get. cbn [store clock trace].
  edestruct Hget as (resp' & -> & Hcode' & Hjson').
  rewrite decide_False by (intros Hne; by apply Hne).
  unfold bind, response_json. rewrite Hjson'. unfold ret.
  by rewrite <- app_assoc.
Qed.

End Fetch.

Section Prefix.
Context (env : Env).
Import SyncOrchestrator.

Lemma modified_since_of_frame user_id full_sync db db' :
  sync_state db' = sync_state db →
  modified_since_of env user_id full_sync db'
  = modified_since_of env user_id full_sync db.
Proof.
  unfold modified_since_of, DatabaseOperations.get_sync_state_by_user.
  by intros ->.
Qed.

(** Whatever the notes request returns, the fetch makes the two requests
    and touches nothing else. *)
Lemma _fetch_notes_from_keep_calls username google_token modified_since w :
  keep_authenticates env →
  ∃ r,
    _fetch_notes_from_keep env username google_token modified_since w
    = ({| store := store w; clock := clock w;
          trace := trace w
                   ++ fetch_events env username google_token modified_since |},
       r).
Proof.
  intros Hauth. unfold _fetch_notes_from_keep, fetch_events.
  destruct (Hauth (trace w) {| auth_username := username;
                               auth_master_token := google_token |})
    as (resp & data & Hpost & Hcode & Hjson & Hstatus).
  unfold bind at 1, keep_post. rewrite Hpost.
  rewrite decide_False by (intros Hne; by apply Hne).
  unfold bind at 1, response_json. rewrite Hjson. unfold ret at 1.
  rewrite decide_False by (intros Hne; by apply Hne).
  unfold bind at 1, keep_get. cbn [store clock trace].
  rewrite <- app_assoc. simpl.
  destruct (keep_client_get env _ _) as [resp'|e]; [|by eexists].
  destruct (decide (status_code resp' ≠ 200)); [by eexists|].
  unfold bind, response_json. destruct (json resp'); by eexists.
Qed.

(** A run whose credentials are found and whose authentication is accepted
    comes down to the result [r] of the fetch, then [sync_notes] on the
    fetched notes, under the top-level handler. *)
Lemma execute_sync_reaches_fetch job_id user_id full_sync w creds :
  sync_jobs (store w) !! job_id = None →
  DatabaseOperations.get_credentials user_id (encryption_service env) (store w)
  = Ok (Some creds) →
  keep_authenticates env →
  ∃ w4 r,
    execute_sync env job_id user_id full_sync w
    = try_except
        (bind (of_result r) (sync_notes env job_id user_id creds))
        (execute_sync_except env job_id user_id full_sync) w4
    ∧ (∀ body, keep_returns env body → r = Ok (given [] (notes body)))
    ∧ sync_jobs (store w4)
      = <[job_id := started_job (utcnow env (clock w)) job_id user_id
                      full_sync]> (sync_jobs (store w))
    ∧ sync_state (store w4) = sync_state (store w)
    ∧ credentials (store w4) = credentials (store w)
    ∧ trace w4
      = trace w ++ prefix_events env (store w) job_id user_id full_sync creds.
Proof.
  intros Hfresh Hcreds Hauth.
  destruct (execute_sync_start_run env job_id user_id full_sync w Hfresh)
    as (w1 & Hstart & Hjobs1 & Hstate1 & Hcred1 & Htrace1).
  pose proof (get_credentials_run env user_id w1 _
                (get_credentials_frame env user_id _ _ Hcred1)) as Hrun2.
  rewrite Hcreds in Hrun2.
  set (w2 := {| store := store w1; clock := clock w1;
                trace := trace w1 ++ [Db (GetCredentials user_id)] |})
    in Hrun2.
  destruct (determine_modified_since_run env user_id full_sync w2)
    as (w3 & Hrun3 & Hstore3 & Hclock3 & Htrace3).
  rewrite (modified_since_of_frame user_id full_sync (store w) (store w2))
    in Hrun3 by done.
  set (ms := modified_since_of env user_id full_sync (store w)) in *.
  assert (sync_jobs (store w3) !! job_id
          = Some (started_job (utcnow env (clock w)) job_id user_id full_sync))
    as Hj3 by (rewrite Hstore3; simpl; rewrite Hjobs1; apply lookup_insert_eq).
  pose proof (add_sync_log_run env job_id "INFO"
                ("Fetching notes from Keep (modified_since="
                 +:+ format_optional ms +:+ ")") None w3 _ Hj3) as Hrun4.
  match type of Hrun4 with _ = (?w, _) => set (w4 := w) in Hrun4 end.
  destruct (_fetch_notes_from_keep_calls user_id
              (CredentialsDict.google_oauth_token creds) ms w4 Hauth)
    as (r & Hrun5).
  match type of Hrun5 with _ = (?w, _) => set (w5 := w) in Hrun5 end.
  exists w5, r. split.
  { unfold execute_sync. erewrite bind_ok by exact Hstart.
    unfold execute_sync_body, execute_sync_try.
    unfold try_except at 1. erewrite bind_ok by exact Hrun2.
    unfold fetch_and_sync.
    erewrite bind_ok by exact Hrun3. erewrite bind_ok by exact Hrun4.
    unfold try_except, bind. rewrite Hrun5. done. }
  split.
  { intros body Hget.
    rewrite (_fetch_notes_from_keep_run env body _ _ _ _ Hauth Hget) in Hrun5.
    by inversion Hrun5. }
  subst w5 w4. cbn [store sync_jobs sync_state credentials with_sync_logs
                    trace]. rewrite Hstore3. subst w2. cbn [store].
  repeat split; try done.
  rewrite Htrace3. cbn [trace]. rewrite Htrace1.
  unfold prefix_events. fold ms. rewrite <- !app_assoc. done.
Qed.

Lemma execute_sync_reaches_sync_notes job_id user_id full_sync w creds body :
  sync_jobs (store w) !! job_id = None →
  DatabaseOperations.get_credentials user_id (encryption_service env) (store w)
  = Ok (Some creds) →
  keep_authenticates env →
  keep_returns env body →
  ∃ w4,
    execute_sync env job_id user_id full_sync w
    = try_except
        (sync_notes env job_id user_id creds (given [] (notes body)))
        (execute_sync_except env job_id user_id full_sync) w4
    ∧ sync_jobs (store w4)
      = <[job_id := started_job (utcnow env (clock w)) job_id user_id
                      full_sync]> (sync_jobs (store w))
    ∧ sync_state (store w4) = sync_state (store w)
    ∧ credentials (store w4) = credentials (store w)
    ∧ trace w4
      = trace w ++ prefix_events env (store w) job_id user_id full_sync creds.
Proof.
  intros Hfresh Hcreds Hauth Hget.
  destruct (execute_sync_reaches_fetch job_id user_id full_sync w creds
              Hfresh Hcreds Hauth) as (w4 & r & Hrun & Hr & Hfacts).
  rewrite (Hr body Hget) in Hrun. by exists w4.
Qed.

End Prefix.

Section MissingNotesKey.
Context (env : Env).
Import SyncOrchestrator.

(** C10.  When the notes request returns status 200 and a JSON object
    without the key ['notes'], [_fetch_notes_from_keep] returns the empty
    list and the run completes: status [completed], [total_notes = 0], no
    note processed or failed, no call to the Notion writer. *)
Theorem execute_sync_missing_notes_key job_id user_id full_sync w creds :
  sync_jobs (store w) !! job_id = None →
  DatabaseOperations.get_credentials user_id (encryption_service env) (store w)
  = Ok (Some creds) →
  keep_authenticates env →
  keep_returns env {| notes := None |} →
  (∀ username google_token modified_since w0,
     (_fetch_notes_from_keep env username google_token modified_since w0).2
     = Ok [])
  ∧ ∃ w' j evs,
      execute_sync env job_id user_id full_sync w
      = (w', Ok {| sync_job_id := job_id; sync_status := "completed";
                   sync_summary :=
                     Some {| summary_total_notes := 0;
                             summary_processed_notes := 0;
                             summary_failed_notes := 0 |};
                   sync_error := None |})
      ∧ sync_jobs (store w') !! job_id = Some j
      ∧ SyncJob.status j = "completed"
      ∧ SyncJob.total_notes j = 0
      ∧ SyncJob.processed_notes j = 0
      ∧ SyncJob.failed_notes j = 0
      ∧ SyncJob.error_message j = None
      ∧ trace w' = trace w ++ evs
      ∧ filter is_sink_call evs = [].
Proof.
  intros Hfresh Hcreds Hauth Hget. split.
  { intros. erewrite _fetch_notes_from_keep_run; [|done|done]. reflexivity. }
  destruct (execute_sync_reaches_sync_notes env job_id user_id full_sync w
              creds _ Hfresh Hcreds Hauth Hget)
    as (w4 & Hrun & Hjobs4 & Hstate4 & Hcred4 & Htrace4).
  assert (sync_jobs (store w4) !! job_id
          = Some (started_job (utcnow env (clock w)) job_id user_id full_sync))
    as Hj4 by (rewrite Hjobs4; apply lookup_insert_eq).
  pose proof (update_sync_job_run job_id
                (JobUpdate.mk None (Some 0) None None None None) w4 _ Hj4)
    as Hrun5.
  match type of Hrun5 with _ = (?w, _) => set (w5 := w) in Hrun5 end.
  assert (is_Some (sync_jobs (store w5) !! job_id)) as [j5 Hj5]
    by (eexists; apply lookup_insert_eq).
  pose proof (add_sync_log_run env job_id "INFO"
                ("Fetched " +:+ pretty 0 +:+ " notes from Keep") None w5 _ Hj5)
    as Hrun6.
  match type of Hrun6 with _ = (?w, _) => set (w6 := w) in Hrun6 end.
  assert (sync_jobs (store w6) !! job_id
          = Some (DatabaseOperations.apply_job_update
                    (JobUpdate.mk None (Some 0) None None None None)
                    (started_job (utcnow env (clock w)) job_id user_id
                       full_sync)))
    as Hj6 by apply lookup_insert_eq.
  destruct (complete_job_run env job_id 0
              {| processed_count := 0; failed_count := 0; results := [] |}
              w6 _ Hj6)
    as (w7 & Hrun7 & Hjobs7 & Hstate7 & Hcred7 & Htrace7).
  eexists w7, _, _. split.
  { rewrite Hrun. apply try_except_ok. unfold sync_notes. simpl.
    erewrite bind_ok by exact Hrun5. erewrite bind_ok by exact Hrun6.
    erewrite bind_ok by reflexivity. exact Hrun7. }
  split; [rewrite Hjobs7; apply lookup_insert_eq|].
  do 5 (split; [done|]).
  split.
  { rewrite Htrace7. subst w6 w5. cbn [trace]. rewrite Htrace4.
    rewrite <- !app_assoc. done. }
  unfold prefix_events, window_events, fetch_events.
  by destruct full_sync.
Qed.

End MissingNotesKey.

Lemma sample_env_authenticates body sink_fails :
  keep_authenticates (sample_env body sink_fails).
Proof. intros h req. by eexists _, _. Qed.

Lemma sample_env_returns body sink_fails :
  keep_returns (sample_env (Some body) sink_fails) body.
Proof. intros h params. by eexists. Qed.

Lemma execute_sync_missing_notes_key_witness :
  (∀ username google_token modified_since w0,
     (SyncOrchestrator._fetch_notes_from_keep env_no_notes_key username
        google_token modified_since w0).2 = Ok [])
  ∧ ∃ w' j evs,
      SyncOrchestrator.execute_sync env_no_notes_key "job-1" "alice" false
        (world_of alice_store)
      = (w', Ok {| SyncOrchestrator.sync_job_id := "job-1";
                   SyncOrchestrator.sync_status := "completed";
                   SyncOrchestrator.sync_summary :=
                     Some {| SyncOrchestrator.summary_total_notes := 0;
                             SyncOrchestrator.summary_processed_notes := 0;
                             SyncOrchestrator.summary_failed_notes := 0 |};
                   SyncOrchestrator.sync_error := None |})
      ∧ sync_jobs (store w') !! "job-1" = Some j
      ∧ SyncJob.status j = "completed"
      ∧ SyncJob.total_notes j = 0
      ∧ SyncJob.processed_notes j = 0
      ∧ SyncJob.failed_notes j = 0
      ∧ SyncJob.error_message j = None
      ∧ trace w' = trace (world_of alice_store) ++ evs
      ∧ filter is_sink_call evs = [].
Proof.
  apply (execute_sync_missing_notes_key env_no_notes_key "job-1" "alice" false
           (world_of alice_store) alice_credentials).
  - vm_compute. reflexivity.
  - vm_compute. reflexivity.
  - apply sample_env_authenticates.
  - apply sample_env_returns.
Defined.

Section Loop.
Context (env : Env).
Import SyncOrchestrator.

Lemma loop_events_process_one job_id user_id token database acc note :
  stable (extends is_loop_event)
    (process_one env job_id user_id token database acc note).
Proof. extends_auto; done. Qed.

Lemma loop_events_process_notes job_id user_id token database notes acc :
  stable (extends is_loop_event)
    (process_notes env job_id user_id token database notes acc).
Proof.
  revert acc. induction notes as [|note notes IH]; intros acc; simpl.
  - apply stable_ret; apply _.
  - apply stable_bind; [apply _|apply loop_events_process_one|].
    intros acc'. apply IH.
Qed.

Lemma extends_process_notes (ok : Event → Prop) job_id user_id token database
    notes acc :
  (∀ ev, is_loop_event ev → ok ev) →
  stable (extends ok)
    (process_notes env job_id user_id token database notes acc).
Proof.
  intros Hok w. eapply extends_weaken; [exact Hok|].
  apply loop_events_process_notes.
Qed.

Lemma loop_event_no_fetch ev : is_loop_event ev → no_fetch ev.
Proof. by destruct ev. Qed.


Lemma no_fetch_after_fetch job_id user_id full_sync creds r :
  stable (extends no_fetch)
    (try_except (bind (of_result r) (sync_notes env job_id user_id creds))
       (execute_sync_except env job_id user_id full_sync)).
Proof.
  unfold_services.
  repeat first [ stable_step | extends_leaf | apply stable_read
               | apply extends_process_notes; apply loop_event_no_fetch ];
    done.
Qed.

End Loop.

Section Window.
Context (env : Env).
Import SyncOrchestrator.

Lemma foldl_max_bounds ts t :
  (foldl Z.max t ts = t ∨ foldl Z.max t ts ∈ ts)
  ∧ (t ≤ foldl Z.max t ts)%Z
  ∧ ∀ x, x ∈ ts → (x ≤ foldl Z.max t ts)%Z.
Proof.
  revert t. induction ts as [|u ts IH]; intros t; simpl.
  - split; [by left|]. split; [lia|]. intros x Hx. by apply elem_of_nil in Hx.
  - destruct (IH (Z.max t u)) as (Hmem & Hle & Hall). split; [|split].
    + destruct Hmem as [Heq|Hin]; [|right; by right].
      rewrite Heq. destruct (Z.max_spec t u) as [[_ ->]|[_ ->]];
        [right; left|left]; done.
    + lia.
    + intros x [->|Hx]%elem_of_cons; [lia|by apply Hall].
Qed.

Lemma py_max_is_latest t ts : is_latest (py_max t ts) (t :: ts).
Proof.
  unfold is_latest, py_max.
  destruct (foldl_max_bounds ts t) as (Hmem & Hle & Hall). split.
  - destruct Hmem as [->|Hin]; [left|by right].
  - intros x [->|Hx]%elem_of_cons; [done|by apply Hall].
Qed.

Lemma omap_no_fetch evs :
  Forall no_fetch evs → omap fetch_lower_bound evs = [].
Proof.
  induction 1 as [|ev evs Hev _ IH]; [done|].
  simpl. unfold no_fetch in Hev. by rewrite Hev.
Qed.

Lemma prefix_events_lower_bound db job_id user_id full_sync creds :
  omap fetch_lower_bound
    (prefix_events env db job_id user_id full_sync creds)
  = [truthy (modified_since_of env user_id full_sync db)].
Proof. unfold prefix_events, window_events. by destruct full_sync. Qed.

(** C5.  In a run that reaches the fetch there is exactly one notes request,
    and its [modified_since] parameter is: absent in a full sync; absent in
    an incremental sync of a user who has no row in [sync_state]; otherwise
    the ISO form of the [last_synced_at] of one of the user's rows, which no
    other row of the user exceeds. *)
Theorem fetch_lower_bound_is_latest_sync job_id user_id full_sync w creds :
  sync_jobs (store w) !! job_id = None →
  DatabaseOperations.get_credentials user_id (encryption_service env) (store w)
  = Ok (Some creds) →
  keep_authenticates env →
  ∃ w' r evs bound,
    execute_sync env job_id user_id full_sync w = (w', r)
    ∧ trace w' = trace w ++ evs
    ∧ omap fetch_lower_bound evs = [bound]
    ∧ (full_sync = true → bound = None)
    ∧ (full_sync = false →
       ((∀ row, row ∈ sync_state (store w) →
                SyncState.user_id row ≠ user_id) →
        bound = None)
       ∧ (∀ row, row ∈ sync_state (store w) →
                 SyncState.user_id row = user_id →
          ∃ latest,
            latest ∈ sync_state (store w)
            ∧ SyncState.user_id latest = user_id
            ∧ (∀ other, other ∈ sync_state (store w) →
                        SyncState.user_id other = user_id →
                 (SyncState.last_synced_at other
                  ≤ SyncState.last_synced_at latest)%Z)
            ∧ bound
              = Some (isoformat env (SyncState.last_synced_at latest)))).
Proof.
  intros Hfresh Hcreds Hauth.
  destruct (execute_sync_reaches_fetch env job_id user_id full_sync w creds
              Hfresh Hcreds Hauth)
    as (w4 & r0 & Hrun & _ & _ & _ & _ & Htrace4).
  destruct (no_fetch_after_fetch env job_id user_id full_sync creds r0 w4)
    as (evs2 & Htrace5 & Hquiet).
  rewrite <- Hrun in Htrace5.
  destruct (execute_sync env job_id user_id full_sync w) as [w' r] eqn:Hexec.
  simpl in Htrace5.
  exists w', r, (prefix_events env (store w) job_id user_id full_sync creds
                 ++ evs2), (truthy (modified_since_of env user_id full_sync
                                      (store w))).
  split; [done|]. split; [by rewrite Htrace5, Htrace4, <- app_assoc|].
  split.
  { by rewrite omap_app, prefix_events_lower_bound, omap_no_fetch. }
  unfold modified_since_of, DatabaseOperations.get_sync_state_by_user.
  split; [by intros ->|]. intros ->. simpl.
  set (rows := filter (λ r, SyncState.user_id r = user_id)
                 (sync_state (store w))).
  assert (∀ row, row ∈ rows
                 ↔ row ∈ sync_state (store w) ∧ SyncState.user_id row = user_id)
    as Hrows.
  { intros row. unfold rows. rewrite list_elem_of_filter. tauto. }
  destruct (SyncState.last_synced_at <$> rows) as [|t ts] eqn:Htimes.
  - split; [done|]. intros row Hin Huser.
    assert (SyncState.last_synced_at row ∈ SyncState.last_synced_at <$> rows)
      as Habs by (apply list_elem_of_fmap; exists row; by rewrite Hrows).
    rewrite Htimes in Habs. by apply elem_of_nil in Habs.
  - assert (∀ x, x ∈ t :: ts ↔ ∃ row, row ∈ rows
                                     ∧ SyncState.last_synced_at row = x)
      as Htimes'.
    { intros x. rewrite <- Htimes, list_elem_of_fmap. split.
      - intros (row & -> & Hin). by exists row.
      - intros (row & Hin & <-). by exists row. }
    destruct (py_max_is_latest t ts) as [Hmem Hmax].
    apply Htimes' in Hmem as (latest & Hlatest & Hlast).
    split.
    + intros Hnone. apply Hrows in Hlatest as [Hin Huser].
      by destruct (Hnone latest Hin).
    + intros _ _ _. exists latest. apply Hrows in Hlatest as [Hin Huser].
      split; [done|]. split; [done|]. split.
      * intros other Hother Hu. rewrite Hlast. apply Hmax, Htimes'.
        exists other. by rewrite Hrows.
      * rewrite Hlast. unfold truthy.
        by rewrite decide_False by apply isoformat_nonempty.
Qed.

End Window.

Lemma fetch_lower_bound_is_latest_sync_witness :
  (∃ w' r evs bound,
     SyncOrchestrator.execute_sync quiet_env "job-1" "alice" false
       (world_of alice_synced_store) = (w', r)
     ∧ trace w' = trace (world_of alice_synced_store) ++ evs
     ∧ omap fetch_lower_bound evs = [bound]
     ∧ (false = true → bound = None)
     ∧ (false = false →
        ((∀ row, row ∈ sync_state (store (world_of alice_synced_store)) →
                 SyncState.user_id row ≠ "alice") →
         bound = None)
        ∧ (∀ row, row ∈ sync_state (store (world_of alice_synced_store)) →
                  SyncState.user_id row = "alice" →
           ∃ latest,
             latest ∈ sync_state (store (world_of alice_synced_store))
             ∧ SyncState.user_id latest = "alice"
             ∧ (∀ other,
                  other ∈ sync_state (store (world_of alice_synced_store)) →
                  SyncState.user_id other = "alice" →
                  (SyncState.last_synced_at other
                   ≤ SyncState.last_synced_at latest)%Z)
             ∧ bound
               = Some (isoformat quiet_env
                         (SyncState.last_synced_at latest)))))
  ∧ SyncState.last_synced_at <$> sync_state alice_synced_store = [200; 300]
  ∧ omap fetch_lower_bound
      (trace (SyncOrchestrator.execute_sync quiet_env "job-1" "alice" false
                (world_of alice_synced_store)).1)
    = [Some (isoformat quiet_env 300)].
Proof.
  split; [|split; vm_compute; reflexivity].
  apply (fetch_lower_bound_is_latest_sync quiet_env "job-1" "alice" false
           (world_of alice_synced_store) alice_credentials).
  - vm_compute. reflexivity.
  - vm_compute. reflexivity.
  - apply sample_env_authenticates.
Defined.

(** ** The order of the status writes of a run *)



Section StatusOrder.
Context (env : Env) (job_id : UUID).
Import SyncOrchestrator.





End StatusOrder.

Section StatusOrder2.
Context (env : Env) (job_id : UUID).
Import SyncOrchestrator.










End StatusOrder2.


(** ** The note loop, note by note *)

Ltac jobs_same_leaf :=
  first
    [ apply jobs_same_store; intros ?; reflexivity
    | apply jobs_same_db_call; intros db;
      unfold DatabaseOperations.get_sync_state_by_user; by simpl
    | apply jobs_same_db_call_raising; intros db;
      unfold DatabaseOperations.add_sync_log,
        DatabaseOperations.upsert_sync_state;
      repeat case_match; by simpl ].

Ltac jobs_same_auto :=
  unfold_services; repeat first [ stable_step | jobs_same_leaf ].

Lemma stored_rows_rows_of user_id note_id db :
  stored_rows user_id note_id db = rows_of user_id note_id db.
Proof. reflexivity. Qed.

Lemma sink_outcomes_app env h evs1 evs2 :
  sink_outcomes env h (evs1 ++ evs2)
  = sink_outcomes env h evs1 ++ sink_outcomes env (h ++ evs1) evs2.
Proof.
  revert h. induction evs1 as [|ev evs1 IH]; intros h; simpl.
  - by rewrite app_nil_r.
  - by rewrite IH, <- !app_assoc.
Qed.

Lemma upsert_sync_state_pages_fit t1 t2 user note page modified db :
  pages_fit db →
  fits_column 255 page →
  pages_fit (DatabaseOperations.upsert_sync_state t1 t2 user note page modified
               db).1.
Proof.
  unfold pages_fit, DatabaseOperations.upsert_sync_state. intros Hfit Hpage.
  cbn [fst sync_state with_sync_state]. case_match.
  - apply Forall_fmap. eapply Forall_impl; [exact Hfit|].
    intros r Hr. simpl. by case_match.
  - apply Forall_app. split; [done|]. by apply Forall_singleton.
Qed.

Section NoteByNote.
Context (env : Env).
Context (job_id : UUID) (user_id notion_token notion_database_id : string).
Import SyncOrchestrator.

Lemma jobs_same_process_note note :
  stable jobs_same
    (_process_note env job_id user_id note notion_token notion_database_id).
Proof. jobs_same_auto. Qed.

Lemma note_payload_run note p w :
  payload_of note = Some p → note_payload note w = (w, Ok p).
Proof.
  unfold payload_of, note_payload. destruct note as [i t c ca m l im]. simpl.
  destruct t, c, ca, l, im; try done. by intros [= <-].
Qed.

Lemma accepted_page_run expected msg (resp : Response PageData) w :
  ∃ e,
    (if decide (status_code resp ≠ expected)
     then raise (Exception (msg +:+ text resp))
     else do result <- response_json resp;
          getitem "page_id" (page_id result)) w
    = (w, match accepted_page expected (Ok resp) with
          | Some page => Ok page
          | None => Raise e
          end).
Proof.
  unfold accepted_page.
  destruct (decide (status_code resp ≠ expected)) as [Hne|Heq].
  - rewrite decide_False by done. by eexists.
  - apply dec_stable in Heq. rewrite decide_True by done.
    unfold bind, response_json, getitem.
    destruct (json resp) as [body|]; simpl; [|by eexists].
    destruct (page_id body); [by exists (KeyError "page_id")|by eexists].
Qed.

(** The sink call for a note: one request, for the note's payload; it
    raises when the request fails and returns the page id, which fits its
    column, when the page is accepted. *)
Lemma sink_call_run note p (existing : option SyncState.t) w :
  payload_of note = Some p →
  writer_answers_fit env →
  (∀ row, existing = Some row →
          fits_column 255 (SyncState.notion_page_id row)) →
  ∃ ev r b,
    match existing with
    | Some existing => update_existing_page env note existing notion_token
    | None => create_new_page env note notion_token notion_database_id
    end w
    = ({| store := store w; clock := clock w; trace := trace w ++ [ev] |}, r)
    ∧ is_sink_call ev = true
    ∧ upserted_note ev = None
    ∧ request_note ev = Some p
    ∧ sink_failed env (trace w) ev = Some b
    ∧ (b = true → ∃ e, r = Raise e)
    ∧ (b = false → ∃ page, r = Ok page ∧ fits_column 255 page).
Proof.
  intros Hp [Hpost Hpatch] Hexisting.
  destruct existing as [existing|].
  - unfold update_existing_page.
    erewrite bind_ok by (by apply note_payload_run).
    unfold bind at 1, notion_patch.
    pose proof (Hpatch (trace w) (SyncState.notion_page_id existing)
                  {| update_api_token := notion_token; update_note := p |}
                  (Hexisting existing eq_refl)) as Hfit.
    unfold answer_storable in Hfit.
    destruct (notion_client_patch env (trace w) _ _) as [resp|e] eqn:Hans.
    + edestruct (accepted_page_run 200 "Failed to update Notion page: " resp)
        as [e ->].
      destruct (accepted_page 200 (Ok resp)) as [page|] eqn:Hacc.
      * eexists _, _, false. split; [done|]. split; [done|]. split; [done|].
        split; [done|]. split; [simpl; by rewrite Hans, Hacc|].
        split; [done|]. intros _. by eexists.
      * eexists _, _, true. split; [done|]. split; [done|]. split; [done|].
        split; [done|]. split; [simpl; by rewrite Hans, Hacc|].
        split; [by eexists|done].
    + eexists _, _, true. split; [done|]. split; [done|]. split; [done|].
      split; [done|]. split; [simpl; by rewrite Hans|].
      split; [by eexists|done].
  - unfold create_new_page.
    erewrite bind_ok by (by apply note_payload_run).
    unfold bind at 1, notion_post.
    pose proof (Hpost (trace w)
                  {| create_api_token := notion_token;
                     create_database_id := notion_database_id;
                     create_note := p |}) as Hfit.
    unfold answer_storable in Hfit.
    destruct (notion_client_post env (trace w) _) as [resp|e] eqn:Hans.
    + edestruct (accepted_page_run 201 "Failed to create Notion page: " resp)
        as [e ->].
      destruct (accepted_page 201 (Ok resp)) as [page|] eqn:Hacc.
      * eexists _, _, false. split; [done|]. split; [done|]. split; [done|].
        split; [done|]. split; [simpl; by rewrite Hans, Hacc|].
        split; [done|]. intros _. by eexists.
      * eexists _, _, true. split; [done|]. split; [done|]. split; [done|].
        split; [done|]. split; [simpl; by rewrite Hans, Hacc|].
        split; [by eexists|done].
    + eexists _, _, true. split; [done|]. split; [done|]. split; [done|].
      split; [done|]. split; [simpl; by rewrite Hans|].
      split; [by eexists|done].
Qed.

Lemma get_sync_record_run note_id w :
  unique_sync_state (store w) →
  ∃ existing,
    db_ops.get_sync_record user_id note_id w
    = ({| store := store w; clock := clock w;
          trace := trace w ++ [Db (GetSyncRecord user_id note_id)] |},
       Ok existing).
Proof.
  intros Hnd. unfold db_ops.get_sync_record, db_call_raising,
    DatabaseOperations.get_sync_record.
  pose proof (filter_same_note_unique user_id note_id _ Hnd) as Hlen.
  destruct (filter _ (sync_state (store w))) as [|r [|r' l]];
    [by eexists|by eexists|simpl in Hlen; lia].
Qed.

(** What the lookup returns, on the rows of the table. *)
Lemma get_sync_record_rows note_id w existing w' :
  db_ops.get_sync_record user_id note_id w = (w', Ok existing) →
  stored_rows user_id note_id (store w) = option_list existing.
Proof.
  unfold db_ops.get_sync_record, db_call_raising,
    DatabaseOperations.get_sync_record.
  rewrite stored_rows_rows_of. unfold rows_of.
  destruct (filter _ (sync_state (store w))) as [|r [|r' l]];
    intros [= _ <-]; done.
Qed.

Lemma upsert_sync_state_result t1 t2 note_id page modified db :
  unique_sync_state db →
  ∃ row,
    (DatabaseOperations.upsert_sync_state t1 t2 user_id note_id page modified
       db).2 = Ok (Some row).
Proof.
  intros Hnd.
  destruct (upsert_sync_state_rows t1 t2 user_id note_id page modified db Hnd)
    as (row & Hrows & _).
  exists row. unfold rows_of, DatabaseOperations.upsert_sync_state in *.
  simpl in *. unfold DatabaseOperations.get_sync_record. simpl.
  by rewrite Hrows.
Qed.

Lemma upsert_sync_state_run note_id page modified w :
  unique_sync_state (store w) →
  ∃ row,
    db_ops.upsert_sync_state env user_id note_id page modified w
    = ({| store :=
            (DatabaseOperations.upsert_sync_state (utcnow env (clock w))
               (utcnow env (S (clock w))) user_id note_id page modified
               (store w)).1;
          clock := S (S (clock w));
          trace := trace w
                   ++ [Db (UpsertSyncState user_id note_id page modified)] |},
       Ok (Some row)).
Proof.
  intros Hnd.
  destruct (upsert_sync_state_result (utcnow env (clock w))
              (utcnow env (S (clock w))) note_id page modified (store w) Hnd)
    as (row & Hres).
  exists row. unfold db_ops.upsert_sync_state, bind, now, db_call_raising.
  cbn [store clock trace].
  destruct (DatabaseOperations.upsert_sync_state _ _ _ _ _ _ _) as [db' r].
  simpl in Hres. by rewrite Hres.
Qed.

End NoteByNote.

Section NoteByNote2.
Context (env : Env).
Context (job_id : UUID) (user_id notion_token notion_database_id : string).
Import SyncOrchestrator.

Lemma _process_note_run note note_id p w j :
  Note.id note = Some note_id →
  payload_of note = Some p →
  modified_at_parses env note →
  writer_answers_fit env →
  unique_sync_state (store w) →
  pages_fit (store w) →
  sync_jobs (store w) !! job_id = Some j →
  ∃ w1 res evs (b : bool),
    _process_note env job_id user_id note notion_token notion_database_id w
    = (w1, Ok res)
    ∧ result_status res = (if b then "failed" else "success")
    ∧ trace w1 = trace w ++ evs
    ∧ sink_outcomes env (trace w) evs = [b]
    ∧ omap request_note evs = [p]
    ∧ omap upserted_note evs = (if b then [] else [(user_id, note_id)])
    ∧ length (filter is_sink_call evs) = 1%nat
    ∧ (if b then sync_state (store w1) = sync_state (store w)
       else upserted_from user_id note_id (store w) (store w1))
    ∧ pages_fit (store w1).
Proof.
  intros Hid Hp Hmod Hwriter Hnd Hfit Hj. unfold _process_note. rewrite Hid.
  erewrite bind_ok by reflexivity.
  destruct (get_sync_record_run user_id note_id w Hnd) as (existing & Hrec).
  pose proof (get_sync_record_rows user_id note_id w existing _ Hrec) as Hrows.
  match type of Hrec with _ = (?w0, _) => set (w2 := w0) in Hrec end.
  assert (∀ row, existing = Some row →
                 fits_column 255 (SyncState.notion_page_id row)) as Hrow.
  { intros row ->. simpl in Hrows.
    assert (row ∈ stored_rows user_id note_id (store w)) as Hin
      by (rewrite Hrows; apply list_elem_of_singleton; done).
    apply list_elem_of_filter in Hin as [_ Hin].
    unfold pages_fit in Hfit. rewrite Forall_forall in Hfit. by apply Hfit. }
  destruct (sink_call_run env notion_token notion_database_id note p
              existing w2 Hp Hwriter Hrow)
    as (ev & r & b & Hcall & Hev & Hup & Hreq & Hout & Hfail & Hok).
  match type of Hcall with _ = (?w0, _) => set (w3 := w0) in Hcall end.
  subst w2. cbn [trace] in Hout.
  destruct b.
  - destruct (Hfail eq_refl) as [e ->].
    erewrite try_except_raise.
    2:{ erewrite bind_ok by exact Hrec. apply bind_raise. exact Hcall. }
    erewrite bind_ok by (eapply add_sync_log_run; exact Hj).
    eexists _, _, _, true. split; [done|]. split; [done|].
    subst w3. cbn [trace store].
    split; [by rewrite <- !app_assoc|]. simpl. rewrite Hup, Hout, Hreq.
    split; [done|]. split; [done|]. split; [done|]. split; [|done].
    by rewrite !filter_cons, Hev.
  - destruct (Hok eq_refl) as (page & -> & Hpage).
    destruct Hmod as (s & Hs & [d Hd]).
    destruct (upsert_sync_state_run env user_id note_id page d w3 Hnd)
      as (row & Hupsert).
    match type of Hupsert with _ = (?w0, _) => set (w4 := w0) in Hupsert end.
    assert (sync_jobs (store w4) !! job_id = Some j) as Hj4.
    { subst w4. cbn [store]. unfold DatabaseOperations.upsert_sync_state.
      by simpl. }
    erewrite try_except_ok.
    2:{ erewrite bind_ok by exact Hrec. erewrite bind_ok by exact Hcall.
        rewrite Hs. erewrite bind_ok by reflexivity.
        unfold parse_modified_at. rewrite Hd. erewrite bind_ok by reflexivity.
        erewrite bind_ok by exact Hupsert.
        erewrite bind_ok by (eapply add_sync_log_run; exact Hj4).
        reflexivity. }
    eexists _, _, _, false. split; [done|]. split; [done|].
    subst w4 w3. cbn [trace store].
    split; [by rewrite <- !app_assoc|]. simpl. rewrite Hup, Hout, Hreq.
    split; [done|]. split; [done|]. split; [done|].
    split; [by rewrite !filter_cons, Hev|].
    split; [by eexists _, _, _, _|].
    by apply (upsert_sync_state_pages_fit _ _ _ _ _ _ (store w)).
Qed.

End NoteByNote2.

Section NoteByNote3.
Context (env : Env).
Context (job_id : UUID) (user_id notion_token notion_database_id : string).
Import SyncOrchestrator.

(** What one upsert does to the rows, seen from any later store with the
    same [sync_state] table. *)
Lemma upserted_from_rows note_id db db' :
  upserted_from user_id note_id db db' →
  unique_sync_state db →
  unique_sync_state db'
  ∧ (∃ row, rows_of user_id note_id db' = [row])
  ∧ (∀ u k, (u, k) ≠ (user_id, note_id) → rows_of u k db' = rows_of u k db).
Proof.
  intros (t1 & t2 & page & modified & Heq) Hnd.
  unfold unique_sync_state, rows_of. rewrite Heq. split; [|split].
  - by apply upsert_sync_state_unique.
  - destruct (upsert_sync_state_rows t1 t2 user_id note_id page modified db
                Hnd) as (row & Hrow & _). by exists row.
  - intros u k Hne. by apply upsert_sync_state_other.
Qed.

Lemma process_one_run acc note p w j :
  note_record env note →
  payload_of note = Some p →
  writer_answers_fit env →
  unique_sync_state (store w) →
  pages_fit (store w) →
  sync_jobs (store w) !! job_id = Some j →
  ∃ w' acc' evs (b : bool),
    process_one env job_id user_id notion_token notion_database_id acc note w
    = (w', Ok acc')
    ∧ processed_count acc'
      = (processed_count acc + (if b then 0 else 1))%Z
    ∧ failed_count acc'
      = (failed_count acc + (if b then 1 else 0))%Z
    ∧ sync_jobs (store w') !! job_id
      = Some (DatabaseOperations.add_progress
                (if b then 0 else 1) (if b then 1 else 0) j)
    ∧ credentials (store w') = credentials (store w)
    ∧ trace w' = trace w ++ evs
    ∧ sink_outcomes env (trace w) evs = [b]
    ∧ omap request_note evs = [p]
    ∧ omap upserted_note evs = (if b then [] else [state_key user_id note])
    ∧ length (filter is_sink_call evs) = 1%nat
    ∧ (if b then sync_state (store w') = sync_state (store w)
       else upserted_from user_id (default "" (Note.id note)) (store w)
              (store w'))
    ∧ pages_fit (store w').
Proof.
  intros ((note_id & Hid & _) & _ & Hmod) Hp Hwriter Hnd Hfit Hj.
  unfold state_key. rewrite Hid. simpl.
  destruct (_process_note_run env job_id user_id notion_token
              notion_database_id note note_id p w j Hid Hp Hmod Hwriter Hnd
              Hfit Hj)
    as (w1 & res & evs1 & b & Hrun & Hstatus & Htrace1 & Hout & Hreq & Hups
        & Hcalls & Hstate & Hfit1).
  pose proof (jobs_same_process_note env job_id user_id notion_token
                notion_database_id note w) as [Hjobs1 Hcred1].
  rewrite Hrun in Hjobs1, Hcred1. simpl in Hjobs1, Hcred1.
  assert (sync_jobs (store w1) !! job_id = Some j) as Hj1 by by rewrite Hjobs1.
  unfold process_one.
  erewrite try_except_ok.
  2:{ erewrite bind_ok by exact Hrun.
      erewrite bind_ok by (apply increment_sync_job_progress_run; exact Hj1).
      reflexivity. }
  rewrite Hstatus.
  destruct b; simpl.
  - eexists _, _, _, true. split; [done|]. cbn [processed_count failed_count
      store trace sync_jobs credentials sync_state with_sync_jobs].
    rewrite lookup_insert_eq, Htrace1, <- app_assoc.
    repeat split;
      first [ done | lia | by rewrite omap_app, Hups
            | by rewrite omap_app, Hreq
            | by rewrite sink_outcomes_app, Hout
            | by rewrite filter_app, length_app, Hcalls ].
  - eexists _, _, _, false. split; [done|]. cbn [processed_count failed_count
      store trace sync_jobs credentials sync_state with_sync_jobs].
    rewrite lookup_insert_eq, Htrace1, <- app_assoc.
    repeat split;
      first [ done | lia | by rewrite omap_app, Hups
            | by rewrite omap_app, Hreq
            | by rewrite sink_outcomes_app, Hout
            | by rewrite filter_app, length_app, Hcalls ].
Qed.

End NoteByNote3.

Lemma add_progress_zero j : DatabaseOperations.add_progress 0 0 j = j.
Proof.
  destruct j. unfold DatabaseOperations.add_progress. simpl.
  by rewrite !Z.add_0_r.
Qed.

Lemma add_progress_add a b c d j :
  DatabaseOperations.add_progress c d (DatabaseOperations.add_progress a b j)
  = DatabaseOperations.add_progress (a + c) (b + d) j.
Proof.
  unfold DatabaseOperations.add_progress. simpl. by rewrite !Z.add_assoc.
Qed.

Lemma succeeded_notes_of_cons (b : bool) outcomes note notes :
  succeeded_notes_of (b :: outcomes) (note :: notes)
  = if b then succeeded_notes_of outcomes notes
    else note :: succeeded_notes_of outcomes notes.
Proof. by destruct b. Qed.

Lemma failed_notes_of_cons (b : bool) outcomes note notes :
  failed_notes_of (b :: outcomes) (note :: notes)
  = if b then note :: failed_notes_of outcomes notes
    else failed_notes_of outcomes notes.
Proof. by destruct b. Qed.

Lemma succeeded_failed_length notes : ∀ outcomes,
  length outcomes = length notes →
  (length (succeeded_notes_of outcomes notes)
   + length (failed_notes_of outcomes notes))%nat
  = length notes.
Proof.
  induction notes as [|note notes IH]; intros [|b outcomes] Hlen;
    try done.
  rewrite succeeded_notes_of_cons, failed_notes_of_cons.
  injection Hlen as Hlen. specialize (IH outcomes Hlen).
  destruct b; simpl; lia.
Qed.

Section NoteByNote4.
Context (env : Env).
Context (job_id : UUID) (user_id notion_token notion_database_id : string).
Import SyncOrchestrator.

Lemma process_notes_run notes : ∀ acc w j,
  Forall (note_record env) notes →
  writer_answers_fit env →
  unique_sync_state (store w) →
  pages_fit (store w) →
  sync_jobs (store w) !! job_id = Some j →
  ∃ w' acc' evs outcomes,
    process_notes env job_id user_id notion_token notion_database_id notes
      acc w = (w', Ok acc')
    ∧ sink_outcomes env (trace w) evs = outcomes
    ∧ length outcomes = length notes
    ∧ omap request_note evs = omap payload_of notes
    ∧ processed_count acc'
      = (processed_count acc
         + Z.of_nat (length (succeeded_notes_of outcomes notes)))%Z
    ∧ failed_count acc'
      = (failed_count acc
         + Z.of_nat (length (failed_notes_of outcomes notes)))%Z
    ∧ sync_jobs (store w') !! job_id
      = Some (DatabaseOperations.add_progress
                (Z.of_nat (length (succeeded_notes_of outcomes notes)))
                (Z.of_nat (length (failed_notes_of outcomes notes))) j)
    ∧ credentials (store w') = credentials (store w)
    ∧ trace w' = trace w ++ evs
    ∧ omap upserted_note evs
      = state_key user_id <$> succeeded_notes_of outcomes notes
    ∧ length (filter is_sink_call evs) = length notes
    ∧ unique_sync_state (store w')
    ∧ (∀ n, n ∈ succeeded_notes_of outcomes notes →
            ∃ row, rows_of user_id (default "" (Note.id n)) (store w') = [row])
    ∧ (∀ u k, (u, k) ∉ state_key user_id <$> succeeded_notes_of outcomes notes →
              rows_of u k (store w') = rows_of u k (store w))
    ∧ (∀ u k row0, rows_of u k (store w) = [row0] →
                   ∃ row, rows_of u k (store w') = [row]).
Proof.
  induction notes as [|note notes IH]; intros acc w j Hrec Hwriter Hnd Hfit Hj.
  - exists w, acc, [], []. simpl. rewrite add_progress_zero, app_nil_r.
    repeat split; try done; try lia.
    + intros n Hn. by apply elem_of_nil in Hn.
    + intros u k row0 Hrow. by exists row0.
  - apply Forall_cons in Hrec as [Hrec1 Hrec].
    destruct (Hrec1) as (_ & [p Hp] & _).
    destruct (process_one_run env job_id user_id notion_token
                notion_database_id acc note p w j Hrec1 Hp Hwriter Hnd Hfit Hj)
      as (w1 & acc1 & evs1 & b & Hone & Hproc1 & Hfail1 & Hj1 & Hcred1
          & Htrace1 & Hout1 & Hreq1 & Hups1 & Hcalls1 & Hstate1 & Hfit1).
    assert (unique_sync_state (store w1)
            ∧ (b = false →
               ∃ row, rows_of user_id (default "" (Note.id note)) (store w1)
                      = [row])
            ∧ (∀ u k, (b = false → (u, k) ≠ state_key user_id note) →
                      rows_of u k (store w1) = rows_of u k (store w)))
      as (Hnd1 & Hrow1 & Hother1).
    { revert Hstate1. destruct b; intros Hstate1.
      - unfold unique_sync_state, rows_of. rewrite Hstate1.
        split; [done|]. split; [done|]. done.
      - destruct (upserted_from_rows user_id _ _ _ Hstate1 Hnd)
          as (Hnd1 & Hrow1 & Hother1).
        split; [done|]. split; [done|]. intros u k Hne. by apply Hother1, Hne. }
    destruct (IH acc1 w1 _ Hrec Hwriter Hnd1 Hfit1 Hj1)
      as (w' & acc' & evs2 & outcomes & Hrun & Hout & Hlen & Hreq & Hproc
          & Hfail & Hj' & Hcred & Htrace & Hups & Hcalls & Hnd' & Hrows
          & Hothers & Hkeep).
    exists w', acc', (evs1 ++ evs2), (b :: outcomes).
    split; [simpl; by erewrite bind_ok by exact Hone|].
    split; [by rewrite sink_outcomes_app, Hout1, <- Htrace1, Hout|].
    split; [simpl; by rewrite Hlen|].
    split; [by rewrite omap_app, Hreq1, Hreq; simpl; rewrite Hp|].
    rewrite succeeded_notes_of_cons, failed_notes_of_cons.
    rewrite Hproc, Hfail, Hproc1, Hfail1, Hj', add_progress_add, Hcred, Hcred1,
      Htrace, Htrace1, <- app_assoc, omap_app, Hups1, Hups, filter_app,
      length_app, Hcalls1, Hcalls.
    assert (∀ u k row0, rows_of u k (store w) = [row0] →
                        ∃ row, rows_of u k (store w') = [row]) as Hkeep'.
    { intros u k row0 Hrow0.
      destruct (decide (b = false
                        ∧ (u, k) = state_key user_id note)) as [[Hok Heq]|Hno].
      - destruct (Hrow1 Hok) as [row Hrow].
        unfold state_key in Heq. injection Heq as -> ->. by eapply Hkeep.
      - eapply Hkeep. rewrite Hother1; [exact Hrow0|].
        intros Hok Heq. by apply Hno. }
    destruct b; simpl.
    + repeat split; try done; try lia; try (do 2 f_equal; lia).
      intros u k Hnot. rewrite Hothers by done. by apply Hother1.
    + repeat split; try done; try lia; try (do 2 f_equal; lia).
      * intros n [->|Hn]%elem_of_cons; [|by apply Hrows].
        destruct (Hrow1 eq_refl) as [row Hrow]. by eapply Hkeep.
      * intros u k Hnot. apply not_elem_of_cons in Hnot as [Hne Hnot].
        rewrite Hothers by done. apply Hother1. by intros _.
Qed.

End NoteByNote4.

Section PartialFailure.
Context (env : Env).
Import SyncOrchestrator.

Lemma prefix_events_no_upsert db job_id user_id full_sync creds :
  omap upserted_note (prefix_events env db job_id user_id full_sync creds) = []
  ∧ filter is_sink_call (prefix_events env db job_id user_id full_sync creds)
    = [].
Proof. unfold prefix_events, window_events. by destruct full_sync. Qed.

Lemma sink_outcomes_quiet h evs :
  omap request_note evs = [] → sink_outcomes env h evs = [].
Proof.
  revert h. induction evs as [|ev evs IH]; intros h; [done|].
  simpl. destruct ev; simpl; try done; by apply IH.
Qed.

Lemma prefix_events_no_request db job_id user_id full_sync creds :
  omap request_note (prefix_events env db job_id user_id full_sync creds) = [].
Proof. unfold prefix_events, window_events. by destruct full_sync. Qed.

(** C1.  The fetch returns the notes [keep_notes], each a note record as
    the note source emits them, and what the run writes fits its columns.
    Then the run completes and sends the Notion writer one request per
    note, in the order of the notes, hence none when [N = 0].  Whatever the
    writer answers, with [F] the notes whose request failed (the writer
    raised, or did not answer with an accepted page) the job row and the
    summary have [total_notes = N], [processed_notes = N - |F|] and
    [failed_notes = |F|]; [upsert_sync_state] is called for exactly the
    notes outside F, in order, each of which then has one [SyncState] row,
    and no other pair's rows change. *)
Theorem execute_sync_partial_failure job_id user_id full_sync w creds
    keep_notes :
  sync_jobs (store w) !! job_id = None →
  DatabaseOperations.get_credentials user_id (encryption_service env) (store w)
  = Ok (Some creds) →
  unique_sync_state (store w) →
  pages_fit (store w) →
  fits_column 255 user_id →
  keep_authenticates env →
  keep_returns env {| notes := Some keep_notes |} →
  Forall (note_record env) keep_notes →
  writer_answers_fit env →
  let N := Z.of_nat (length keep_notes) in
  ∃ w' j evs,
    let outcomes := sink_outcomes env (trace w) evs in
    let F := failed_notes_of outcomes keep_notes in
    let succeeded := succeeded_notes_of outcomes keep_notes in
    let nF := Z.of_nat (length F) in
    execute_sync env job_id user_id full_sync w
    = (w', Ok {| sync_job_id := job_id; sync_status := "completed";
                 sync_summary :=
                   Some {| summary_total_notes := N;
                           summary_processed_notes := (N - nF)%Z;
                           summary_failed_notes := nF |};
                 sync_error := None |})
    ∧ trace w' = trace w ++ evs
    ∧ omap request_note evs = omap payload_of keep_notes
    ∧ length (filter is_sink_call evs) = length keep_notes
    ∧ length outcomes = length keep_notes
    ∧ sync_jobs (store w') !! job_id = Some j
    ∧ SyncJob.status j = "completed"
    ∧ SyncJob.total_notes j = N
    ∧ SyncJob.processed_notes j = (N - nF)%Z
    ∧ SyncJob.failed_notes j = nF
    ∧ omap upserted_note evs = state_key user_id <$> succeeded
    ∧ (∀ n, n ∈ succeeded →
            ∃ row, stored_rows user_id (default "" (Note.id n)) (store w')
                   = [row])
    ∧ (∀ u k, (u, k) ∉ state_key user_id <$> succeeded →
              stored_rows u k (store w') = stored_rows u k (store w)).
Proof.
  intros Hfresh Hcreds Hnd Hfit _ Hauth Hget Hrec Hwriter N.
  destruct (execute_sync_reaches_sync_notes env job_id user_id full_sync w
              creds _ Hfresh Hcreds Hauth Hget)
    as (w4 & Hrun & Hjobs4 & Hstate4 & Hcred4 & Htrace4).
  simpl in Hrun.
  assert (sync_jobs (store w4) !! job_id
          = Some (started_job (utcnow env (clock w)) job_id user_id full_sync))
    as Hj4 by (rewrite Hjobs4; apply lookup_insert_eq).
  pose proof (update_sync_job_run job_id
                (JobUpdate.mk None (Some N) None None None None) w4 _ Hj4)
    as Hrun5.
  match type of Hrun5 with _ = (?w0, _) => set (w5 := w0) in Hrun5 end.
  assert (is_Some (sync_jobs (store w5) !! job_id)) as [j5 Hj5]
    by (eexists; apply lookup_insert_eq).
  pose proof (add_sync_log_run env job_id "INFO"
                ("Fetched " +:+ pretty N +:+ " notes from Keep") None w5 _ Hj5)
    as Hrun6.
  match type of Hrun6 with _ = (?w0, _) => set (w6 := w0) in Hrun6 end.
  assert (sync_jobs (store w6) !! job_id
          = Some (DatabaseOperations.apply_job_update
                    (JobUpdate.mk None (Some N) None None None None)
                    (started_job (utcnow env (clock w)) job_id user_id
                       full_sync)))
    as Hj6 by apply lookup_insert_eq.
  assert (sync_state (store w6) = sync_state (store w)) as Hstate6 by done.
  assert (unique_sync_state (store w6)) as Hnd6
    by (unfold unique_sync_state; by rewrite Hstate6).
  assert (pages_fit (store w6)) as Hfit6
    by (unfold pages_fit; by rewrite Hstate6).
  destruct (prefix_events_no_upsert (store w) job_id user_id full_sync creds)
    as [Hpre1 Hpre2].
  pose proof (prefix_events_no_request (store w) job_id user_id full_sync
                creds) as Hpre3.
  destruct (process_notes_run env job_id user_id
              (CredentialsDict.notion_api_token creds)
              (CredentialsDict.notion_database_id creds) keep_notes
              {| processed_count := 0; failed_count := 0; results := [] |}
              w6 _ Hrec Hwriter Hnd6 Hfit6 Hj6)
    as (w7 & acc & evs7 & outcomes & Hrun7 & Hout7 & Hlen7 & Hreq7 & Hproc
        & Hfail & Hj7 & _ & Htrace7 & Hups7 & Hcalls7 & _ & Hrows7 & Hothers7
        & _).
  destruct (complete_job_run env job_id N acc w7 _ Hj7)
    as (w8 & Hrun8 & Hjobs8 & Hstate8 & _ & Htrace8).
  pose proof (succeeded_failed_length keep_notes outcomes Hlen7) as Hlen.
  set (nF := Z.of_nat (length (failed_notes_of outcomes keep_notes))).
  assert (processed_count acc = (N - nF)%Z) as Hproc'
    by (subst N nF; simpl in Hproc; lia).
  assert (failed_count acc = nF) as Hfail' by (subst nF; simpl in Hfail; lia).
  assert (trace w8
          = trace w
            ++ (prefix_events env (store w) job_id user_id full_sync creds
                ++ [Db (UpdateSyncJob job_id
                          (JobUpdate.mk None (Some N) None None None None));
                    Db (AddSyncLog job_id "INFO"
                          ("Fetched " +:+ pretty N +:+ " notes from Keep")
                          None)]
                ++ evs7
                ++ [Db (UpdateSyncJob job_id
                          (JobUpdate.mk (Some "completed") None None None None
                             (Some (utcnow env (clock w7)))));
                    Db (AddSyncLog job_id "INFO"
                          ("Sync completed: " +:+ pretty (processed_count acc)
                           +:+ " processed, " +:+ pretty (failed_count acc)
                           +:+ " failed") None)])) as Htrace.
  { rewrite Htrace8, Htrace7. subst w6 w5. cbn [trace]. rewrite Htrace4.
    rewrite <- !app_assoc. done. }
  match type of Htrace with _ = _ ++ ?e => set (evs := e) in * end.
  assert (sink_outcomes env (trace w) evs = outcomes) as Houts.
  { subst evs.
    rewrite sink_outcomes_app, (sink_outcomes_quiet _ _ Hpre3).
    rewrite sink_outcomes_app. simpl.
    rewrite sink_outcomes_app, (sink_outcomes_quiet _ [_; _]) by done.
    rewrite app_nil_r. rewrite <- Hout7. f_equal.
    subst w6 w5. cbn [trace]. rewrite Htrace4, <- !app_assoc. done. }
  eexists w8, _, evs. cbn zeta. rewrite Houts. fold nF.
  split.
  { rewrite Hrun. apply try_except_ok. unfold sync_notes. fold N.
    erewrite bind_ok by exact Hrun5. erewrite bind_ok by exact Hrun6.
    erewrite bind_ok by exact Hrun7. rewrite Hrun8, Hproc', Hfail'. done. }
  split; [exact Htrace|].
  split.
  { subst evs. rewrite !omap_app, Hpre3, Hreq7. simpl. by rewrite app_nil_r. }
  split.
  { subst evs. rewrite !filter_app, !length_app, Hpre2, Hcalls7. simpl. lia. }
  split; [done|].
  split; [rewrite Hjobs8; apply lookup_insert_eq|].
  split; [done|]. split; [done|].
  split; [simpl; subst N nF; lia|]. split; [simpl; subst nF; lia|].
  split.
  { subst evs. rewrite !omap_app, Hpre1, Hups7. simpl. by rewrite app_nil_r. }
  setoid_rewrite stored_rows_rows_of.
  unfold rows_of in *. rewrite Hstate8. split; [done|].
  intros u k Hnot. rewrite Hothers7 by done. by rewrite Hstate6.
Qed.

End PartialFailure.

Lemma env_first_post_fails_answers : writer_answers_fit env_first_post_fails.
Proof.
  split.
  - intros h req. unfold answer_storable. simpl.
    destruct (decide (filter is_post h = [])); simpl; [reflexivity|].
    split; [simpl; lia|reflexivity].
  - intros h page req Hpage. exact Hpage.
Qed.

Lemma two_notes_records : Forall (note_record env_first_post_fails) two_notes.
Proof.
  apply Forall_cons_2; [|apply Forall_cons_2; [|apply Forall_nil_2]].
  all: split; [eexists; split; [reflexivity|split; [simpl; lia|reflexivity]]|].
  all: split; [by eexists|].
  all: eexists; split; [reflexivity|by eexists].
Qed.

Lemma execute_sync_partial_failure_witness :
  (∃ w' j evs,
     let outcomes := sink_outcomes env_first_post_fails
                       (trace (world_of alice_store)) evs in
     let F := failed_notes_of outcomes two_notes in
     let succeeded := succeeded_notes_of outcomes two_notes in
     let nF := Z.of_nat (length F) in
     SyncOrchestrator.execute_sync env_first_post_fails "job-1" "alice" true
       (world_of alice_store)
     = (w', Ok {| SyncOrchestrator.sync_job_id := "job-1";
                  SyncOrchestrator.sync_status := "completed";
                  SyncOrchestrator.sync_summary :=
                    Some {| SyncOrchestrator.summary_total_notes := 2;
                            SyncOrchestrator.summary_processed_notes :=
                              (2 - nF)%Z;
                            SyncOrchestrator.summary_failed_notes := nF |};
                  SyncOrchestrator.sync_error := None |})
     ∧ trace w' = trace (world_of alice_store) ++ evs
     ∧ omap request_note evs = omap payload_of two_notes
     ∧ length (filter is_sink_call evs) = 2%nat
     ∧ length outcomes = 2%nat
     ∧ sync_jobs (store w') !! "job-1" = Some j
     ∧ SyncJob.status j = "completed"
     ∧ SyncJob.total_notes j = 2
     ∧ SyncJob.processed_notes j = (2 - nF)%Z
     ∧ SyncJob.failed_notes j = nF
     ∧ omap upserted_note evs = state_key "alice" <$> succeeded
     ∧ (∀ n, n ∈ succeeded →
             ∃ row, stored_rows "alice" (default "" (Note.id n)) (store w')
                    = [row])
     ∧ (∀ u k, (u, k) ∉ state_key "alice" <$> succeeded →
               stored_rows u k (store w')
               = stored_rows u k (store (world_of alice_store))))
  ∧ (let out := SyncOrchestrator.execute_sync env_first_post_fails "job-1"
                  "alice" true (world_of alice_store) in
     sink_outcomes env_first_post_fails [] (trace out.1) = [true; false]
     ∧ out.2
       = Ok {| SyncOrchestrator.sync_job_id := "job-1";
               SyncOrchestrator.sync_status := "completed";
               SyncOrchestrator.sync_summary :=
                 Some {| SyncOrchestrator.summary_total_notes := 2;
                         SyncOrchestrator.summary_processed_notes := 1;
                         SyncOrchestrator.summary_failed_notes := 1 |};
               SyncOrchestrator.sync_error := None |}
     ∧ omap upserted_note (trace out.1) = [("alice", "n2")]
     ∧ SyncState.keep_note_id <$> sync_state (store out.1) = ["n2"]).
Proof.
  split; [|vm_compute; repeat split; reflexivity].
  apply (execute_sync_partial_failure env_first_post_fails "job-1" "alice" true
           (world_of alice_store) alice_credentials two_notes).
  - vm_compute. reflexivity.
  - vm_compute. reflexivity.
  - apply NoDup_nil_2.
  - apply Forall_nil_2.
  - split; [simpl; lia|reflexivity].
  - intros h req. by eexists _, _.
  - intros h params. by eexists.
  - apply two_notes_records.
  - apply env_first_post_fails_answers.
Defined.

(** ** The credential methods and the cipher *)

Section Credentials.
Context (svc : EncryptionService).
Import DatabaseOperations.



(** X3.  [delete_credentials] returns [True] exactly when the user had a
    row; afterwards [get_credentials] finds nothing for the user, every
    other user's row is as before, and a second call returns [False] and
    changes nothing. *)
Theorem delete_credentials_removes_row user_id db :
  let db' := (delete_credentials user_id db).1 in
  (delete_credentials user_id db).2
  = bool_decide (is_Some (credentials db !! user_id))
  ∧ get_credentials user_id svc db' = Ok None
  ∧ (∀ other, other ≠ user_id →
       credentials db' !! other = credentials db !! other)
  ∧ delete_credentials user_id db' = (db', false)
  ∧ sync_jobs db' = sync_jobs db
  ∧ sync_state db' = sync_state db.
Proof.
  unfold delete_credentials, get_credentials.
  destruct (credentials db !! user_id) as [c|] eqn:Hc;
    cbn [fst snd credentials with_credentials sync_jobs sync_state].
  - rewrite lookup_delete_eq.
    split; [symmetry; apply bool_decide_eq_true_2; by eexists|].
    split; [done|].
    split; [intros other Hne; by rewrite lookup_delete_ne|done].
  - rewrite Hc.
    split; [symmetry; apply bool_decide_eq_false_2; by intros [? ?]|done].
Qed.

End Credentials.



(** ** Deleting sync state *)

Section DeleteSyncState.
Import DatabaseOperations.

Lemma filter_split_length {A} (P : A → Prop) `{!∀ x, Decision (P x)}
    (l : list A) :
  length l = (length (filter P l) + length (filter (λ x, ¬ P x) l))%nat.
Proof.
  induction l as [|x l IH]; [done|].
  rewrite !filter_cons. destruct (decide (P x)) as [Hx|Hx].
  - rewrite decide_False by (intros Hn; by apply Hn). simpl. lia.
  - rewrite decide_True by done. simpl. lia.
Qed.

Lemma filter_filter_none {A} (P Q : A → Prop) `{!∀ x, Decision (P x)}
    `{!∀ x, Decision (Q x)} (l : list A) :
  (∀ x, Q x → ¬ P x) → filter P (filter Q l) = [].
Proof.
  intros HPQ. apply filter_none. intros x Hx.
  apply list_elem_of_filter in Hx as [HQ _]. by apply HPQ.
Qed.

Lemma filter_filter_same {A} (P Q : A → Prop) `{!∀ x, Decision (P x)}
    `{!∀ x, Decision (Q x)} (l : list A) :
  (∀ x, P x → Q x) → filter P (filter Q l) = filter P l.
Proof.
  intros HPQ. induction l as [|x l IH]; [done|].
  rewrite !filter_cons. destruct (decide (Q x)) as [HQ|HQ].
  - rewrite filter_cons. destruct (decide (P x)); by rewrite IH.
  - rewrite decide_False by (intros HP; by apply HQ, HPQ). done.
Qed.

(** X4.  [delete_sync_state(user_id, keep_note_id)] with a note id that is
    not empty removes the rows of that pair and no other: it returns how
    many rows the pair had, [get_sync_record] then finds none, the rows of
    every other pair are as before, and the other tables are untouched. *)
Theorem delete_sync_state_one_note user_id keep_note_id db :
  keep_note_id ≠ "" →
  let db' := (delete_sync_state user_id (Some keep_note_id) db).1 in
  (delete_sync_state user_id (Some keep_note_id) db).2
  = Z.of_nat (length (rows_of user_id keep_note_id db))
  ∧ get_sync_record user_id keep_note_id db' = Ok None
  ∧ (∀ u k, (u, k) ≠ (user_id, keep_note_id) →
       rows_of u k db' = rows_of u k db)
  ∧ sync_jobs db' = sync_jobs db
  ∧ credentials db' = credentials db.
Proof.
  intros Hne db'. subst db'. unfold delete_sync_state, get_sync_record, rows_of.
  cbn [truthy]. rewrite decide_False by done.
  cbn [fst snd sync_state with_sync_state sync_jobs credentials].
  split.
  { rewrite (filter_split_length (same_note user_id keep_note_id)
               (sync_state db)) at 1. lia. }
  split.
  { rewrite filter_filter_none; [done|]. intros r Hr Hs. by apply Hr. }
  split; [|done].
  intros u k Hpair. apply filter_filter_same.
  intros r [Hu Hk] [Hu' Hk']. apply Hpair. congruence.
Qed.

(** X5.  Without a note id, and also with the empty string as note id
    (the test is [if keep_note_id:]), [delete_sync_state] removes every row
    of the user: it returns how many rows the user had,
    [get_sync_state_by_user] then returns nothing for the user, and the
    rows of every other user are as before. *)
Theorem delete_sync_state_whole_user user_id db :
  let db' := (delete_sync_state user_id None db).1 in
  delete_sync_state user_id (Some "") db = delete_sync_state user_id None db
  ∧ (delete_sync_state user_id None db).2
    = Z.of_nat (length (get_sync_state_by_user user_id db))
  ∧ get_sync_state_by_user user_id db' = []
  ∧ (∀ other, other ≠ user_id →
       get_sync_state_by_user other db' = get_sync_state_by_user other db)
  ∧ sync_jobs db' = sync_jobs db
  ∧ credentials db' = credentials db.
Proof.
  unfold delete_sync_state, get_sync_state_by_user.
  cbn [truthy fst snd sync_state with_sync_state sync_jobs credentials].
  split; [done|]. split.
  { rewrite (filter_split_length (λ r, SyncState.user_id r = user_id)
               (sync_state db)) at 1. lia. }
  split.
  { rewrite filter_filter_none; [done|]. intros r Hr Hs. by apply Hr. }
  split; [|done].
  intros other Hne. apply filter_filter_same.
  intros r Hu Hu'. apply Hne. congruence.
Qed.

End DeleteSyncState.

Lemma delete_sync_state_one_note_witness :
  let db' := (DatabaseOperations.delete_sync_state "alice" (Some "n1")
                alice_synced_store).1 in
  (DatabaseOperations.delete_sync_state "alice" (Some "n1")
     alice_synced_store).2
  = Z.of_nat (length (rows_of "alice" "n1" alice_synced_store))
  ∧ DatabaseOperations.get_sync_record "alice" "n1" db' = Ok None
  ∧ (∀ u k, (u, k) ≠ ("alice", "n1") →
       rows_of u k db' = rows_of u k alice_synced_store)
  ∧ sync_jobs db' = sync_jobs alice_synced_store
  ∧ credentials db' = credentials alice_synced_store.
Proof.
  apply (delete_sync_state_one_note "alice" "n1" alice_synced_store).
  discriminate.
Defined.

(** ** What no sequence of store calls does *)

Section StoreInvariants.
Import DatabaseOperations.

Lemma apply_op_keeps_job op db job_id j :
  sync_jobs db !! job_id = Some j →
  ∃ j', sync_jobs (apply_op op db) !! job_id = Some j' ∧ same_identity j j'.
Proof.
  intros Hj.
  destruct op; simpl;
    unfold upsert_sync_state, delete_sync_state, store_credentials,
      delete_credentials, create_sync_job, update_sync_job,
      increment_sync_job_progress, add_sync_log;
    repeat case_match; simpl; try (by exists j);
    match goal with
    | |- context [<[?k := _]> _ !! job_id] =>
        destruct (decide (k = job_id)) as [->|Hne];
        [rewrite lookup_insert_eq|rewrite lookup_insert_ne by done; by exists j]
    end;
    eexists; (split; [done|]); simplify_eq; by unfold same_identity.
Qed.

(** X6.  No sequence of calls of the writing methods removes a job or
    changes its [job_id], [user_id], [full_sync] or [created_at]: a job
    once created is there afterwards with the same identity, whatever is
    created, updated, counted, logged or deleted in between. *)
Theorem jobs_are_never_deleted ops db job_id j :
  sync_jobs db !! job_id = Some j →
  ∃ j', sync_jobs (run_ops ops db) !! job_id = Some j'
        ∧ SyncJob.job_id j' = SyncJob.job_id j
        ∧ SyncJob.user_id j' = SyncJob.user_id j
        ∧ SyncJob.full_sync j' = SyncJob.full_sync j
        ∧ SyncJob.created_at j' = SyncJob.created_at j.
Proof.
  revert db j. induction ops as [|op ops IH]; intros db j Hj.
  - by exists j.
  - destruct (apply_op_keeps_job op db job_id j Hj)
      as (j1 & Hj1 & Hid1 & Hu1 & Hf1 & Hc1).
    destruct (IH (apply_op op db) j1 Hj1) as (j' & Hj' & Hid & Hu & Hf & Hc).
    exists j'. split; [exact Hj'|]. repeat split; congruence.
Qed.

Lemma apply_op_sync_logs op db :
  logs_reference_jobs db →
  logs_reference_jobs (apply_op op db)
  ∧ sync_logs db `prefix_of` sync_logs (apply_op op db).
Proof.
  intros Hfk.
  assert (∀ db', sync_logs db' = sync_logs db →
                 (∀ k, is_Some (sync_jobs db !! k) →
                       is_Some (sync_jobs db' !! k)) →
                 logs_reference_jobs db'
                 ∧ sync_logs db `prefix_of` sync_logs db') as Hsame.
  { intros db' Hlogs Hjobs. split; [|by rewrite Hlogs].
    intros log Hin. rewrite Hlogs in Hin. by apply Hjobs, Hfk. }
  destruct op; cbn [apply_op].
  - by apply Hsame.
  - by apply Hsame.
  - by apply Hsame.
  - apply Hsame; unfold delete_credentials;
      by destruct (credentials db !! _).
  - apply Hsame; unfold create_sync_job;
      destruct (sync_jobs db !! job_id) eqn:Hj; try done.
    simpl. intros k Hk. apply lookup_insert_is_Some'. by right.
  - apply Hsame; unfold update_sync_job;
      destruct (sync_jobs db !! job_id) eqn:Hj; try done.
    simpl. intros k Hk. apply lookup_insert_is_Some'. by right.
  - apply Hsame; unfold increment_sync_job_progress;
      destruct (sync_jobs db !! job_id) eqn:Hj; try done.
    simpl. intros k Hk. apply lookup_insert_is_Some'. by right.
  - unfold add_sync_log. destruct (sync_jobs db !! job_id) eqn:Hj.
    + cbn [fst]. split; [|by apply prefix_app_r].
      intros log [Hin|Hin%list_elem_of_singleton]%elem_of_app.
      * by apply Hfk.
      * subst log. simpl. by rewrite Hj.
    + by apply Hsame.
Qed.

(** X7.  The log of a store only grows, and its foreign key holds: over
    any sequence of calls of the writing methods the rows of [sync_logs]
    that were there stay, in place and unchanged, and every row names a
    job that exists; [add_sync_log] for a job that does not exist adds no
    row. *)
Theorem sync_logs_append_only ops db :
  logs_reference_jobs db →
  logs_reference_jobs (run_ops ops db)
  ∧ sync_logs db `prefix_of` sync_logs (run_ops ops db).
Proof.
  revert db. induction ops as [|op ops IH]; intros db Hfk; [done|].
  destruct (apply_op_sync_logs op db Hfk) as [Hfk1 Hpre1].
  destruct (IH (apply_op op db) Hfk1) as [Hfk2 Hpre2].
  split; [exact Hfk2|]. by etrans.
Qed.

End StoreInvariants.

Lemma jobs_are_never_deleted_witness :
  ∃ j', sync_jobs (run_ops sample_ops (store_with_job queued_job)) !! "job-1"
        = Some j'
        ∧ SyncJob.job_id j' = SyncJob.job_id queued_job
        ∧ SyncJob.user_id j' = SyncJob.user_id queued_job
        ∧ SyncJob.full_sync j' = SyncJob.full_sync queued_job
        ∧ SyncJob.created_at j' = SyncJob.created_at queued_job.
Proof.
  apply (jobs_are_never_deleted sample_ops (store_with_job queued_job)
           "job-1" queued_job).
  reflexivity.
Defined.

Lemma sync_logs_append_only_witness :
  logs_reference_jobs (run_ops sample_ops (store_with_job queued_job))
  ∧ sync_logs (store_with_job queued_job)
    `prefix_of` sync_logs (run_ops sample_ops (store_with_job queued_job)).
Proof.
  apply (sync_logs_append_only sample_ops (store_with_job queued_job)).
  intros log Hin. by apply elem_of_nil in Hin.
Defined.

(** ** A run whose fetch fails *)

Section FetchFails.
Context (env : Env).
Import SyncOrchestrator.








End FetchFails.




(** ** The note loop under any notes and any Notion writer *)

Section Returns.

Lemma returns_ret {A} (P : A → Prop) a : P a → returns P (ret a).
Proof. intros Ha w. exact Ha. Qed.

Lemma returns_bind {A B} (P : B → Prop) (m : M A) (k : A → M B) :
  (∀ a, returns P (k a)) → returns P (bind m k).
Proof.
  intros Hk w. unfold bind. destruct (m w) as [w1 [a|e]]; [apply Hk|done].
Qed.

Lemma returns_try_except {A} (P : A → Prop) (m : M A) (h : exn → M A) :
  returns P m → (∀ e, returns P (h e)) → returns P (try_except m h).
Proof.
  intros Hm Hh w. specialize (Hm w). unfold try_except.
  destruct (m w) as [w1 [a|e]]; [exact Hm|apply Hh].
Qed.

End Returns.

Section AnyNotes.
Context (env : Env).
Context (job_id : UUID) (user_id notion_token notion_database_id : string).
Import SyncOrchestrator.

Lemma _process_note_status note :
  returns (λ r, result_status r = "success" ∨ result_status r = "failed")
    (_process_note env job_id user_id note notion_token notion_database_id).
Proof.
  unfold _process_note. apply returns_bind. intros note_id.
  apply returns_try_except.
  - do 6 (apply returns_bind; intros ?). apply returns_ret. by left.
  - intros e. apply returns_bind. intros _. apply returns_ret. by right.
Qed.

(** One iteration, whatever the note and the writer: it returns, one of
    the two local counters went up by one, and the job row got the same
    increment of [failed_notes]. *)
Lemma process_one_counts acc note w j :
  sync_jobs (store w) !! job_id = Some j →
  ∃ w' acc' p,
    process_one env job_id user_id notion_token notion_database_id acc note w
    = (w', Ok acc')
    ∧ (processed_count acc ≤ processed_count acc')%Z
    ∧ (failed_count acc ≤ failed_count acc')%Z
    ∧ (processed_count acc' + failed_count acc'
       = processed_count acc + failed_count acc + 1)%Z
    ∧ sync_jobs (store w') !! job_id
      = Some (DatabaseOperations.add_progress p
                (failed_count acc' - failed_count acc) j).
Proof.
  intros Hj. unfold process_one.
  pose proof (jobs_same_process_note env job_id user_id notion_token
                notion_database_id note w) as [Hjobs _].
  pose proof (_process_note_status note w) as Hstatus.
  destruct (_process_note env job_id user_id note notion_token
              notion_database_id w) as [w1 [r|e]] eqn:Hnote;
    cbn [fst snd] in *.
  - rewrite <- Hjobs in Hj.
    assert (∀ p, ∃ w' acc',
              try_except
                (do result <-
                   _process_note env job_id user_id note notion_token
                     notion_database_id;
                 let success := bool_decide (result_status result = "success") in
                 let acc' :=
                   {| processed_count :=
                        if success then processed_count acc + 1
                        else processed_count acc;
                      failed_count :=
                        if success then failed_count acc
                        else failed_count acc + 1;
                      results := results acc ++ [result] |} in
                 run db_ops.increment_sync_job_progress job_id
                       (Some (if success then 1 else 0))
                       (Some (if bool_decide (result_status result = "failed")
                              then 1 else 0));
                 ret acc') p w
              = (w', Ok acc')
              ∧ processed_count acc'
                = (if bool_decide (result_status r = "success")
                   then processed_count acc + 1 else processed_count acc)
              ∧ failed_count acc'
                = (if bool_decide (result_status r = "success")
                   then failed_count acc else failed_count acc + 1)
              ∧ sync_jobs (store w') !! job_id
                = Some (DatabaseOperations.add_progress
                          (if bool_decide (result_status r = "success")
                           then 1 else 0)
                          (if bool_decide (result_status r = "failed")
                           then 1 else 0) j)) as Hrun.
    { intros h. eexists _, _. split.
      { apply try_except_ok. erewrite bind_ok by exact Hnote.
        erewrite bind_ok by (by apply increment_sync_job_progress_run).
        reflexivity. }
      cbn [processed_count failed_count store sync_jobs with_sync_jobs].
      by rewrite lookup_insert_eq. }
    edestruct Hrun as (w' & acc' & -> & Hp & Hf & Hj').
    exists w', acc'. rewrite Hp, Hf, Hj'.
    destruct Hstatus as [-> | ->].
    + rewrite (bool_decide_eq_true_2 ("success" = "success")) by done.
      rewrite (bool_decide_eq_false_2 ("success" = "failed")) by done.
      exists 1%Z. split; [done|]. split; [lia|]. split; [lia|].
      split; [lia|]. do 2 f_equal. lia.
    + rewrite (bool_decide_eq_false_2 ("failed" = "success")) by done.
      rewrite (bool_decide_eq_true_2 ("failed" = "failed")) by done.
      exists 0%Z. split; [done|]. split; [lia|]. split; [lia|].
      split; [lia|]. do 2 f_equal. lia.
  - rewrite <- Hjobs in Hj.
    eexists _, _, 1%Z. split.
    { erewrite try_except_raise by (by apply bind_raise).
      erewrite bind_ok by (by eapply add_sync_log_run).
      erewrite bind_ok.
      2:{ apply increment_sync_job_progress_run.
          cbn [store sync_jobs with_sync_logs]. exact Hj. }
      reflexivity. }
    cbn [processed_count failed_count store sync_jobs with_sync_jobs].
    rewrite lookup_insert_eq. simpl.
    split; [lia|]. split; [lia|]. split; [lia|].
    do 2 f_equal. lia.
Qed.

Lemma process_notes_counts notes : ∀ acc w j,
  sync_jobs (store w) !! job_id = Some j →
  ∃ w' acc' p,
    process_notes env job_id user_id notion_token notion_database_id notes
      acc w = (w', Ok acc')
    ∧ (processed_count acc ≤ processed_count acc')%Z
    ∧ (failed_count acc ≤ failed_count acc')%Z
    ∧ (processed_count acc' + failed_count acc'
       = processed_count acc + failed_count acc
         + Z.of_nat (length notes))%Z
    ∧ sync_jobs (store w') !! job_id
      = Some (DatabaseOperations.add_progress p
                (failed_count acc' - failed_count acc) j).
Proof.
  induction notes as [|note notes IH]; intros acc w j Hj.
  - exists w, acc, 0%Z. split; [done|]. simpl.
    split; [lia|]. split; [lia|]. split; [lia|].
    rewrite Z.sub_diag. by rewrite add_progress_zero.
  - destruct (process_one_counts acc note w j Hj)
      as (w1 & acc1 & p1 & Hrun1 & Hp1 & Hf1 & Hsum1 & Hj1).
    destruct (IH acc1 w1 _ Hj1)
      as (w2 & acc2 & p2 & Hrun2 & Hp2 & Hf2 & Hsum2 & Hj2).
    exists w2, acc2, (p1 + p2)%Z. split.
    { simpl. by erewrite bind_ok by exact Hrun1. }
    split; [lia|]. split; [lia|].
    split; [rewrite length_cons; lia|].
    rewrite Hj2, add_progress_add. do 2 f_equal. lia.
Qed.

End AnyNotes.

Section AnyBatch.
Context (env : Env) (job_id : UUID) (user_id : string).
Import SyncOrchestrator.

(** X11.  Once the fetch has succeeded the run completes, whichever keys
    the notes lack, whatever their fields hold and whether the Notion writer
    accepts, refuses or cannot be reached, as long as what the run writes
    can be stored (ids and page ids of at most 255 characters, no NUL in a
    stored text): no note makes the batch stop.  The summary counts every
    fetched note once, as processed or as failed, the job row is
    [completed] with [total_notes] the number of fetched notes and
    [failed_notes] the failed count of the summary, and no error message
    is stored. *)
Theorem execute_sync_no_note_stops_the_batch full_sync w creds body :
  sync_jobs (store w) !! job_id = None →
  DatabaseOperations.get_credentials user_id (encryption_service env) (store w)
  = Ok (Some creds) →
  keep_authenticates env →
  keep_returns env body →
  fits_column 255 user_id →
  pages_fit (store w) →
  Forall note_storable (given [] (notes body)) →
  writer_answers_fit env →
  let N := Z.of_nat (length (given [] (notes body))) in
  ∃ w' j processed failed,
    execute_sync env job_id user_id full_sync w
    = (w', Ok {| sync_job_id := job_id; sync_status := "completed";
                 sync_summary :=
                   Some {| summary_total_notes := N;
                           summary_processed_notes := processed;
                           summary_failed_notes := failed |};
                 sync_error := None |})
    ∧ (0 ≤ processed)%Z ∧ (0 ≤ failed)%Z
    ∧ (processed + failed = N)%Z
    ∧ sync_jobs (store w') !! job_id = Some j
    ∧ SyncJob.status j = "completed"
    ∧ SyncJob.total_notes j = N
    ∧ SyncJob.failed_notes j = failed
    ∧ SyncJob.error_message j = None
    ∧ is_Some (SyncJob.completed_at j).
Proof.
  intros Hfresh Hcreds Hauth Hget _ _ _ _ N.
  destruct (execute_sync_reaches_sync_notes env job_id user_id full_sync w
              creds body Hfresh Hcreds Hauth Hget)
    as (w4 & Hrun & Hjobs4 & _).
  assert (sync_jobs (store w4) !! job_id
          = Some (started_job (utcnow env (clock w)) job_id user_id full_sync))
    as Hj4 by (rewrite Hjobs4; apply lookup_insert_eq).
  pose proof (update_sync_job_run job_id
                (JobUpdate.mk None (Some N) None None None None) w4 _ Hj4)
    as Hrun5.
  match type of Hrun5 with _ = (?w0, _) => set (w5 := w0) in Hrun5 end.
  assert (is_Some (sync_jobs (store w5) !! job_id)) as [j5 Hj5]
    by (eexists; apply lookup_insert_eq).
  pose proof (add_sync_log_run env job_id "INFO"
                ("Fetched " +:+ pretty N +:+ " notes from Keep") None w5 _ Hj5)
    as Hrun6.
  match type of Hrun6 with _ = (?w0, _) => set (w6 := w0) in Hrun6 end.
  assert (sync_jobs (store w6) !! job_id
          = Some (DatabaseOperations.apply_job_update
                    (JobUpdate.mk None (Some N) None None None None)
                    (started_job (utcnow env (clock w)) job_id user_id
                       full_sync)))
    as Hj6 by apply lookup_insert_eq.
  destruct (process_notes_counts env job_id user_id
              (CredentialsDict.notion_api_token creds)
              (CredentialsDict.notion_database_id creds)
              (given [] (notes body))
              {| processed_count := 0; failed_count := 0; results := [] |}
              w6 _ Hj6)
    as (w7 & acc & p & Hrun7 & Hp & Hf & Hsum & Hj7).
  destruct (complete_job_run env job_id N acc w7 _ Hj7)
    as (w8 & Hrun8 & Hjobs8 & _).
  simpl in Hp, Hf, Hsum.
  exists w8. eexists _, (processed_count acc), (failed_count acc). split.
  { rewrite Hrun. apply try_except_ok. unfold sync_notes. fold N.
    erewrite bind_ok by exact Hrun5. erewrite bind_ok by exact Hrun6.
    erewrite bind_ok by exact Hrun7. exact Hrun8. }
  split; [done|]. split; [done|]. split; [subst N; lia|].
  split; [rewrite Hjobs8; apply lookup_insert_eq|].
  split; [done|]. split; [done|]. split; [simpl; lia|].
  split; [done|]. by eexists.
Qed.

End AnyBatch.

Lemma execute_sync_no_note_stops_the_batch_witness :
  ∃ w' j processed failed,
    SyncOrchestrator.execute_sync env_notion_down "job-1" "alice" true
      (world_of alice_store)
    = (w', Ok {| SyncOrchestrator.sync_job_id := "job-1";
                 SyncOrchestrator.sync_status := "completed";
                 SyncOrchestrator.sync_summary :=
                   Some {| SyncOrchestrator.summary_total_notes := 3;
                           SyncOrchestrator.summary_processed_notes :=
                             processed;
                           SyncOrchestrator.summary_failed_notes := failed |};
                 SyncOrchestrator.sync_error := None |})
    ∧ (0 ≤ processed)%Z ∧ (0 ≤ failed)%Z
    ∧ (processed + failed = 3)%Z
    ∧ sync_jobs (store w') !! "job-1" = Some j
    ∧ SyncJob.status j = "completed"
    ∧ SyncJob.total_notes j = 3
    ∧ SyncJob.failed_notes j = failed
    ∧ SyncJob.error_message j = None
    ∧ is_Some (SyncJob.completed_at j).
Proof.
  apply (execute_sync_no_note_stops_the_batch env_notion_down "job-1"
           "alice" true (world_of alice_store) alice_credentials
           {| notes := Some odd_notes |}).
  - vm_compute. reflexivity.
  - vm_compute. reflexivity.
  - intros h req. by eexists _, _.
  - intros h params. by eexists.
  - split; [simpl; lia|reflexivity].
  - apply Forall_nil_2.
  - repeat apply Forall_cons_2; [| | |apply Forall_nil_2];
      (split; [intros id [= <-]; (split; [simpl; lia|reflexivity])
              |intros s [= <-]; reflexivity]).
  - split; [intros h req|intros h page req _]; reflexivity.
Defined.

(** ** The request a note sends to the Notion writer *)

Section SinkRequest.
Context (env : Env).
Context (job_id : UUID) (user_id notion_token notion_database_id : string).
Import SyncOrchestrator.

Lemma try_except_tail (R : World → World → Prop) `{!PreOrder R} {A}
    (m : M A) (h : exn → M A) w :
  (∀ e, stable R (h e)) → R (m w).1 (try_except m h w).1.
Proof.
  intros Hh. unfold try_except. destruct (m w) as [w1 [a|e]]; simpl.
  - reflexivity.
  - apply Hh.
Qed.

Lemma bind_tail (R : World → World → Prop) `{!PreOrder R} {A B}
    (m : M A) (k : A → M B) w :
  (∀ a, stable R (k a)) → R (m w).1 (bind m k w).1.
Proof.
  intros Hk. unfold bind. destruct (m w) as [w1 [a|e]]; simpl.
  - apply Hk.
  - reflexivity.
Qed.

Lemma filter_sink_call_quiet evs :
  Forall (λ ev, is_sink_call ev = false) evs → filter is_sink_call evs = [].
Proof.
  induction 1 as [|ev evs Hev _ IH]; [done|].
  rewrite filter_cons, IH. by rewrite Hev.
Qed.

(** The request of either branch, whatever the writer answers. *)
Lemma sink_call_event note p (existing : option SyncState.t) w :
  payload_of note = Some p →
  ∃ r,
    match existing with
    | Some existing => update_existing_page env note existing notion_token
    | None => create_new_page env note notion_token notion_database_id
    end w
    = ({| store := store w; clock := clock w;
          trace := trace w
                   ++ [match existing with
                       | Some existing =>
                           NotionPatch (SyncState.notion_page_id existing)
                             {| update_api_token := notion_token;
                                update_note := p |}
                       | None =>
                           NotionPost
                             {| create_api_token := notion_token;
                                create_database_id := notion_database_id;
                                create_note := p |}
                       end] |}, r).
Proof.
  intros Hp. destruct existing as [existing|].
  - unfold update_existing_page.
    erewrite bind_ok by (by apply note_payload_run).
    unfold bind at 1, notion_patch.
    destruct (notion_client_patch env (trace w) _ _) as [resp|e];
      [|by eexists].
    edestruct (accepted_page_run 200 "Failed to update Notion page: " resp)
      as [e ->]. by eexists.
  - unfold create_new_page.
    erewrite bind_ok by (by apply note_payload_run).
    unfold bind at 1, notion_post.
    destruct (notion_client_post env (trace w) _) as [resp|e];
      [|by eexists].
    edestruct (accepted_page_run 201 "Failed to create Notion page: " resp)
      as [e ->]. by eexists.
Qed.

(** The one request, read off the lookup [_process_note] makes. *)
Lemma _process_note_sink_calls note note_id p w :
  Note.id note = Some note_id →
  payload_of note = Some p →
  ∃ evs,
    trace (_process_note env job_id user_id note notion_token
             notion_database_id w).1 = trace w ++ evs
    ∧ filter is_sink_call evs
      = match DatabaseOperations.get_sync_record user_id note_id (store w) with
        | Ok (Some existing) =>
            [NotionPatch (SyncState.notion_page_id existing)
               {| update_api_token := notion_token; update_note := p |}]
        | Ok None =>
            [NotionPost {| create_api_token := notion_token;
                           create_database_id := notion_database_id;
                           create_note := p |}]
        | Raise _ => []
        end.
Proof.
  intros Hid Hp. unfold _process_note. rewrite Hid.
  erewrite bind_ok by reflexivity.
  match goal with
  | |- context [try_except ?m ?h w] =>
      pose proof (try_except_tail
                    (extends (λ ev, is_sink_call ev = false)) m h w)
        as Htail
  end.
  destruct Htail as (evs3 & Htrace3 & Hquiet3).
  { intros e. extends_auto; done. }
  rewrite Htrace3. clear Htrace3.
  unfold bind at 1, db_ops.get_sync_record, db_call_raising.
  destruct (DatabaseOperations.get_sync_record user_id note_id (store w))
    as [existing|e]; cbn [fst snd trace].
  2:{ eexists. split; [by rewrite <- app_assoc|].
      rewrite filter_app, (filter_sink_call_quiet evs3) by done. done. }
  match goal with
  | |- context [bind ?m ?k ?w0] =>
      pose proof (bind_tail (extends (λ ev, is_sink_call ev = false)) m k w0)
        as Htail
  end.
  destruct Htail as (evs2 & Htrace2 & Hquiet2).
  { intros page. extends_auto; done. }
  rewrite Htrace2. clear Htrace2.
  edestruct (sink_call_event note p existing) as (r & ->); [done|].
  cbn [fst trace].
  eexists. split; [by rewrite <- !app_assoc|].
  rewrite !filter_app, (filter_sink_call_quiet evs3),
    (filter_sink_call_quiet evs2) by done.
  by destruct existing.
Qed.

(** X12.  A note that has a SyncState row is updated in place: when the
    [sync_state] table holds a row whose [user_id] and [keep_note_id] are
    those of the note, the one request [_process_note] sends to the Notion
    writer is a PATCH of the page that row records.  When the table holds
    no such row it sends one POST, for the user's database.  Either way the
    request carries the note's five payload fields and nothing else is sent
    to the writer, whatever it answers. *)
Theorem _process_note_sends_one_request note note_id p w :
  Note.id note = Some note_id →
  payload_of note = Some p →
  unique_sync_state (store w) →
  fits_column 255 user_id →
  fits_column 255 note_id →
  ∃ evs,
    trace (_process_note env job_id user_id note notion_token
             notion_database_id w).1 = trace w ++ evs
    ∧ (∀ existing,
         existing ∈ sync_state (store w) →
         SyncState.user_id existing = user_id →
         SyncState.keep_note_id existing = note_id →
         filter is_sink_call evs
         = [NotionPatch (SyncState.notion_page_id existing)
              {| update_api_token := notion_token; update_note := p |}])
    ∧ ((∀ row, row ∈ sync_state (store w) →
               ¬ (SyncState.user_id row = user_id
                  ∧ SyncState.keep_note_id row = note_id)) →
       filter is_sink_call evs
       = [NotionPost {| create_api_token := notion_token;
                        create_database_id := notion_database_id;
                        create_note := p |}]).
Proof.
  intros Hid Hp Hnd _ _.
  destruct (_process_note_sink_calls note note_id p w Hid Hp)
    as (evs & Htrace & Hcalls).
  exists evs. split; [exact Htrace|].
  pose proof (filter_same_note_unique user_id note_id _ Hnd) as Hlen.
  unfold DatabaseOperations.get_sync_record in Hcalls.
  destruct (filter (DatabaseOperations.same_note user_id note_id)
              (sync_state (store w))) as [|r [|r' l]] eqn:Hrows;
    [| |simpl in Hlen; lia].
  - split; [|done]. intros existing Hin Hu Hk.
    assert (existing ∈ filter (DatabaseOperations.same_note user_id note_id)
                         (sync_state (store w))) as Hex
      by (apply list_elem_of_filter; by split).
    rewrite Hrows in Hex. by apply elem_of_nil in Hex.
  - assert (r ∈ filter (DatabaseOperations.same_note user_id note_id)
                  (sync_state (store w))) as Hr
      by (rewrite Hrows; by apply list_elem_of_singleton).
    apply list_elem_of_filter in Hr as [Hsame Hr]. split.
    + intros existing Hin Hu Hk.
      assert (existing ∈ filter (DatabaseOperations.same_note user_id note_id)
                           (sync_state (store w))) as Hex
        by (apply list_elem_of_filter; by split).
      rewrite Hrows in Hex. apply list_elem_of_singleton in Hex. by subst.
    + intros Hnone. by destruct (Hnone r Hr).
Qed.

End SinkRequest.

Lemma _process_note_sends_one_request_witness :
  (∃ evs,
     trace (SyncOrchestrator._process_note quiet_env "job-1" "alice"
              (sample_note "n1" "groceries" (Some "2024-01-01T10:00:00Z"))
              "notion-token" "database-1" (world_of alice_synced_store)).1
     = trace (world_of alice_synced_store) ++ evs
     ∧ (∀ existing,
          existing ∈ sync_state (store (world_of alice_synced_store)) →
          SyncState.user_id existing = "alice" →
          SyncState.keep_note_id existing = "n1" →
          filter is_sink_call evs
          = [NotionPatch (SyncState.notion_page_id existing)
               {| update_api_token := "notion-token";
                  update_note :=
                    NotePayload.mk "groceries" "body" "2024-01-01T10:00:00Z"
                      ["work"] [] |}])
     ∧ ((∀ row, row ∈ sync_state (store (world_of alice_synced_store)) →
                ¬ (SyncState.user_id row = "alice"
                   ∧ SyncState.keep_note_id row = "n1")) →
        filter is_sink_call evs
        = [NotionPost {| create_api_token := "notion-token";
                         create_database_id := "database-1";
                         create_note :=
                           NotePayload.mk "groceries" "body"
                             "2024-01-01T10:00:00Z" ["work"] [] |}]))
  ∧ (SyncState.keep_note_id <$> sync_state alice_synced_store = ["n1"; "n2"])
  ∧ filter is_sink_call
      (trace (SyncOrchestrator._process_note quiet_env "job-1" "alice"
                (sample_note "n1" "groceries" (Some "2024-01-01T10:00:00Z"))
                "notion-token" "database-1" (world_of alice_synced_store)).1)
    = [NotionPatch "page-1"
         {| update_api_token := "notion-token";
            update_note :=
              NotePayload.mk "groceries" "body" "2024-01-01T10:00:00Z"
                ["work"] [] |}].
Proof.
  split; [|split; vm_compute; reflexivity].
  apply (_process_note_sends_one_request quiet_env "job-1" "alice"
           "notion-token" "database-1"
           (sample_note "n1" "groceries" (Some "2024-01-01T10:00:00Z")) "n1"
           (NotePayload.mk "groceries" "body" "2024-01-01T10:00:00Z"
              ["work"] [])).
  - reflexivity.
  - reflexivity.
  - apply upsert_sync_state_unique, upsert_sync_state_unique, NoDup_nil_2.
  - split; [simpl; lia|reflexivity].
  - split; [simpl; lia|reflexivity].
Defined.

(** ** The notification service *)


(** ** The status endpoint after a run *)

Section StatusAfterRun.
Context (env : Env) (job_id : UUID).
Import SyncOrchestrator.


End StatusAfterRun.

(** X15.  Both job endpoints of the sync service refuse a job they cannot
    find without writing anything: a [job_id] that is not a UUID gets the
    400 error [Invalid job_id format] before the store is consulted, and a
    UUID with no job row gets the 404 error naming the id after one
    read. *)
Theorem unknown_job_is_refused env job_str w :
  (uuid_of_str env job_str = None →
   SyncStatus.get_sync_status env job_str w
   = (w, Raise (HTTPException 400 "Invalid job_id format"))
   ∧ SyncService.abort_sync env job_str w
     = (w, Raise (HTTPException 400 "Invalid job_id format")))
  ∧ (∀ job_id,
       uuid_of_str env job_str = Some job_id →
       sync_jobs (store w) !! job_id = None →
       let w' := {| store := store w; clock := clock w;
                    trace := trace w ++ [Db (GetSyncJob job_id)] |} in
       SyncStatus.get_sync_status env job_str w
       = (w', Raise (HTTPException 404
                       ("Sync job " +:+ job_str +:+ " not found")))
       ∧ SyncService.abort_sync env job_str w
         = (w', Raise (HTTPException 404
                         ("Sync job " +:+ job_str +:+ " not found")))).
Proof.
  unfold SyncStatus.get_sync_status, SyncService.abort_sync. split.
  - by intros ->.
  - intros job_id -> Hj. simpl.
    rewrite !(bind_ok _ _ _ _ _ (get_sync_job_run job_id w)), Hj. done.
Qed.

Lemma send_critical_error_notification_swallows_webhook_failure :
  ∃ evs,
    NotificationService.send_critical_error_notification env_webhook_down
      (NotificationService.init env_webhook_down) "job-1" "alice" "boom"
      [("stage", CtxStr "sync_execution")] (world_of alice_store)
    = ({| store := alice_store; clock := 0; trace := evs |}, Ok tt)
    ∧ filter is_webhook_post evs
      = [WebhookPost "https://hooks.example/alerts"
           (NotificationService.notification_text "job-1" "alice" "boom"
              [("stage", CtxStr "sync_execution")]) "job-1" "alice" "boom"].
Proof. eexists. split; vm_compute; reflexivity. Qed.


(** ** The listing queries *)

Section Listings.
Import DatabaseReads.

Lemma StronglySorted_drop {A} (R : A → A → Prop) n (l : list A) :
  StronglySorted R l → StronglySorted R (drop n l).
Proof.
  revert n. induction l as [|x l IH]; intros n Hl.
  - destruct n; simpl; constructor.
  - destruct n; simpl; [exact Hl|].
    apply IH. by apply StronglySorted_inv in Hl as [? _].
Qed.

Lemma StronglySorted_take {A} (R : A → A → Prop) n (l : list A) :
  StronglySorted R l → StronglySorted R (take n l).
Proof.
  revert n. induction l as [|x l IH]; intros n Hl.
  - destruct n; simpl; constructor.
  - destruct n; simpl; [constructor|].
    apply StronglySorted_inv in Hl as [Hl Hx]. constructor.
    + by apply IH.
    + eapply Forall_forall. intros y Hy. eapply Forall_forall; [exact Hx|].
      by eapply subseteq_take.
Qed.

Lemma paginate_ok {A} limit offset (rows : list A) :
  (0 ≤ limit)%Z → (0 ≤ offset)%Z →
  ∃ page,
    paginate limit offset rows = Ok page
    ∧ page = take (Z.to_nat limit) (drop (Z.to_nat offset) rows)
    ∧ Z.of_nat (length page)
      = Z.min limit (Z.max 0 (Z.of_nat (length rows) - offset))
    ∧ page ⊆ rows.
Proof.
  intros Hl Ho. unfold paginate.
  rewrite !decide_False by lia. eexists. split; [done|]. split; [done|].
  split.
  - rewrite length_take, length_drop. lia.
  - etrans; [apply subseteq_take|apply subseteq_drop].
Qed.

Lemma paginate_is_page {A} limit offset (rows : list A) :
  (0 ≤ limit)%Z → (0 ≤ offset)%Z →
  ∃ page, paginate limit offset rows = Ok page ∧ is_page limit offset rows page.
Proof.
  intros Hl Ho.
  destruct (paginate_ok limit offset rows Hl Ho) as (page & Hpage & -> & Hlen & _).
  exists (take (Z.to_nat limit) (drop (Z.to_nat offset) rows)).
  split; [done|].
  exists (take (Z.to_nat offset) rows),
         (drop (Z.to_nat limit) (drop (Z.to_nat offset) rows)).
  split; [by rewrite !take_drop|]. split; [rewrite length_take; lia|done].
Qed.

Lemma filter_fmap_snd {K A} (P : A → Prop) `{!∀ x, Decision (P x)}
    (l : list (K * A)) :
  filter P (snd <$> l) = snd <$> filter (λ kj, P kj.2) l.
Proof.
  induction l as [|[k j] l IH]; [done|].
  rewrite fmap_cons, !filter_cons. simpl. destruct (decide (P j)); simpl;
    by rewrite IH.
Qed.

Lemma filter_all {A} (P : A → Prop) `{!∀ x, Decision (P x)} (l : list A) :
  (∀ x, P x) → filter P l = l.
Proof.
  intros HP. induction l as [|x l IH]; [done|].
  by rewrite filter_cons_True, IH.
Qed.

(** The rows the query selects are the rows the listing is about. *)
Lemma jobs_matching_listed user_id db :
  jobs_matching user_id db = jobs_listed_for user_id db.
Proof.
  unfold jobs_matching, jobs_listed_for, all_sync_jobs.
  destruct user_id as [u|]; simpl.
  - destruct u as [|c u]; simpl.
    + rewrite filter_all; [done|]. intros kj. by left.
    + rewrite filter_fmap_snd. f_equal. apply list_filter_iff.
      intros [k j]. simpl. split; [by right|]. by intros [?|?].
  - by rewrite filter_all.
Qed.

Context (newest_first : list SyncJob.t → list SyncJob.t).

Lemma get_sync_jobs_run user_id limit offset db :
  orders_by newer_or_same newest_first →
  (0 ≤ limit)%Z → (0 ≤ offset)%Z →
  ∃ jobs,
    get_sync_jobs newest_first user_id (Some limit) (Some offset) db
    = Ok (jobs, Z.of_nat (length (jobs_listed_for user_id db)))
    ∧ paginate limit offset (newest_first (jobs_matching user_id db)) = Ok jobs
    ∧ ∃ ordered,
        ordered ≡ₚ jobs_listed_for user_id db
        ∧ StronglySorted newer_or_same ordered
        ∧ is_page limit offset ordered jobs.
Proof.
  intros Horder Hl Ho. unfold get_sync_jobs.
  change (given 50 (Some limit)) with limit.
  change (given 0 (Some offset)) with offset.
  destruct (Horder (jobs_matching user_id db)) as [Hperm Hsorted].
  destruct (paginate_is_page limit offset
              (newest_first (jobs_matching user_id db)) Hl Ho)
    as (jobs & Hpage & His).
  rewrite Hpage, jobs_matching_listed. exists jobs.
  split; [done|]. split; [done|].
  rewrite <- jobs_matching_listed. by eexists.
Qed.

(** X16.  [get_sync_jobs] with a limit and an offset that are not negative
    returns a page and the total.  The total is the number of rows of
    [sync_jobs] the listing is about: all of them without a user id, those
    whose [user_id] column holds the user id otherwise; it does not depend
    on the page.  The page is cut out of these rows put newest first: it
    skips the first [offset] of them and holds the next [limit], or what is
    left.  The empty string as [user_id] filters nothing, like [None]; and
    for a user id that is not empty [get_sync_jobs_by_user] returns the
    same page. *)
Theorem get_sync_jobs_page user_id limit offset db :
  orders_by newer_or_same newest_first →
  (0 ≤ limit)%Z → (0 ≤ offset)%Z →
  let total :=
    Z.of_nat
      (length (filter (λ kj, listed_for user_id kj.2)
                 (map_to_list (sync_jobs db)))) in
  ∃ jobs ordered,
    get_sync_jobs newest_first user_id (Some limit) (Some offset) db
    = Ok (jobs, total)
    ∧ ordered
      ≡ₚ snd <$> filter (λ kj, listed_for user_id kj.2)
                   (map_to_list (sync_jobs db))
    ∧ StronglySorted newer_or_same ordered
    ∧ is_page limit offset ordered jobs
    ∧ Z.of_nat (length jobs) = Z.min limit (Z.max 0 (total - offset))
    ∧ (∀ j, j ∈ jobs →
         ∃ k, sync_jobs db !! k = Some j ∧ listed_for user_id j)
    ∧ ((total ≤ limit)%Z → offset = 0%Z →
       ∀ k j, sync_jobs db !! k = Some j → listed_for user_id j → j ∈ jobs)
    ∧ get_sync_jobs newest_first (Some "") (Some limit) (Some offset) db
      = get_sync_jobs newest_first None (Some limit) (Some offset) db
    ∧ (∀ u, user_id = Some u → u ≠ "" →
         get_sync_jobs_by_user newest_first u (Some limit) (Some offset) db
         = Ok jobs).
Proof.
  intros Horder Hl Ho total.
  destruct (get_sync_jobs_run user_id limit offset db Horder Hl Ho)
    as (jobs & Hrun & Hpage & ordered & Hperm & Hsorted & His).
  assert (Z.of_nat (length (jobs_listed_for user_id db)) = total) as Htotal
    by (unfold jobs_listed_for; by rewrite length_fmap).
  assert (Z.of_nat (length ordered) = total) as Hordered
    by by rewrite Hperm.
  exists jobs, ordered. rewrite Hrun, Htotal.
  split; [done|]. split; [exact Hperm|]. split; [done|]. split; [done|].
  destruct His as (before & after & Heq & Hbefore & Hlen).
  split; [lia|].
  split.
  { intros j Hin.
    assert (j ∈ jobs_listed_for user_id db) as Hj.
    { rewrite <- Hperm, Heq, !elem_of_app. auto. }
    apply list_elem_of_fmap in Hj as ([k j'] & -> & Hj).
    apply list_elem_of_filter in Hj as [Hlisted Hj].
    exists k. split; [by apply elem_of_map_to_list|done]. }
  split.
  { intros Hall -> k j Hk Hlisted.
    assert (j ∈ ordered) as Hj.
    { rewrite Hperm. apply list_elem_of_fmap. exists (k, j). split; [done|].
      apply list_elem_of_filter. split; [done|].
      by apply elem_of_map_to_list. }
    assert (before = []) as -> by (apply nil_length_inv; lia).
    assert (after = []) as ->.
    { apply nil_length_inv.
      apply (f_equal length) in Heq. rewrite !length_app in Heq.
      simpl in Heq. lia. }
    rewrite Heq in Hj. simpl in Hj. by rewrite app_nil_r in Hj. }
  split; [done|].
  intros u -> Hu. unfold get_sync_jobs_by_user.
  change (given 50 (Some limit)) with limit.
  change (given 0 (Some offset)) with offset.
  rewrite <- Hpage. unfold jobs_matching.
  by destruct u.
Qed.

(** X17.  [get_sync_history] answers 400 exactly when the limit is outside
    1..100 or the offset is negative, without querying the store; in every
    other case it succeeds (the 500 branch is never taken) and returns the
    limit and offset it was given, the number of rows of [sync_jobs] the
    listing is about as the total, and the summaries of the page cut out of
    these rows put newest first: the [limit] rows after the first [offset],
    or what is left. *)
Theorem get_sync_history_validates env user_id limit offset db :
  orders_by newer_or_same newest_first →
  let l := given 50 limit in
  let o := given 0 offset in
  let listed :=
    snd <$> filter (λ kj, listed_for user_id kj.2)
              (map_to_list (sync_jobs db)) in
  match ApiGateway.get_sync_history env newest_first user_id limit offset db
  with
  | Raise e =>
      ((l < 1)%Z ∨ (100 < l)%Z ∨ (o < 0)%Z)
      ∧ ∃ detail, e = HTTPException 400 detail
  | Ok resp =>
      (1 ≤ l ≤ 100)%Z ∧ (0 ≤ o)%Z
      ∧ ApiGateway.total resp = Z.of_nat (length listed)
      ∧ ApiGateway.limit resp = l
      ∧ ApiGateway.offset resp = o
      ∧ (Z.of_nat (length (ApiGateway.jobs resp))
         = Z.min l (Z.max 0 (Z.of_nat (length listed) - o)))%Z
      ∧ ∃ page ordered,
          ApiGateway.jobs resp = ApiGateway.summary_of env <$> page
          ∧ ordered ≡ₚ listed
          ∧ StronglySorted newer_or_same ordered
          ∧ is_page l o ordered page
  end.
Proof.
  intros Horder l o listed. unfold ApiGateway.get_sync_history. fold l o.
  destruct (decide (l < 1 ∨ l > 100)%Z) as [Hl|Hl].
  { split; [lia|by eexists]. }
  destruct (decide (o < 0)%Z) as [Ho|Ho].
  { split; [lia|by eexists]. }
  destruct (get_sync_jobs_run user_id l o db Horder)
    as (jobs & -> & _ & ordered & Hperm & Hsorted & His); [lia|lia|].
  cbn [ApiGateway.jobs ApiGateway.total ApiGateway.limit ApiGateway.offset].
  fold listed in Hperm.
  split; [lia|]. split; [lia|]. split; [done|]. split; [done|].
  split; [done|]. split.
  { rewrite length_fmap. destruct His as (before & after & _ & _ & Hlen).
    rewrite Hlen. by rewrite Hperm. }
  by exists jobs, ordered.
Qed.

End Listings.

Section Logs.
Import DatabaseReads.
Context (oldest_first : list SyncLog.t → list SyncLog.t).


End Logs.

Lemma merge_sort_orders_by {A} (R : relation A) `{!∀ x y, Decision (R x y)}
    `{!Transitive R} `{!Total R} :
  orders_by R (merge_sort R).
Proof.
  intros rows. split.
  - apply merge_sort_Permutation.
  - by apply StronglySorted_merge_sort.
Qed.

#[global] Instance newer_or_same_trans : Transitive newer_or_same.
Proof. unfold newer_or_same. intros a b c ? ?. lia. Qed.

#[global] Instance newer_or_same_total : Total newer_or_same.
Proof. unfold newer_or_same. intros a b. lia. Qed.

#[global] Instance older_or_same_trans : Transitive older_or_same.
Proof. unfold older_or_same. intros a b c ? ?. lia. Qed.

#[global] Instance older_or_same_total : Total older_or_same.
Proof. unfold older_or_same. intros a b. lia. Qed.

Lemma get_sync_jobs_page_witness :
  (let total :=
     Z.of_nat
       (length (filter (λ kj, listed_for (Some "alice") kj.2)
                  (map_to_list (sync_jobs three_jobs_store)))) in
   ∃ jobs ordered,
     DatabaseReads.get_sync_jobs (merge_sort newer_or_same) (Some "alice")
       (Some 1) (Some 1) three_jobs_store = Ok (jobs, total)
     ∧ ordered
       ≡ₚ snd <$> filter (λ kj, listed_for (Some "alice") kj.2)
                    (map_to_list (sync_jobs three_jobs_store))
     ∧ StronglySorted newer_or_same ordered
     ∧ is_page 1 1 ordered jobs
     ∧ Z.of_nat (length jobs) = Z.min 1 (Z.max 0 (total - 1))
     ∧ (∀ j, j ∈ jobs →
          ∃ k, sync_jobs three_jobs_store !! k = Some j
               ∧ listed_for (Some "alice") j)
     ∧ ((total ≤ 1)%Z → 1%Z = 0%Z →
        ∀ k j, sync_jobs three_jobs_store !! k = Some j →
               listed_for (Some "alice") j → j ∈ jobs)
     ∧ DatabaseReads.get_sync_jobs (merge_sort newer_or_same) (Some "")
         (Some 1) (Some 1) three_jobs_store
       = DatabaseReads.get_sync_jobs (merge_sort newer_or_same) None
           (Some 1) (Some 1) three_jobs_store
     ∧ (∀ u, Some "alice" = Some u → u ≠ "" →
          DatabaseReads.get_sync_jobs_by_user (merge_sort newer_or_same) u
            (Some 1) (Some 1) three_jobs_store = Ok jobs))
  ∧ DatabaseReads.get_sync_jobs (merge_sort newer_or_same) (Some "alice")
      (Some 1) (Some 1) three_jobs_store
    = Ok ([SyncJob.mk "job-1" "alice" "completed" true 2 2 0 None 600
             (Some 650)], 2).
Proof.
  split; [|vm_compute; reflexivity].
  apply (get_sync_jobs_page (merge_sort newer_or_same) (Some "alice") 1 1
           three_jobs_store).
  - apply merge_sort_orders_by; apply _.
  - lia.
  - lia.
Defined.

Lemma get_sync_history_validates_witness :
  (let listed :=
     snd <$> filter (λ kj, listed_for None kj.2)
               (map_to_list (sync_jobs three_jobs_store)) in
   match ApiGateway.get_sync_history quiet_env (merge_sort newer_or_same)
           None (Some 2) None three_jobs_store with
   | Raise e =>
       ((2 < 1)%Z ∨ (100 < 2)%Z ∨ (0 < 0)%Z)
       ∧ ∃ detail, e = HTTPException 400 detail
   | Ok resp =>
       (1 ≤ 2 ≤ 100)%Z ∧ (0 ≤ 0)%Z
       ∧ ApiGateway.total resp = Z.of_nat (length listed)
       ∧ ApiGateway.limit resp = 2
       ∧ ApiGateway.offset resp = 0
       ∧ (Z.of_nat (length (ApiGateway.jobs resp))
          = Z.min 2 (Z.max 0 (Z.of_nat (length listed) - 0)))%Z
       ∧ ∃ page ordered,
           ApiGateway.jobs resp = ApiGateway.summary_of quiet_env <$> page
           ∧ ordered ≡ₚ listed
           ∧ StronglySorted newer_or_same ordered
           ∧ is_page 2 0 ordered page
   end)
  ∧ (ApiGateway.job_id <$>
       from_option ApiGateway.jobs []
         (match ApiGateway.get_sync_history quiet_env
                  (merge_sort newer_or_same) None (Some 2) None
                  three_jobs_store with
          | Ok resp => Some resp
          | Raise _ => None
          end)) = ["job-3"; "job-2"].
Proof.
  split; [|vm_compute; reflexivity].
  apply (get_sync_history_validates (merge_sort newer_or_same) quiet_env None
           (Some 2) None three_jobs_store).
  apply merge_sort_orders_by; apply _.
Defined.


(** ** The start endpoint of the gateway *)

Section StartSync.
Context (env : Env).



(** X20.  [start_sync] refuses without writing: a user id that is empty
    or only whitespace gets the 400 error before anything is read or
    written, and a job id that is already taken gets a 500 that carries
    the database error, the store left as it was. *)
Theorem start_sync_refuses_without_writing uuid4 forward user_id full_sync w :
  (strip_truthy user_id = false →
   ApiGateway.start_sync env uuid4 forward user_id full_sync w
   = (w, Raise (HTTPException 400 "user_id is required and cannot be empty")))
  ∧ (strip_truthy user_id = true →
     is_Some (sync_jobs (store w) !! uuid4) →
     ∃ w' detail,
       ApiGateway.start_sync env uuid4 forward user_id full_sync w
       = (w', Raise (HTTPException 500 detail))
       ∧ contains "duplicate key" detail
       ∧ store w' = store w).
Proof.
  unfold ApiGateway.start_sync. split.
  - intros ->. by rewrite orb_true_r.
  - intros Hstrip [j Hj].
    assert (user_id ≠ "") as Hne by (intros ->; discriminate Hstrip).
    rewrite bool_decide_eq_false_2, Hstrip by done. cbn [orb negb].
    unfold bind at 1, now. cbn [store clock trace].
    eexists _, _. split.
    { apply bind_raise. erewrite try_except_raise.
      2:{ by eapply create_sync_job_run_existing. }
      reflexivity. }
    split; [|done]. simpl.
    by exists "Failed to create sync job in database: ",
      " value violates unique constraint sync_jobs_pkey".
Qed.

End StartSync.


(** ** API keys *)

Section ApiKeys.

Lemma chars_lstrip c s : c ∈ chars (lstrip s) → c ∈ chars s.
Proof.
  induction s as [|a s IH]; simpl; [done|].
  destruct (is_space a); [|done]. intros Hc. right. by apply IH.
Qed.

Lemma chars_rstrip c s : c ∈ chars (rstrip s) → c ∈ chars s.
Proof.
  induction s as [|a s IH]; simpl; [done|].
  destruct (is_space a && bool_decide (rstrip s = "")); simpl.
  - by intros ?%elem_of_nil.
  - intros [->|Hc]%elem_of_cons; [left|right; by apply IH].
Qed.

Lemma chars_strip c s : c ∈ chars (strip s) → c ∈ chars s.
Proof. intros Hc. by apply chars_lstrip, chars_rstrip. Qed.

Lemma split_on_no_sep sep s part :
  part ∈ split_on sep s → sep ∉ chars part.
Proof.
  revert part. induction s as [|a s IH]; intros part; simpl.
  - intros ->%list_elem_of_singleton. by intros ?%elem_of_nil.
  - destruct (decide (a = sep)) as [->|Ha].
    + intros [->|Hin]%elem_of_cons; [by intros ?%elem_of_nil|by apply IH].
    + destruct (split_on sep s) as [|p ps].
      * intros ->%list_elem_of_singleton. simpl.
        intros [->|?%elem_of_nil]%elem_of_cons; done.
      * intros [->|Hin]%elem_of_cons.
        -- simpl. intros [->|Hc]%elem_of_cons; [done|].
           by apply (IH p); [left|].
        -- apply IH. by right.
Qed.

Lemma rstrip_rstrip s : rstrip (rstrip s) = rstrip s.
Proof.
  induction s as [|a s IH]; simpl; [done|].
  destruct (is_space a && bool_decide (rstrip s = "")) eqn:Hc; [done|].
  simpl. by rewrite IH, Hc.
Qed.

Lemma lstrip_clean_start s : clean_start (lstrip s).
Proof.
  induction s as [|a s IH]; simpl; [done|].
  by destruct (is_space a) eqn:Ha.
Qed.

Lemma lstrip_of_clean_start s : clean_start s → lstrip s = s.
Proof. destruct s as [|a s]; simpl; [done|]. by intros ->. Qed.

Lemma rstrip_clean_start s : clean_start s → clean_start (rstrip s).
Proof.
  destruct s as [|a s]; simpl; [done|]. intros Ha. by rewrite Ha.
Qed.

Lemma strip_strip s : strip (strip s) = strip s.
Proof.
  unfold strip.
  rewrite (lstrip_of_clean_start (rstrip (lstrip s))).
  - apply rstrip_rstrip.
  - apply rstrip_clean_start, lstrip_clean_start.
Qed.

(** X21.  [verify_api_key] answers 401 to every request it does not
    accept, and a key it accepts is the header value itself: not empty,
    free of commas and of whitespace at either end, and equal to one of
    the comma-separated entries of [API_KEYS] after stripping.  With
    [API_KEYS] not set the development key is the only key accepted. *)
Theorem verify_api_key_accepts_configured_keys env x_api_key :
  match ApiGateway.verify_api_key env x_api_key with
  | Ok key =>
      x_api_key = Some key
      ∧ key ≠ ""
      ∧ strip key = key
      ∧ (","%char ∉ chars key)
      ∧ ∃ part,
          part ∈ split_on ","
                   (given "dev-api-key-12345" (getenv env "API_KEYS"))
          ∧ strip part = key
  | Raise e => ∃ detail, e = HTTPException 401 detail
  end
  ∧ (getenv env "API_KEYS" = None →
     ∀ key, ApiGateway.verify_api_key env (Some key) = Ok key
            ↔ key = "dev-api-key-12345").
Proof.
  unfold ApiGateway.verify_api_key, ApiGateway.get_api_keys. split.
  - destruct x_api_key as [key|]; simpl; [|by eexists].
    destruct (decide (key = "")) as [->|Hkey]; [by eexists|].
    destruct (decide (key ∈ _)) as [Hin|Hin]; [|by eexists].
    apply elem_of_list_to_set, list_elem_of_filter in Hin as [_ Hin].
    apply list_elem_of_fmap in Hin as (part & -> & Hpart).
    split; [done|]. split; [done|]. split; [apply strip_strip|].
    split; [|by exists part].
    intros Hc%chars_strip. by apply (split_on_no_sep _ _ _ Hpart).
  - intros ->. intros key.
    change (given "dev-api-key-12345" None) with "dev-api-key-12345".
    unfold truthy.
    assert (filter (λ key, key ≠ "")
              (strip <$> split_on "," "dev-api-key-12345")
            = ["dev-api-key-12345"]) as -> by (vm_compute; reflexivity).
    destruct (decide (key = "")) as [->|Hkey]; [done|].
    destruct (decide (key ∈ _)) as [Hin|Hin].
    + split; [|done]. intros _.
      by apply elem_of_list_to_set, list_elem_of_singleton in Hin.
    + split; [done|]. intros ->. exfalso. apply Hin.
      by apply elem_of_list_to_set, list_elem_of_singleton.
Qed.

End ApiKeys.
